(** * Verification of the TicTacToe game engine and its minimax opponent

    Shallow embedding of [src/app/game_logic.py]:
    - class [TicTacToeGame] (board state machine), and
    - class [MinimaxAI] (minimax search with alpha-beta pruning);
    of the enumeration [DifficultyLevel] of [src/app/models/game.py], and
    of [validate_difficulty] of [src/app/routes/main.py].

    Python values are modelled as follows.  A [str] is a list of
    characters, an [int] is a [Z], a [float] is an IEEE binary64 value
    of the standard library's [spec_float] (with its correctly rounded
    operations), exceptions are the error side of a result monad, and
    objects of class [TicTacToeGame] live in a store indexed by
    references, so that copies and aliases are distinguished. *)

From Stdlib Require Import ZArith QArith Qpower List Ascii String Lia Lqa Bool Sorted.
From Stdlib Require Import Floats.SpecFloat Floats.PrimFloat Floats.FloatOps.
From Stdlib Require Import Orders OrdersTac.
From stdpp Require Import base option list gmap pmap.

Local Open Scope Z_scope.
Set Warnings "-inexact-float".

(** ** Python strings *)

Abbreviation pystr := (list ascii).

Definition str (s : string) : pystr := list_ascii_of_string s.

(** [len(s)] as a Python integer. *)
Definition len (s : pystr) : Z := Z.of_nat (length s).

(** ** Exceptions and the result monad *)

Inductive exn : Set :=
| ValueError      (* raised by the constructors *)
| IndexError      (* sequence index out of range *)
| OverflowError   (* int too large to convert to float *)
| AttributeError  (* a reference that designates no object *)
| RecursionError. (* the bound on nested calls (fuel) is exhausted *)

Inductive res (A : Type) : Type :=
| Ok (a : A)
| Raise (e : exn).
Arguments Ok {A} a.
Arguments Raise {A} e.

#[global] Instance res_ret : MRet res := @Ok.
#[global] Instance res_bind : MBind res := λ A B f m,
  match m with
  | Ok a => f a
  | Raise e => Raise e
  end.

(** [s[i]] for a Python integer [i]: negative indices count from the end,
    anything out of range raises IndexError. *)
Definition str_index (s : pystr) (i : Z) : res ascii :=
  let j := if i <? 0 then i + len s else i in
  if (0 <=? j) && (j <? len s)
  then match nth_error s (Z.to_nat j) with
       | Some c => Ok c
       | None => Raise IndexError
       end
  else Raise IndexError.

(** Slice bounds are clamped to [0, len(s)], after negative bounds have
    been shifted by [len(s)]. *)
Definition clamp (s : pystr) (i : Z) : nat :=
  let j := if i <? 0 then i + len s else i in
  Z.to_nat (Z.min (Z.max j 0) (len s)).

(** [s[:i]] and [s[i:]]. *)
Definition slice_to (s : pystr) (i : Z) : pystr := firstn (clamp s i) s.
Definition slice_from (s : pystr) (i : Z) : pystr := skipn (clamp s i) s.

(** [a == b] on strings. *)
Fixpoint pystr_eqb (a b : pystr) : bool :=
  match a, b with
  | [], [] => true
  | x :: a', y :: b' => Ascii.eqb x y && pystr_eqb a' b'
  | _, _ => false
  end.

(** ** class TicTacToeGame *)

Module TicTacToeGame.

Definition EMPTY : ascii := " "%char.
Definition PLAYER_X : ascii := "X"%char.
Definition PLAYER_O : ascii := "O"%char.

(** Winning combinations (rows, columns, diagonals). *)
Definition WINNING_COMBINATIONS : list (Z * Z * Z) :=
  [ (0, 1, 2); (3, 4, 5); (6, 7, 8);
    (0, 3, 6); (1, 4, 7); (2, 5, 8);
    (0, 4, 8); (2, 4, 6) ].

(** The only attribute of an instance. *)
Record t : Set := Build { board : pystr }.

(** [c in (self.EMPTY, self.PLAYER_X, self.PLAYER_O)] *)
Definition is_cell (c : ascii) : bool :=
  Ascii.eqb c EMPTY || Ascii.eqb c PLAYER_X || Ascii.eqb c PLAYER_O.

(** [__init__]: the state of the new object, or ValueError. *)
Definition __init__ (board_state : option pystr) : res t :=
  match board_state with
  | None => Ok (Build (repeat EMPTY 9))
  | Some s =>
      if negb (len s =? 9) || negb (forallb is_cell s)
      then Raise ValueError
      else Ok (Build s)
  end.

(** [player in (self.PLAYER_X, self.PLAYER_O)], for a string [player]. *)
Definition is_player (player : pystr) : bool :=
  pystr_eqb player [PLAYER_X] || pystr_eqb player [PLAYER_O].

Definition is_valid_move (self : t) (position : Z) (player : pystr) : res bool :=
  if negb ((0 <=? position) && (position <=? 8)) then Ok false
  else if negb (is_player player) then Ok false
  else c ← str_index (board self) position; Ok (Ascii.eqb c EMPTY).

(** [make_move] returns its result together with the state of [self]
    after the call. *)
Definition make_move (self : t) (position : Z) (player : pystr) : res (bool * t) :=
  ok ← is_valid_move self position player;
  if negb ok then Ok (false, self)
  else Ok (true, Build (slice_to (board self) position ++ player
                        ++ slice_from (board self) (position + 1))).

(** The test of one winning combination:
    [b[c0] != EMPTY and b[c0] == b[c1] == b[c2]], evaluated left to right. *)
Definition line_wins (b : pystr) (combo : Z * Z * Z) : res bool :=
  let '(c0, c1, c2) := combo in
  x0 ← str_index b c0;
  if Ascii.eqb x0 EMPTY then Ok false
  else
    y0 ← str_index b c0;
    x1 ← str_index b c1;
    if negb (Ascii.eqb y0 x1) then Ok false
    else x2 ← str_index b c2; Ok (Ascii.eqb x1 x2).

(** The loop over the winning combinations: the owner of the first
    combination that wins, if any. *)
Fixpoint first_winner (b : pystr) (combos : list (Z * Z * Z)) : res (option ascii) :=
  match combos with
  | [] => Ok None
  | combo :: rest =>
      w ← line_wins b combo;
      if (w : bool) then (c ← str_index b combo.1.1; Ok (Some c))
      else first_winner b rest
  end.

Definition check_winner (self : t) : res (bool * option ascii) :=
  w ← first_winner (board self) WINNING_COMBINATIONS;
  match w with
  | Some c => Ok (true, Some c)
  | None =>
      if negb (existsb (Ascii.eqb EMPTY) (board self)) then Ok (true, None)
      else Ok (false, None)
  end.

(** [[i for i, cell in enumerate(b) if cell == EMPTY]], counting from [i]. *)
Fixpoint empty_cells_from (i : Z) (b : pystr) : list Z :=
  match b with
  | [] => []
  | cell :: b' =>
      if Ascii.eqb cell EMPTY then i :: empty_cells_from (i + 1) b'
      else empty_cells_from (i + 1) b'
  end.

Definition get_valid_moves (self : t) : list Z := empty_cells_from 0 (board self).

Definition get_board_state (self : t) : pystr := board self.

End TicTacToeGame.

(** ** Python numbers *)

(** A number is an [int] or a [float]; the floats are binary64. *)
Inductive pynum : Set :=
| PInt (z : Z)
| PFloat (f : spec_float).

Definition fadd : spec_float → spec_float → spec_float := SFadd 53 1024.
Definition fsub : spec_float → spec_float → spec_float := SFsub 53 1024.
Definition fmul : spec_float → spec_float → spec_float := SFmul 53 1024.

(** The float literals of the source, as the binary64 values nearest to them. *)
Definition f_0_0 : spec_float := Eval vm_compute in Prim2SF 0.0%float.
Definition f_1_0 : spec_float := Eval vm_compute in Prim2SF 1.0%float.
Definition f_4_0 : spec_float := Eval vm_compute in Prim2SF 4.0%float.
Definition f_5_0 : spec_float := Eval vm_compute in Prim2SF 5.0%float.
Definition f_0_1 : spec_float := Eval vm_compute in Prim2SF 0.1%float.
Definition f_0_2 : spec_float := Eval vm_compute in Prim2SF 0.2%float.
Definition f_0_3 : spec_float := Eval vm_compute in Prim2SF 0.3%float.
Definition f_0_4 : spec_float := Eval vm_compute in Prim2SF 0.4%float.
Definition f_inf : spec_float := S754_infinity false.
Definition f_neg_inf : spec_float := S754_infinity true.

(** Conversion of an [int] to [float]: correctly rounded, OverflowError
    when the result is not finite. *)
Definition float_of_int (z : Z) : res spec_float :=
  match binary_normalize 53 1024 z 0 false with
  | S754_infinity _ => Raise OverflowError
  | f => Ok f
  end.

Definition to_float (a : pynum) : res spec_float :=
  match a with
  | PInt z => float_of_int z
  | PFloat f => Ok f
  end.

Definition py_add (a b : pynum) : res pynum :=
  match a, b with
  | PInt x, PInt y => Ok (PInt (x + y))
  | _, _ => x ← to_float a; y ← to_float b; Ok (PFloat (fadd x y))
  end.

Definition py_mul (a b : pynum) : res pynum :=
  match a, b with
  | PInt x, PInt y => Ok (PInt (x * y))
  | _, _ => x ← to_float a; y ← to_float b; Ok (PFloat (fmul x y))
  end.

(** The exact value of a number: a rational or an infinity; a NaN has none. *)
Inductive xval : Set :=
| NegInf
| Fin (q : Q)
| PosInf.

Definition float_val (f : spec_float) : option xval :=
  match f with
  | S754_zero _ => Some (Fin 0%Q)
  | S754_infinity s => Some (if s then NegInf else PosInf)
  | S754_nan => None
  | S754_finite s m e =>
      Some (Fin (inject_Z (cond_Zopp s (Z.pos m)) * Qpower 2 e)%Q)
  end.

Definition num_val (a : pynum) : option xval :=
  match a with
  | PInt z => Some (Fin (inject_Z z))
  | PFloat f => float_val f
  end.

Definition xcompare (x y : xval) : comparison :=
  match x, y with
  | NegInf, NegInf => Eq
  | NegInf, _ => Lt
  | _, NegInf => Gt
  | PosInf, PosInf => Eq
  | PosInf, _ => Gt
  | _, PosInf => Lt
  | Fin p, Fin q => Qcompare p q
  end.

(** Comparison of two numbers is the comparison of their exact values;
    every comparison with a NaN is false. *)
Definition py_compare (a b : pynum) : option comparison :=
  match num_val a, num_val b with
  | Some x, Some y => Some (xcompare x y)
  | _, _ => None
  end.

Definition py_lt (a b : pynum) : bool :=
  match py_compare a b with Some Lt => true | _ => false end.
Definition py_gt (a b : pynum) : bool :=
  match py_compare a b with Some Gt => true | _ => false end.
Definition py_eq (a b : pynum) : bool :=
  match py_compare a b with Some Eq => true | _ => false end.
Definition py_le (a b : pynum) : bool :=
  match py_compare a b with Some Lt | Some Eq => true | _ => false end.

(** [max(a, b)] keeps [a] unless [b > a]; [min(a, b)] keeps [a] unless [b < a]. *)
Definition py_max (a b : pynum) : pynum := if py_gt b a then b else a.
Definition py_min (a b : pynum) : pynum := if py_lt b a then b else a.

(** [seq[i]] on a list of integers. *)
Definition list_index (l : list Z) (i : Z) : res Z :=
  let j := if i <? 0 then i + Z.of_nat (length l) else i in
  if (0 <=? j) && (j <? Z.of_nat (length l))
  then match nth_error l (Z.to_nat j) with
       | Some c => Ok c
       | None => Raise IndexError
       end
  else Raise IndexError.

(** ** The random source

    One call of [get_ai_move] draws [random.random()] once and calls
    [random.choice] once, on the valid moves or on the best moves.  The
    outcomes of the draws are inputs of the model. *)
Record draws : Set := Draws {
  random_random : spec_float;  (* the value of [random.random()] *)
  skip_pick : nat;             (* the integer drawn by [random.choice(valid_moves)] *)
  tie_pick : nat               (* the integer drawn by [random.choice(best_moves)] *)
}.

(** [random.random()] returns a float [u] with [0.0 <= u < 1.0]. *)
Definition unit_float (u : spec_float) : Prop :=
  ∃ q, float_val u = Some (Fin q) ∧ (0 <= q)%Q ∧ (q < 1)%Q.

(** [random.choice(seq)] is [seq[i]] for the drawn [i] below [len(seq)];
    it raises IndexError on an empty sequence. *)
Definition choice (pick : nat) (seq : list Z) : res Z :=
  match seq with
  | [] => Raise IndexError
  | _ => match nth_error seq (pick mod length seq)%nat with
         | Some x => Ok x
         | None => Raise IndexError
         end
  end.

(** ** The store of game objects *)

Abbreviation loc := nat.
Abbreviation heap := (gmap nat TicTacToeGame.t).

(** A computation reads and updates the store, and returns or raises. *)
Definition M (A : Type) : Type := heap → res (A * heap).

#[global] Instance M_ret : MRet M := λ A a h, Ok (a, h).
#[global] Instance M_bind : MBind M := λ A B f m h,
  match m h with
  | Ok (a, h') => f a h'
  | Raise e => Raise e
  end.

Definition lift {A} (r : res A) : M A := λ h,
  match r with
  | Ok a => Ok (a, h)
  | Raise e => Raise e
  end.

(** The state of the object behind a reference. *)
Definition deref (l : loc) : M TicTacToeGame.t := λ h,
  match h !! l with
  | Some g => Ok (g, h)
  | None => Raise AttributeError
  end.

Definition assign (l : loc) (g : TicTacToeGame.t) : M unit := λ h,
  Ok (tt, <[l := g]> h).

(** [TicTacToeGame(board_state)]: a new object, at a reference that was
    not in use. *)
Definition new_game (board_state : option pystr) : M loc := λ h,
  match TicTacToeGame.__init__ board_state with
  | Ok g => let l := fresh (dom h) in Ok (l, <[l := g]> h)
  | Raise e => Raise e
  end.

(** Method calls on a reference. *)
Definition call_make_move (game : loc) (position : Z) (player : pystr) : M bool :=
  self ← deref game;
  r ← lift (TicTacToeGame.make_move self position player);
  _ ← assign game r.2;
  mret r.1.

Definition call_check_winner (game : loc) : M (bool * option ascii) :=
  self ← deref game; lift (TicTacToeGame.check_winner self).

Definition call_get_valid_moves (game : loc) : M (list Z) :=
  self ← deref game; mret (TicTacToeGame.get_valid_moves self).

Definition call_get_board_state (game : loc) : M pystr :=
  self ← deref game; mret (TicTacToeGame.get_board_state self).

Definition option_ascii_eqb (w : option ascii) (c : ascii) : bool :=
  match w with
  | Some x => Ascii.eqb x c
  | None => false
  end.

(** ** class MinimaxAI *)

Module MinimaxAI.

(** Position weights for strategic moves (center, corners, edges). *)
Definition POSITION_WEIGHTS : list Z :=
  [3; 2; 3;
   2; 4; 2;
   3; 2; 3].

Record t : Set := Build {
  difficulty : pystr;
  max_depth : Z;
  randomization : spec_float;
  use_position_weights : bool
}.

(** [str.lower()] on the letters A to Z. *)
Definition lower_char (c : ascii) : ascii :=
  let n := N_of_ascii c in
  if ((65 <=? n) && (n <=? 90))%N then ascii_of_N (n + 32) else c.
Definition lower (s : pystr) : pystr := map lower_char s.

Definition __init__ (difficulty : pystr) : res t :=
  let d := lower difficulty in
  if negb (pystr_eqb d (str "easy") || pystr_eqb d (str "medium") || pystr_eqb d (str "hard"))
  then Raise ValueError
  else if pystr_eqb d (str "easy") then Ok (Build d 2 f_0_4 false)
  else if pystr_eqb d (str "medium") then Ok (Build d 4 f_0_2 true)
  else Ok (Build d 9 f_0_0 true).

(** The score of one winning combination in [_evaluate_position]. *)
Definition score_line (board : pystr) (combo : Z * Z * Z) (score : spec_float) : res spec_float :=
  let '(c0, c1, c2) := combo in
  x0 ← str_index board c0;
  x1 ← str_index board c1;
  x2 ← str_index board c2;
  let line := [x0; x1; x2] in
  let ai_count := count_occ ascii_dec line TicTacToeGame.PLAYER_O in
  let human_count := count_occ ascii_dec line TicTacToeGame.PLAYER_X in
  let empty_count := count_occ ascii_dec line TicTacToeGame.EMPTY in
  if (ai_count =? 2)%nat && (empty_count =? 1)%nat then Ok (fadd score f_5_0)
  else if (human_count =? 2)%nat && (empty_count =? 1)%nat then Ok (fsub score f_4_0)
  else if (ai_count =? 1)%nat && (empty_count =? 2)%nat then Ok (fadd score f_1_0)
  else if (human_count =? 1)%nat && (empty_count =? 2)%nat then Ok (fsub score f_1_0)
  else Ok score.

Fixpoint score_lines (board : pystr) (combos : list (Z * Z * Z)) (score : spec_float)
  : res spec_float :=
  match combos with
  | [] => Ok score
  | combo :: rest => score' ← score_line board combo score; score_lines board rest score'
  end.

(** The loop [for pos, weight in enumerate(self.POSITION_WEIGHTS)], from [pos]. *)
Fixpoint score_weights (board : pystr) (pos : Z) (weights : list Z) (score : spec_float)
  : res spec_float :=
  match weights with
  | [] => Ok score
  | weight :: rest =>
      c ← str_index board pos;
      score' ← (if Ascii.eqb c TicTacToeGame.PLAYER_O
                then w ← float_of_int weight; Ok (fadd score (fmul f_0_3 w))
                else if Ascii.eqb c TicTacToeGame.PLAYER_X
                then w ← float_of_int weight; Ok (fsub score (fmul f_0_3 w))
                else Ok score);
      score_weights board (pos + 1) rest score'
  end.

Definition _evaluate_position (self : t) (game : TicTacToeGame.t) : res pynum :=
  let board := TicTacToeGame.get_board_state game in
  score ← score_lines board TicTacToeGame.WINNING_COMBINATIONS f_0_0;
  score ← (if use_position_weights self
           then score_weights board 0 POSITION_WEIGHTS score
           else Ok score);
  Ok (PFloat score).

(** The two loops of [_minimax] over the valid moves.  [child] is the
    recursive call on the copy, [cutoff] tells whether the test
    [beta <= alpha] is made. *)
Fixpoint max_loop (cutoff : bool) (child : loc → pynum → pynum → M pynum)
    (game : loc) (moves : list Z) (max_score alpha beta : pynum) : M pynum :=
  match moves with
  | [] => mret max_score
  | move :: rest =>
      board ← call_get_board_state game;
      game_copy ← new_game (Some board);
      _ ← call_make_move game_copy move [TicTacToeGame.PLAYER_O];
      score ← child game_copy alpha beta;
      let max_score := py_max max_score score in
      let alpha := py_max alpha score in
      if cutoff && py_le beta alpha then mret max_score
      else max_loop cutoff child game rest max_score alpha beta
  end.

Fixpoint min_loop (cutoff : bool) (child : loc → pynum → pynum → M pynum)
    (game : loc) (moves : list Z) (min_score alpha beta : pynum) : M pynum :=
  match moves with
  | [] => mret min_score
  | move :: rest =>
      board ← call_get_board_state game;
      game_copy ← new_game (Some board);
      _ ← call_make_move game_copy move [TicTacToeGame.PLAYER_X];
      score ← child game_copy alpha beta;
      let min_score := py_min min_score score in
      let beta := py_min beta score in
      if cutoff && py_le beta alpha then mret min_score
      else min_loop cutoff child game rest min_score alpha beta
  end.

(** The recursion of [_minimax].  [fuel] bounds the depth of nested
    calls.  With [cutoff = true] this is the source; with
    [cutoff = false] it is the same recursion without the two
    [if beta <= alpha: break]. *)
Fixpoint minimax_with (cutoff : bool) (fuel : nat) (self : t) (game : loc) (depth : Z)
    (alpha beta : pynum) (is_maximizing : bool) : M pynum :=
  match fuel with
  | O => λ _, Raise RecursionError
  | S fuel' =>
      r ← call_check_winner game;
      let '(game_over, winner) := r in
      if (game_over : bool) then
        if option_ascii_eqb winner TicTacToeGame.PLAYER_O then mret (PInt (100 + depth))
        else if option_ascii_eqb winner TicTacToeGame.PLAYER_X then mret (PInt (-100 - depth))
        else mret (PInt 0)
      else if depth =? 0 then
        g ← deref game; lift (_evaluate_position self g)
      else
        valid_moves ← call_get_valid_moves game;
        if is_maximizing then
          max_loop cutoff (λ game_copy alpha beta,
              minimax_with cutoff fuel' self game_copy (depth - 1) alpha beta false)
            game valid_moves (PFloat f_neg_inf) alpha beta
        else
          min_loop cutoff (λ game_copy alpha beta,
              minimax_with cutoff fuel' self game_copy (depth - 1) alpha beta true)
            game valid_moves (PFloat f_inf) alpha beta
  end.

Definition _minimax : nat → t → loc → Z → pynum → pynum → bool → M pynum :=
  minimax_with true.

(** [_minimax] with the cut-off removed. *)
Definition minimax_without_cutoff : nat → t → loc → Z → pynum → pynum → bool → M pynum :=
  minimax_with false.

(** The loop of [get_ai_move] over the valid moves; its state is
    [(best_score, best_moves)]. *)
Fixpoint best_loop (fuel : nat) (self : t) (game : loc) (moves : list Z)
    (best_score : pynum) (best_moves : list Z) : M (pynum * list Z) :=
  match moves with
  | [] => mret (best_score, best_moves)
  | move :: rest =>
      board ← call_get_board_state game;
      game_copy ← new_game (Some board);
      _ ← call_make_move game_copy move [TicTacToeGame.PLAYER_O];
      score ← _minimax fuel self game_copy (max_depth self)
                (PFloat f_neg_inf) (PFloat f_inf) false;
      score ← (if use_position_weights self
               then w ← lift (list_index POSITION_WEIGHTS move);
                    x ← lift (py_mul (PInt w) (PFloat f_0_1));
                    lift (py_add score x)
               else mret score);
      if py_gt score best_score then best_loop fuel self game rest score [move]
      else if py_eq score best_score
      then best_loop fuel self game rest best_score (best_moves ++ [move])
      else best_loop fuel self game rest best_score best_moves
  end.

Definition get_ai_move (fuel : nat) (self : t) (rnd : draws) (game : loc) : M (option Z) :=
  valid_moves ← call_get_valid_moves game;
  match valid_moves with
  | [] => mret None
  | _ =>
      if py_lt (PFloat (random_random rnd)) (PFloat (randomization self))
      then m ← lift (choice (skip_pick rnd) valid_moves); mret (Some m)
      else
        best ← best_loop fuel self game valid_moves (PFloat f_neg_inf) [];
        m ← lift (choice (tie_pick rnd) best.2); mret (Some m)
  end.

End MinimaxAI.

(** ** models/game.py: class DifficultyLevel(str, Enum) *)

Module DifficultyLevel.

Inductive t : Set := EASY | MEDIUM | HARD.

Definition value (d : t) : pystr :=
  match d with
  | EASY => str "easy"
  | MEDIUM => str "medium"
  | HARD => str "hard"
  end.

(** The members in the order of their definition: what iterating over
    the class yields. *)
Definition members : list t := [EASY; MEDIUM; HARD].

(** [DifficultyLevel(v)]: the member of value [v], ValueError when there
    is none. *)
Definition by_value (v : pystr) : res t :=
  match List.find (λ d, pystr_eqb (value d) v) members with
  | Some d => Ok d
  | None => Raise ValueError
  end.

End DifficultyLevel.

(** ** routes/main.py: validation of the difficulty *)

(** [", ".join(l)] *)
Fixpoint join_comma (l : list pystr) : pystr :=
  match l with
  | [] => []
  | [s] => s
  | s :: rest => s ++ str ", " ++ join_comma rest
  end.

(** The text of a list of strings in an f-string: each string between
    single quotes (the strings here hold no quote, backslash or
    non-printable character). *)
Definition list_text (l : list pystr) : pystr :=
  str "[" ++ join_comma (map (λ s, str "'" ++ s ++ str "'") l) ++ str "]".

Definition validate_difficulty (difficulty : pystr) : res (bool * pystr) :=
  match DifficultyLevel.by_value (MinimaxAI.lower difficulty) with
  | Ok _ => Ok (true, [])
  | Raise ValueError =>
      Ok (false,
          str "Invalid difficulty level. Must be one of: "
          ++ list_text (map DifficultyLevel.value DifficultyLevel.members))
  | Raise e => Raise e
  end.

(** ** Functional model of the search

    The search as a function of the board alone: what the methods above
    compute on a well-formed board, without the store and without
    exceptions.  [run] lemmas below relate the two. *)

(** The class invariant of [TicTacToeGame]: nine cells, each a cell value. *)
Definition wf_board (b : pystr) : Prop :=
  length b = 9%nat ∧ forallb TicTacToeGame.is_cell b = true.

Definition empty_board : pystr := repeat TicTacToeGame.EMPTY 9.

(** The board after [player] has been written at [move]. *)
Definition place (b : pystr) (move : Z) (player : ascii) : pystr :=
  slice_to b move ++ [player] ++ slice_from b (move + 1).

Definition outcome (b : pystr) : bool * option ascii :=
  match TicTacToeGame.check_winner (TicTacToeGame.Build b) with
  | Ok r => r
  | Raise _ => (false, None)
  end.

Definition moves (b : pystr) : list Z :=
  TicTacToeGame.get_valid_moves (TicTacToeGame.Build b).

(** Number of empty cells: the number of plies left on the board. *)
Definition empties (b : pystr) : nat := count_occ ascii_dec b TicTacToeGame.EMPTY.

Definition static_eval (ai : MinimaxAI.t) (b : pystr) : pynum :=
  match MinimaxAI._evaluate_position ai (TicTacToeGame.Build b) with
  | Ok v => v
  | Raise _ => PInt 0
  end.

Definition terminal_score (winner : option ascii) (depth : Z) : pynum :=
  if option_ascii_eqb winner TicTacToeGame.PLAYER_O then PInt (100 + depth)
  else if option_ascii_eqb winner TicTacToeGame.PLAYER_X then PInt (-100 - depth)
  else PInt 0.

Fixpoint max_fold (cutoff : bool) (child : pystr → pynum → pynum → pynum)
    (b : pystr) (ms : list Z) (max_score alpha beta : pynum) : pynum :=
  match ms with
  | [] => max_score
  | move :: rest =>
      let score := child (place b move TicTacToeGame.PLAYER_O) alpha beta in
      let max_score := py_max max_score score in
      let alpha := py_max alpha score in
      if cutoff && py_le beta alpha then max_score
      else max_fold cutoff child b rest max_score alpha beta
  end.

Fixpoint min_fold (cutoff : bool) (child : pystr → pynum → pynum → pynum)
    (b : pystr) (ms : list Z) (min_score alpha beta : pynum) : pynum :=
  match ms with
  | [] => min_score
  | move :: rest =>
      let score := child (place b move TicTacToeGame.PLAYER_X) alpha beta in
      let min_score := py_min min_score score in
      let beta := py_min beta score in
      if cutoff && py_le beta alpha then min_score
      else min_fold cutoff child b rest min_score alpha beta
  end.

Fixpoint search (cutoff : bool) (fuel : nat) (ai : MinimaxAI.t) (b : pystr) (depth : Z)
    (alpha beta : pynum) (is_maximizing : bool) : pynum :=
  match fuel with
  | O => PInt 0
  | S fuel' =>
      let '(game_over, winner) := outcome b in
      if (game_over : bool) then terminal_score winner depth
      else if depth =? 0 then static_eval ai b
      else if is_maximizing then
        max_fold cutoff (λ c alpha beta, search cutoff fuel' ai c (depth - 1) alpha beta false)
          b (moves b) (PFloat f_neg_inf) alpha beta
      else
        min_fold cutoff (λ c alpha beta, search cutoff fuel' ai c (depth - 1) alpha beta true)
          b (moves b) (PFloat f_inf) alpha beta
  end.

(** The score of a candidate move in [get_ai_move], with its position weight. *)
Definition weighted (ai : MinimaxAI.t) (score : pynum) (move : Z) : res pynum :=
  if MinimaxAI.use_position_weights ai
  then w ← list_index MinimaxAI.POSITION_WEIGHTS move;
       x ← py_mul (PInt w) (PFloat f_0_1);
       py_add score x
  else Ok score.

Definition candidate_score (fuel : nat) (ai : MinimaxAI.t) (b : pystr) (move : Z) : res pynum :=
  weighted ai
    (search true fuel ai (place b move TicTacToeGame.PLAYER_O) (MinimaxAI.max_depth ai)
       (PFloat f_neg_inf) (PFloat f_inf) false)
    move.

Fixpoint best_fold (fuel : nat) (ai : MinimaxAI.t) (b : pystr) (ms : list Z)
    (best_score : pynum) (best_moves : list Z) : res (pynum * list Z) :=
  match ms with
  | [] => Ok (best_score, best_moves)
  | move :: rest =>
      score ← candidate_score fuel ai b move;
      if py_gt score best_score then best_fold fuel ai b rest score [move]
      else if py_eq score best_score
      then best_fold fuel ai b rest best_score (best_moves ++ [move])
      else best_fold fuel ai b rest best_score best_moves
  end.

Definition select_move (fuel : nat) (ai : MinimaxAI.t) (rnd : draws) (b : pystr) : res (option Z) :=
  match moves b with
  | [] => Ok None
  | ms =>
      if py_lt (PFloat (random_random rnd)) (PFloat (MinimaxAI.randomization ai))
      then m ← choice (skip_pick rnd) ms; Ok (Some m)
      else
        best ← best_fold fuel ai b ms (PFloat f_neg_inf) [];
        m ← choice (tie_pick rnd) best.2; Ok (Some m)
  end.

(** ** The words of the specification *)

(** A winning line is fully occupied by [p]. *)
Definition line_full (b : pystr) (combo : Z * Z * Z) (p : ascii) : Prop :=
  nth_error b (Z.to_nat combo.1.1) = Some p ∧
  nth_error b (Z.to_nat combo.1.2) = Some p ∧
  nth_error b (Z.to_nat combo.2) = Some p.

Definition player_cell (p : ascii) : Prop :=
  p = TicTacToeGame.PLAYER_X ∨ p = TicTacToeGame.PLAYER_O.

(** Some player fully occupies the line. *)
Definition line_won (b : pystr) (combo : Z * Z * Z) : Prop :=
  ∃ p, player_cell p ∧ line_full b combo p.

(** A move is valid: the position is in range, the player is one of the
    two players, the target cell is empty. *)
Definition valid_move (b : pystr) (position : Z) (player : pystr) : Prop :=
  0 ≤ position ≤ 8 ∧
  (player = [TicTacToeGame.PLAYER_X] ∨ player = [TicTacToeGame.PLAYER_O]) ∧
  nth_error b (Z.to_nat position) = Some TicTacToeGame.EMPTY.

(** *** The static evaluation

    The sum, accumulated from [0.0], of one term for each winning line
    and then, when the position weights are used, one term for each
    occupied cell. *)

(** The float of an integer. *)
Definition Z2F (z : Z) : spec_float := binary_normalize 53 1024 z 0 false.

(** The content of cell [i]. *)
Definition cell (b : pystr) (i : Z) : ascii := nth (Z.to_nat i) b TicTacToeGame.EMPTY.

Definition line_cells (b : pystr) (combo : Z * Z * Z) : list ascii :=
  [cell b combo.1.1; cell b combo.1.2; cell b combo.2].

(** The line holds exactly [n] cells of value [c]. *)
Definition holds (cells : list ascii) (n : nat) (c : ascii) : bool :=
  (count_occ ascii_dec cells c =? n)%nat.

(** The term of one winning line. *)
Definition line_value (b : pystr) (combo : Z * Z * Z) : spec_float :=
  let cells := line_cells b combo in
  if holds cells 2 TicTacToeGame.PLAYER_O && holds cells 1 TicTacToeGame.EMPTY then f_5_0
  else if holds cells 2 TicTacToeGame.PLAYER_X && holds cells 1 TicTacToeGame.EMPTY
       then SFopp f_4_0
  else if holds cells 1 TicTacToeGame.PLAYER_O && holds cells 2 TicTacToeGame.EMPTY then f_1_0
  else if holds cells 1 TicTacToeGame.PLAYER_X && holds cells 2 TicTacToeGame.EMPTY
       then SFopp f_1_0
  else f_0_0.

(** The weight table: corners 3, edges 2, center 4. *)
Definition position_weight (p : Z) : Z :=
  if (p =? 0) || (p =? 2) || (p =? 6) || (p =? 8) then 3
  else if p =? 4 then 4
  else 2.

Definition positions : list Z := [0; 1; 2; 3; 4; 5; 6; 7; 8].

(** The term of cell [p] holding [c]: nothing for an empty cell. *)
Definition cell_value (pc : Z * ascii) : list spec_float :=
  let '(p, c) := pc in
  if Ascii.eqb c TicTacToeGame.PLAYER_O then [fmul f_0_3 (Z2F (position_weight p))]
  else if Ascii.eqb c TicTacToeGame.PLAYER_X then [fmul (SFopp f_0_3) (Z2F (position_weight p))]
  else [].

(** The sum of a list of floats, accumulated from [0.0] in list order. *)
Definition fsum (terms : list spec_float) : spec_float := fold_left fadd terms f_0_0.

Definition static_evaluation (use_position_weights : bool) (b : pystr) : spec_float :=
  fsum (map (line_value b) TicTacToeGame.WINNING_COMBINATIONS
        ++ (if use_position_weights then flat_map cell_value (combine positions b) else [])).

(** *** Play *)

Definition opponent (p : ascii) : ascii :=
  if Ascii.eqb p TicTacToeGame.PLAYER_X then TicTacToeGame.PLAYER_O
  else TicTacToeGame.PLAYER_X.

(** One legal move of [p] on a board where the game is not over. *)
Definition legal_move (b : pystr) (p : ascii) (b' : pystr) : Prop :=
  TicTacToeGame.check_winner (TicTacToeGame.Build b) = Ok (false, None)
  ∧ ∃ m, TicTacToeGame.make_move (TicTacToeGame.Build b) m [p]
         = Ok (true, TicTacToeGame.Build b').

(** Boards of legal alternating play from the empty board, X moving
    first, with the player whose turn it is. *)
Inductive legal_play : pystr → ascii → Prop :=
| legal_start : legal_play empty_board TicTacToeGame.PLAYER_X
| legal_next b p b' : legal_play b p → legal_move b p b' → legal_play b' (opponent p).

(** The game on [b] is not over and X has a move that wins at once. *)
Definition x_wins_at_once (b : pystr) : Prop :=
  ∃ b', legal_move b TicTacToeGame.PLAYER_X b'
        ∧ TicTacToeGame.check_winner (TicTacToeGame.Build b')
          = Ok (true, Some TicTacToeGame.PLAYER_X).

(** [forces_win p b t]: on the board [b], where it is the turn of [t],
    the player [p] wins the game whatever the opponent plays. *)
Inductive forces_win (p : ascii) : pystr → ascii → Prop :=
| forces_won b t :
    TicTacToeGame.check_winner (TicTacToeGame.Build b) = Ok (true, Some p) →
    forces_win p b t
| forces_move b b' :
    legal_move b p b' → forces_win p b' (opponent p) → forces_win p b p
| forces_reply b :
    TicTacToeGame.check_winner (TicTacToeGame.Build b) = Ok (false, None) →
    (∀ b', legal_move b (opponent p) b' → forces_win p b' p) →
    forces_win p b (opponent p).

(** The AI of difficulty "hard". *)
Definition hard : MinimaxAI.t := MinimaxAI.Build (str "hard") 9 f_0_0 true.

(** A move that [get_ai_move] can return at difficulty "hard" on [b]:
    for some outcome of the random draws, in some store. *)
Definition ai_move (b : pystr) (m : Z) : Prop :=
  ∃ (fuel : nat) (rnd : draws) (game : loc) (h h' : heap),
    (9 < fuel)%nat ∧ unit_float (random_random rnd)
    ∧ h !! game = Some (TicTacToeGame.Build b)
    ∧ MinimaxAI.get_ai_move fuel hard rnd game h = Ok (Some m, h').

(** Boards of the games that X, moving first and as it likes, plays
    against the AI. *)
Inductive ai_play : pystr → ascii → Prop :=
| ai_start : ai_play empty_board TicTacToeGame.PLAYER_X
| ai_human b b' :
    ai_play b TicTacToeGame.PLAYER_X → legal_move b TicTacToeGame.PLAYER_X b' →
    ai_play b' TicTacToeGame.PLAYER_O
| ai_reply b m b' :
    ai_play b TicTacToeGame.PLAYER_O →
    TicTacToeGame.check_winner (TicTacToeGame.Build b) = Ok (false, None) →
    ai_move b m →
    TicTacToeGame.make_move (TicTacToeGame.Build b) m [TicTacToeGame.PLAYER_O]
    = Ok (true, TicTacToeGame.Build b') →
    ai_play b' TicTacToeGame.PLAYER_X.

(** ** Notions of the proofs *)

Definition combo_ok (combo : Z * Z * Z) : Prop :=
  0 ≤ combo.1.1 ≤ 8 ∧ 0 ≤ combo.1.2 ≤ 8 ∧ 0 ≤ combo.2 ≤ 8.

(** [m] started in [h] returns [v], and every object of [h0] is unchanged
    in the final store. *)
Definition runs {A} (h0 : heap) (m : M A) (h : heap) (v : A) : Prop :=
  ∃ h', m h = Ok (v, h') ∧ h0 ⊆ h'.

(** *** Exact values and their order *)

Definition xeq (x y : xval) : Prop := xcompare x y = Eq.
Definition xlt (x y : xval) : Prop := xcompare x y = Lt.
Definition xle (x y : xval) : Prop := xcompare x y ≠ Gt.

(** Not a NaN. *)
Definition number (v : pynum) : Prop := num_val v ≠ None.

(** The exact value of a number (anything for a NaN). *)
Definition rank (v : pynum) : xval := default PosInf (num_val v).

Notation "a ≺ b" := (xlt (rank a) (rank b)) (at level 70).
Notation "a ≼ b" := (xle (rank a) (rank b)) (at level 70).
Notation "a ≈ b" := (xeq (rank a) (rank b)) (at level 70).

(** A number with a finite value. *)
Definition finite (v : pynum) : Prop := ∃ q, num_val v = Some (Fin q).

Definition finiteb (v : pynum) : bool :=
  match v with
  | PInt _ | PFloat (S754_zero _) | PFloat (S754_finite _ _ _) => true
  | _ => false
  end.

(** A float in canonical form other than [-0.0]. *)
Definition canonical (f : spec_float) : bool :=
  valid_binary 53 1024 f
  && match f with S754_zero s => negb s | _ => true end.

(** A static evaluation: a canonical float of magnitude below [2 ^ 6],
    so strictly between the scores of a lost and of a won game. *)
Definition tame (f : spec_float) : bool :=
  canonical f
  && match f with
     | S754_zero _ => true
     | S754_finite _ m e => Z.pos (digits2_pos m) + e <=? 6
     | _ => false
     end.

(** The value [v] of the search with cut-offs in the window
    [(alpha, beta)] against the value [t] of the search without them:
    [v] is [t] when it falls inside the window, an upper bound of [t]
    when it falls below, a lower bound when it falls above. *)
Definition bounds (v t alpha beta : pynum) : Prop :=
  number v ∧ number t
  ∧ (v ≼ alpha → t ≼ v)
  ∧ (alpha ≺ v → v ≺ beta → v ≈ t)
  ∧ (beta ≼ v → v ≼ t).

(** *** The scores that the search returns *)

(** A value of the search is a terminal score within [bound], or the
    static evaluation of some board. *)
Definition leaf (ai : MinimaxAI.t) (bound : Z) (v : pynum) : Prop :=
  (∃ z, v = PInt z ∧ - bound ≤ z ≤ bound)
  ∨ (∃ b', wf_board b' ∧ v = static_eval ai b').

(** The search stops at the depth limit before the board is full. *)
Definition within_horizon (b : pystr) (depth : Z) : bool :=
  (0 <=? depth) && (depth <? Z.of_nat (empties b)).

(** The scores of one search: when the depth limit cuts the search, the
    score of a won or lost game or a static evaluation; otherwise the
    integer score of a finished game. *)
Definition score_kind (ai : MinimaxAI.t) (cut : bool) (v : pynum) : Prop :=
  (∃ z, v = PInt z ∧ (cut = true → 100 ≤ Z.abs z))
  ∨ (cut = true ∧ ∃ b', wf_board b' ∧ v = static_eval ai b').

(** *** Enumerations

    The boards of nine cells and the integers of a range, with the
    checks that are settled on each of them by computation. *)

Fixpoint boards_of_length (n : nat) : list pystr :=
  match n with
  | O => [[]]
  | S n' =>
      flat_map (λ b, [TicTacToeGame.EMPTY :: b; TicTacToeGame.PLAYER_X :: b;
                      TicTacToeGame.PLAYER_O :: b])
        (boards_of_length n')
  end.

Definition all_boards : list pystr := boards_of_length 9.

(** The one attribute that [_evaluate_position] reads. *)
Definition weights_only (w : bool) : MinimaxAI.t := MinimaxAI.Build [] 0 f_0_0 w.

Definition Z_range (lo : Z) (n : nat) : list Z := map (λ k, lo + Z.of_nat k) (seq 0 n).

#[global] Instance spec_float_eq_dec : EqDecision spec_float.
Proof. solve_decision. Defined.

(** The integer that a line adds to the score. *)
Definition line_delta (b : pystr) (combo : Z * Z * Z) : Z :=
  let cells := line_cells b combo in
  if holds cells 2 TicTacToeGame.PLAYER_O && holds cells 1 TicTacToeGame.EMPTY then 5
  else if holds cells 2 TicTacToeGame.PLAYER_X && holds cells 1 TicTacToeGame.EMPTY then -4
  else if holds cells 1 TicTacToeGame.PLAYER_O && holds cells 2 TicTacToeGame.EMPTY then 1
  else if holds cells 1 TicTacToeGame.PLAYER_X && holds cells 2 TicTacToeGame.EMPTY then -1
  else 0.

Definition lines_total (b : pystr) (combos : list (Z * Z * Z)) (z : Z) : Z :=
  fold_left (λ z combo, z + line_delta b combo) combos z.

(** On the integers that the line scores can reach, the float operations
    of the evaluation are exact. *)
Definition line_ops_exact (z : Z) : bool :=
  bool_decide (fadd (Z2F z) f_5_0 = Z2F (z + 5))
  && bool_decide (fsub (Z2F z) f_4_0 = Z2F (z - 4))
  && bool_decide (fadd (Z2F z) f_1_0 = Z2F (z + 1))
  && bool_decide (fsub (Z2F z) f_1_0 = Z2F (z - 1))
  && bool_decide (fadd (Z2F z) (SFopp f_4_0) = Z2F (z - 4))
  && bool_decide (fadd (Z2F z) (SFopp f_1_0) = Z2F (z - 1))
  && bool_decide (fadd (Z2F z) f_0_0 = Z2F z).

(** The terms of the position weights, computed once. *)
Definition weight_terms_2 : spec_float * spec_float :=
  Eval vm_compute in (fmul f_0_3 (Z2F 2), fmul (SFopp f_0_3) (Z2F 2)).
Definition weight_terms_3 : spec_float * spec_float :=
  Eval vm_compute in (fmul f_0_3 (Z2F 3), fmul (SFopp f_0_3) (Z2F 3)).
Definition weight_terms_4 : spec_float * spec_float :=
  Eval vm_compute in (fmul f_0_3 (Z2F 4), fmul (SFopp f_0_3) (Z2F 4)).

Definition weight_terms (w : Z) : spec_float * spec_float :=
  if w =? 3 then weight_terms_3 else if w =? 4 then weight_terms_4 else weight_terms_2.

Definition fast_cell_value (pc : Z * ascii) : list spec_float :=
  let '(p, c) := pc in
  if Ascii.eqb c TicTacToeGame.PLAYER_O then [(weight_terms (position_weight p)).1]
  else if Ascii.eqb c TicTacToeGame.PLAYER_X then [(weight_terms (position_weight p)).2]
  else [].

Definition fast_eval (use_position_weights : bool) (b : pystr) : spec_float :=
  fold_left fadd
    (if use_position_weights then flat_map fast_cell_value (combine positions b) else [])
    (Z2F (lines_total b TicTacToeGame.WINNING_COMBINATIONS 0)).

(** What [get_ai_move] adds to the score of a move on a cell of weight [w]. *)
Definition bonus (w : Z) : spec_float := fmul (Z2F w) f_0_1.

Definition bonuses : list spec_float :=
  Eval vm_compute in [bonus 2; bonus 3; bonus 4].

Definition board_scores_tame (b : pystr) : bool :=
  tame (fast_eval false b)
  && (let f := fast_eval true b in
      tame f && forallb (λ k, finiteb (PFloat (fadd f k))) bonuses).

Definition int_scores_finite (z : Z) : bool :=
  match float_of_int z with Ok f => bool_decide (f = Z2F z) | Raise _ => false end
  && forallb (λ k, finiteb (PFloat (fadd (Z2F z) k))) bonuses.

(** *** Exploration of the games

    Breadth-first, ply by ply, with the boards of a level kept once. *)

(** A key for a board: two bits for each cell. *)
Fixpoint board_key (b : pystr) (acc : positive) : positive :=
  match b with
  | [] => acc
  | c :: b' =>
      board_key b'
        (if Ascii.eqb c TicTacToeGame.PLAYER_X then acc~0~1
         else if Ascii.eqb c TicTacToeGame.PLAYER_O then acc~1~0
         else acc~0~0)%positive
  end.

(** The boards of [l] that are not recorded in [seen], each once. *)
Fixpoint dedup_from (l : list pystr) (seen : Pmap pystr) : list pystr :=
  match l with
  | [] => []
  | x :: l' =>
      match seen !! board_key x 1%positive with
      | Some y =>
          if pystr_eqb x y then dedup_from l' seen else x :: dedup_from l' seen
      | None => x :: dedup_from l' (<[board_key x 1%positive := x]> seen)
      end
  end.

Definition dedup (l : list pystr) : list pystr := dedup_from l ∅.

(** Breadth-first exploration, [n] plies deep, of the boards that
    [next] produces from the boards of [level], checking [ok] on each:
    the boards after the last ply must have no successor. *)
Fixpoint explore (next : pystr → ascii → list pystr) (ok : pystr → ascii → bool)
    (n : nat) (level : list pystr) (p : ascii) : bool :=
  match n with
  | O => match level with [] => true | _ => false end
  | S n' =>
      forallb (λ b, ok b p) level
      && explore next ok n' (dedup (flat_map (λ b, next b p) level)) (opponent p)
  end.

Definition wf_boardb (b : pystr) : bool :=
  (length b =? 9)%nat && forallb TicTacToeGame.is_cell b.

Definition outcome_eqb (r : bool * option ascii) (over : bool) (w : option ascii) : bool :=
  Bool.eqb r.1 over
  && match r.2, w with
     | Some x, Some y => Ascii.eqb x y
     | None, None => true
     | _, _ => false
     end.

(** Every legal move on a board where the game is not over. *)
Definition all_moves (b : pystr) (p : ascii) : list pystr :=
  if (outcome b).1 then [] else map (λ m, place b m p) (moves b).

Definition x_wins_at_onceb (b : pystr) : bool :=
  existsb (λ b', outcome_eqb (outcome b') true (Some TicTacToeGame.PLAYER_X))
    (all_moves b TicTacToeGame.PLAYER_X).

(** The best moves of [get_ai_move] at difficulty "hard". *)
Definition best_moves (b : pystr) : list Z :=
  match best_fold 10 hard b (moves b) (PFloat f_neg_inf) [] with
  | Ok r => r.2
  | Raise _ => []
  end.

(** No best move lets X win at once, unless every move does. *)
Definition avoids_loss (b : pystr) : bool :=
  if existsb (λ b1, negb (x_wins_at_onceb b1)) (all_moves b TicTacToeGame.PLAYER_O)
  then forallb (λ m, negb (x_wins_at_onceb (place b m TicTacToeGame.PLAYER_O)))
         (best_moves b)
  else true.

Definition legal_ok (b : pystr) (p : ascii) : bool :=
  wf_boardb b
  && (Ascii.eqb p TicTacToeGame.PLAYER_X || Ascii.eqb p TicTacToeGame.PLAYER_O)
  && (if Ascii.eqb p TicTacToeGame.PLAYER_X then true else avoids_loss b).

(** The boards that [step] reaches from the boards of [l], where it is
    the turn of [p]. *)
Inductive reaches (step : pystr → ascii → pystr → Prop) (l : list pystr) (p : ascii)
  : pystr → ascii → Prop :=
| reaches_here b : In b l → reaches step l p b p
| reaches_step b q b' :
    reaches step l p b q → step b q b' → reaches step l p b' (opponent q).

(** ** Notions of the further properties *)

(** The states of a game object after any number of calls of
    [make_move], whatever their arguments and results. *)
Inductive after_calls (g0 : TicTacToeGame.t) : TicTacToeGame.t → Prop :=
| after_none : after_calls g0 g0
| after_call g position player ok g' :
    after_calls g0 g →
    TicTacToeGame.make_move g position player = Ok (ok, g') →
    after_calls g0 g'.

(** [position] is one of the three cells of [combo]. *)
Definition on_line (combo : Z * Z * Z) (position : Z) : Prop :=
  combo.1.1 = position ∨ combo.1.2 = position ∨ combo.2 = position.

(** The score that the loop of [get_ai_move] computes for [move]: the
    value of [_minimax] on a copy of the game where O has made the move,
    with the position weight of the move added when the weights are
    used. *)
Definition move_score (fuel : nat) (ai : MinimaxAI.t) (b : pystr) (move : Z) (s : pynum)
  : Prop :=
  ∃ g' v,
    TicTacToeGame.make_move (TicTacToeGame.Build b) move [TicTacToeGame.PLAYER_O]
    = Ok (true, g')
    ∧ (∀ (h : heap) (game_copy : loc), h !! game_copy = Some g' →
         ∃ h', MinimaxAI._minimax fuel ai game_copy (MinimaxAI.max_depth ai)
                 (PFloat f_neg_inf) (PFloat f_inf) false h = Ok (v, h'))
    ∧ weighted ai v move = Ok s.

(** The state of the loop of [get_ai_move] after the moves of [seen]:
    [best_moves] holds the moves of [seen] whose score is [best_score],
    and no move of [seen] has a higher score. *)
Definition best_so_far (score : Z → res pynum) (seen : list Z) (best_score : pynum)
    (best_moves : list Z) : Prop :=
  (∀ x, In x best_moves → In x seen ∧ ∃ s, score x = Ok s ∧ s ≈ best_score)
  ∧ (∀ x s, In x seen → score x = Ok s → s ≼ best_score ∧ (s ≈ best_score → In x best_moves)).

(** The player to move in a call of [_minimax]. *)
Definition turn (is_maximizing : bool) : ascii :=
  if is_maximizing then TicTacToeGame.PLAYER_O else TicTacToeGame.PLAYER_X.

(** With the position weight added, an integer score stays strictly
    between itself and the next integer. *)
Definition int_bonus_between (z : Z) : bool :=
  forallb (λ k, py_lt (PInt z) (PFloat (fadd (Z2F z) k))
                && py_lt (PFloat (fadd (Z2F z) k)) (PInt (z + 1))) bonuses.

(** With the position weight added, a static evaluation stays small. *)
Definition board_bonus_tame (b : pystr) : bool :=
  forallb (λ k, tame (fadd (fast_eval true b) k)) bonuses.

(** * Properties *)

(** ** Strings and boards *)

Lemma pystr_eqb_eq (a b : pystr) : pystr_eqb a b = true ↔ a = b.
Proof.
  revert b; induction a as [|x a IH]; intros [|y b]; simpl; try (split; congruence).
  rewrite andb_true_iff, Ascii.eqb_eq, IH. split; [intros [-> ->]; done | intros [= -> ->]; done].
Qed.

Lemma str_index_nonneg (s : pystr) (i : Z) :
  0 ≤ i →
  str_index s i = match nth_error s (Z.to_nat i) with
                  | Some c => Ok c
                  | None => Raise IndexError
                  end.
Proof.
  intros Hi. unfold str_index, len.
  destruct (Z.ltb_spec i 0); [lia|].
  destruct (Z.leb_spec 0 i); [|lia]. simpl.
  destruct (Z.ltb_spec i (Z.of_nat (length s))); [done|].
  destruct (nth_error s (Z.to_nat i)) eqn:E; [|done].
  assert (nth_error s (Z.to_nat i) ≠ None) as Hn by congruence.
  apply nth_error_Some in Hn. lia.
Qed.

Lemma is_cell_spec (c : ascii) :
  TicTacToeGame.is_cell c = true ↔
  c = TicTacToeGame.EMPTY ∨ c = TicTacToeGame.PLAYER_X ∨ c = TicTacToeGame.PLAYER_O.
Proof.
  unfold TicTacToeGame.is_cell. rewrite !orb_true_iff, !Ascii.eqb_eq. tauto.
Qed.

Lemma wf_board_nth (b : pystr) (i : Z) :
  wf_board b → 0 ≤ i ≤ 8 →
  ∃ c, nth_error b (Z.to_nat i) = Some c ∧ TicTacToeGame.is_cell c = true.
Proof.
  intros [Hl Hc] Hi.
  destruct (nth_error b (Z.to_nat i)) as [c|] eqn:E.
  - exists c; split; [done|].
    rewrite forallb_forall in Hc. apply Hc. eapply nth_error_In; eauto.
  - apply nth_error_None in E. lia.
Qed.

Lemma str_index_wf (b : pystr) (i : Z) :
  wf_board b → 0 ≤ i ≤ 8 →
  ∃ c, str_index b i = Ok c ∧ nth_error b (Z.to_nat i) = Some c
       ∧ TicTacToeGame.is_cell c = true.
Proof.
  intros Hwf Hi. destruct (wf_board_nth b i Hwf Hi) as (c & E & Hc).
  exists c. rewrite str_index_nonneg, E by lia. done.
Qed.

Lemma wf_empty_board : wf_board empty_board.
Proof. split; reflexivity. Qed.

(** ** The constructor *)

Lemma init_wf (s : pystr) :
  wf_board s → TicTacToeGame.__init__ (Some s) = Ok (TicTacToeGame.Build s).
Proof.
  intros [Hl Hc]. unfold TicTacToeGame.__init__, len. rewrite Hl, Hc. reflexivity.
Qed.

Lemma init_ok_inv (s : pystr) (g : TicTacToeGame.t) :
  TicTacToeGame.__init__ (Some s) = Ok g → wf_board s ∧ g = TicTacToeGame.Build s.
Proof.
  unfold TicTacToeGame.__init__, len.
  destruct (Z.eqb_spec (Z.of_nat (length s)) 9) as [Hl|Hl]; simpl; [|done].
  destruct (forallb TicTacToeGame.is_cell s) eqn:Hc; simpl; [|done].
  intros [= <-]. repeat split; [lia | done].
Qed.

(** C9. [TicTacToeGame(board_state)] raises ValueError exactly when the
    string does not have length 9 or holds a character that is not a cell
    value, and then nothing is constructed: the call raises, no object is
    added to the store.  In every other case the new object holds the
    string itself.  [TicTacToeGame("XO")] raises, and [TicTacToeGame()]
    holds nine empty cells. *)
Theorem construct_invalid_board_state :
  (∀ s : pystr,
      TicTacToeGame.__init__ (Some s) = Raise ValueError
      ↔ (length s ≠ 9%nat ∨ ∃ c, In c s ∧ c ≠ TicTacToeGame.EMPTY
                                 ∧ c ≠ TicTacToeGame.PLAYER_X ∧ c ≠ TicTacToeGame.PLAYER_O))
  ∧ (∀ s : pystr,
      TicTacToeGame.__init__ (Some s) = Raise ValueError
      ∨ TicTacToeGame.__init__ (Some s) = Ok (TicTacToeGame.Build s))
  ∧ (∀ (s : pystr) (h : heap),
      TicTacToeGame.__init__ (Some s) = Raise ValueError →
      new_game (Some s) h = Raise ValueError)
  ∧ TicTacToeGame.__init__ (Some (str "XO")) = Raise ValueError
  ∧ TicTacToeGame.__init__ None = Ok (TicTacToeGame.Build (str "         ")).
Proof.
  split; [|split; [|split; [|split; reflexivity]]].
  - intros s. unfold TicTacToeGame.__init__, len.
    destruct (Z.eqb_spec (Z.of_nat (length s)) 9) as [Hl|Hl]; simpl.
    + destruct (forallb TicTacToeGame.is_cell s) eqn:Hc; simpl.
      * split; [done|]. intros [Hn|(c & Hin & H1 & H2 & H3)]; [lia|].
        rewrite forallb_forall in Hc. apply Hc, is_cell_spec in Hin. tauto.
      * split; [|done]. intros _. right.
        assert (¬ (∀ c, In c s → TicTacToeGame.is_cell c = true)) as Hn.
        { rewrite <- forallb_forall. congruence. }
        clear Hc Hl. induction s as [|c s IH].
        { exfalso. apply Hn. intros c []. }
        destruct (TicTacToeGame.is_cell c) eqn:Ec.
        -- destruct IH as (c' & Hin & H').
           { intros H. apply Hn. intros c' [<-|Hin]; auto. }
           exists c'. split; [by right | done].
        -- exists c. split; [by left|].
           repeat split; intros ->; discriminate.
    + split; [|done]. intros _. left. lia.
  - intros s. unfold TicTacToeGame.__init__.
    destruct (negb (len s =? 9) || negb (forallb TicTacToeGame.is_cell s)); auto.
  - intros s h H. unfold new_game. rewrite H. reflexivity.
Qed.

(** C8. A string of nine cell values is accepted by the constructor and
    read back unchanged by [get_board_state]; and building a new game
    from the snapshot of a board gives a game equal to that board. *)
Theorem snapshot_construct_round_trip (s : pystr) (b : TicTacToeGame.t) :
  wf_board s → wf_board (TicTacToeGame.board b) →
  (∃ g, TicTacToeGame.__init__ (Some s) = Ok g ∧ TicTacToeGame.get_board_state g = s)
  ∧ TicTacToeGame.__init__ (Some (TicTacToeGame.get_board_state b)) = Ok b.
Proof.
  intros Hs Hb. split.
  - exists (TicTacToeGame.Build s). split; [by apply init_wf | done].
  - unfold TicTacToeGame.get_board_state. rewrite init_wf by done. by destruct b.
Qed.

Lemma snapshot_construct_round_trip_witness :
  (∃ g, TicTacToeGame.__init__ (Some (str "XO X O  X")) = Ok g
        ∧ TicTacToeGame.get_board_state g = str "XO X O  X")
  ∧ TicTacToeGame.__init__
      (Some (TicTacToeGame.get_board_state (TicTacToeGame.Build (str "OXO X    "))))
    = Ok (TicTacToeGame.Build (str "OXO X    ")).
Proof.
  apply (snapshot_construct_round_trip (str "XO X O  X") (TicTacToeGame.Build (str "OXO X    ")));
    split; reflexivity.
Defined.

(** ** Moves *)

Lemma clamp_in_range (s : pystr) (i : Z) :
  0 ≤ i ≤ len s → clamp s i = Z.to_nat i.
Proof.
  intros Hi. unfold clamp. destruct (Z.ltb_spec i 0); [lia|]. f_equal. lia.
Qed.

Lemma place_split (b : pystr) (position : Z) (c : ascii) :
  length b = 9%nat → 0 ≤ position ≤ 8 →
  place b position c
  = firstn (Z.to_nat position) b ++ c :: skipn (S (Z.to_nat position)) b.
Proof.
  intros Hl Hp. unfold place, slice_to, slice_from.
  assert (len b = 9) as Hlen by (unfold len; lia).
  rewrite (clamp_in_range b position) by lia.
  rewrite (clamp_in_range b (position + 1)) by lia.
  replace (Z.to_nat (position + 1)) with (S (Z.to_nat position)) by lia. done.
Qed.

Lemma place_length (b : pystr) (position : Z) (c : ascii) :
  length b = 9%nat → 0 ≤ position ≤ 8 → length (place b position c) = 9%nat.
Proof.
  intros Hl Hp. rewrite place_split by done.
  rewrite length_app, length_firstn. simpl. rewrite length_skipn. lia.
Qed.

Lemma place_nth_same (b : pystr) (position : Z) (c : ascii) :
  length b = 9%nat → 0 ≤ position ≤ 8 →
  nth_error (place b position c) (Z.to_nat position) = Some c.
Proof.
  intros Hl Hp. rewrite place_split by done.
  rewrite nth_error_app2 by (rewrite length_firstn; lia).
  rewrite length_firstn. replace (_ - _)%nat with 0%nat by lia. done.
Qed.

Lemma place_nth_other (b : pystr) (position : Z) (c : ascii) (j : nat) :
  length b = 9%nat → 0 ≤ position ≤ 8 → j ≠ Z.to_nat position →
  nth_error (place b position c) j = nth_error b j.
Proof.
  intros Hl Hp Hj. rewrite place_split by done.
  set (n := Z.to_nat position) in *.
  assert (length (firstn n b) = n) as Hn by (rewrite length_firstn; lia).
  destruct (Nat.lt_ge_cases j n) as [Hlt|Hge].
  - rewrite nth_error_app1 by lia. rewrite nth_error_firstn.
    destruct (Nat.ltb_spec j n); [done | lia].
  - rewrite nth_error_app2 by lia. rewrite Hn.
    destruct (j - n)%nat as [|k] eqn:Ek; [lia|]. simpl.
    rewrite nth_error_skipn. f_equal. lia.
Qed.

Lemma place_wf (b : pystr) (position : Z) (c : ascii) :
  wf_board b → 0 ≤ position ≤ 8 → TicTacToeGame.is_cell c = true →
  wf_board (place b position c).
Proof.
  intros [Hl Hc] Hp Hcell. split; [by apply place_length|].
  rewrite place_split by done.
  rewrite forallb_forall in Hc. apply forallb_forall. intros x Hx.
  apply in_app_or in Hx as [Hx|[<-|Hx]]; [| done |].
  - apply Hc. rewrite <- (firstn_skipn (Z.to_nat position) b).
    apply in_or_app. by left.
  - apply Hc. rewrite <- (firstn_skipn (S (Z.to_nat position)) b).
    apply in_or_app. by right.
Qed.

Lemma is_player_spec (player : pystr) :
  TicTacToeGame.is_player player = true
  ↔ player = [TicTacToeGame.PLAYER_X] ∨ player = [TicTacToeGame.PLAYER_O].
Proof.
  unfold TicTacToeGame.is_player. rewrite orb_true_iff, !pystr_eqb_eq. done.
Qed.

Lemma is_valid_move_spec (b : pystr) (position : Z) (player : pystr) :
  wf_board b →
  ∃ r, TicTacToeGame.is_valid_move (TicTacToeGame.Build b) position player = Ok r
       ∧ (r = true ↔ valid_move b position player).
Proof.
  intros Hwf. unfold TicTacToeGame.is_valid_move, valid_move. simpl.
  destruct (Z.leb_spec 0 position); simpl;
    [|exists false; split; [done|]; split; [done | lia]].
  destruct (Z.leb_spec position 8); simpl;
    [|exists false; split; [done|]; split; [done | lia]].
  destruct (TicTacToeGame.is_player player) eqn:Ep; simpl.
  - apply is_player_spec in Ep.
    destruct (str_index_wf b position Hwf) as (c & -> & Hn & _); [lia|]. simpl.
    exists (Ascii.eqb c TicTacToeGame.EMPTY). split; [done|].
    rewrite Ascii.eqb_eq, Hn. split; [intros ->; done | intros (_ & _ & [= ->]); done].
  - exists false. split; [done|]. split; [done|]. intros (_ & Hp & _).
    apply is_player_spec in Hp. congruence.
Qed.

Lemma classic_valid (b : pystr) (position : Z) (player : pystr) :
  valid_move b position player ∨ ¬ valid_move b position player.
Proof.
  unfold valid_move.
  destruct (decide (0 ≤ position ≤ 8)); [|tauto].
  destruct (decide (player = [TicTacToeGame.PLAYER_X])); [|
    destruct (decide (player = [TicTacToeGame.PLAYER_O])); [|tauto]];
  (destruct (decide (nth_error b (Z.to_nat position) = Some TicTacToeGame.EMPTY));
     [|tauto]); tauto.
Qed.

Lemma make_move_valid (b : pystr) (position : Z) (player : pystr) :
  wf_board b → valid_move b position player →
  ∃ c, player = [c] ∧ player_cell c ∧
       TicTacToeGame.make_move (TicTacToeGame.Build b) position player
       = Ok (true, TicTacToeGame.Build (place b position c)).
Proof.
  intros Hwf Hv. unfold TicTacToeGame.make_move.
  destruct (is_valid_move_spec b position player Hwf) as (r & -> & Hr).
  pose proof Hv as (_ & Hp & _). apply Hr in Hv as ->. simpl.
  destruct Hp as [-> | ->]; eexists; (split; [reflexivity|]);
    (split; [| reflexivity]); [by left | by right].
Qed.

Lemma make_move_invalid (b : pystr) (position : Z) (player : pystr) :
  wf_board b → ¬ valid_move b position player →
  TicTacToeGame.make_move (TicTacToeGame.Build b) position player
  = Ok (false, TicTacToeGame.Build b).
Proof.
  intros Hwf Hv. unfold TicTacToeGame.make_move.
  destruct (is_valid_move_spec b position player Hwf) as (r & -> & Hr).
  destruct r; [exfalso; apply Hv, Hr; done | done].
Qed.

Lemma player_cell_is_cell (c : ascii) : player_cell c → TicTacToeGame.is_cell c = true.
Proof. intros [-> | ->]; reflexivity. Qed.

(** C3. On a board of nine cells, a valid move makes [make_move] return
    True and write the player at the position, every other cell keeping
    its value; an invalid move makes it return False and leaves the board
    as it was.  In both cases the board still has nine cells, each a cell
    value. *)
Theorem make_move_frame (b : pystr) (position : Z) (player : pystr) :
  wf_board b →
  ∃ (r : bool) (b' : pystr),
    TicTacToeGame.make_move (TicTacToeGame.Build b) position player
    = Ok (r, TicTacToeGame.Build b')
    ∧ (valid_move b position player →
       r = true
       ∧ Some player = option_map (λ c, [c]) (nth_error b' (Z.to_nat position))
       ∧ ∀ j : nat, j ≠ Z.to_nat position → nth_error b' j = nth_error b j)
    ∧ (¬ valid_move b position player → r = false ∧ b' = b)
    ∧ length b' = 9%nat
    ∧ (∀ c, In c b' → c = TicTacToeGame.EMPTY ∨ c = TicTacToeGame.PLAYER_X
                      ∨ c = TicTacToeGame.PLAYER_O).
Proof.
  intros Hwf.
  assert (∀ b', wf_board b' → length b' = 9%nat
            ∧ (∀ c, In c b' → c = TicTacToeGame.EMPTY ∨ c = TicTacToeGame.PLAYER_X
                              ∨ c = TicTacToeGame.PLAYER_O)) as Hinv.
  { intros b' [Hl Hc]. split; [done|]. intros c Hin.
    rewrite forallb_forall in Hc. by apply is_cell_spec, Hc. }
  destruct (classic_valid b position player) as [Hv|Hv].
  - destruct (make_move_valid b position player Hwf Hv) as (c & -> & Hc & ->).
    pose proof Hv as (Hp & _ & _). destruct Hwf as [Hl Hcells].
    exists true, (place b position c). split; [done|].
    split; [|split; [tauto|]].
    + intros _. split; [done|]. rewrite place_nth_same by done. split; [done|].
      intros j Hj. by apply place_nth_other.
    + apply Hinv, place_wf; [done | done | by apply player_cell_is_cell].
  - rewrite make_move_invalid by done. exists false, b.
    split; [done|]. split; [tauto|]. split; [done|]. by apply Hinv.
Qed.

Lemma make_move_frame_witness :
  ∃ (r : bool) (b' : pystr),
    TicTacToeGame.make_move (TicTacToeGame.Build (str "X O      ")) 4 (str "X")
    = Ok (r, TicTacToeGame.Build b')
    ∧ (valid_move (str "X O      ") 4 (str "X") →
       r = true
       ∧ Some (str "X") = option_map (λ c, [c]) (nth_error b' (Z.to_nat 4))
       ∧ ∀ j : nat, j ≠ Z.to_nat 4 → nth_error b' j = nth_error (str "X O      ") j)
    ∧ (¬ valid_move (str "X O      ") 4 (str "X") → r = false ∧ b' = str "X O      ")
    ∧ length b' = 9%nat
    ∧ (∀ c, In c b' → c = TicTacToeGame.EMPTY ∨ c = TicTacToeGame.PLAYER_X
                      ∨ c = TicTacToeGame.PLAYER_O).
Proof.
  apply (make_move_frame (str "X O      ") 4 (str "X")). split; reflexivity.
Defined.

(** ** Terminal check *)

Lemma winning_combinations_ok : Forall combo_ok TicTacToeGame.WINNING_COMBINATIONS.
Proof. repeat constructor; simpl; lia. Qed.

Lemma line_full_unique (b : pystr) (combo : Z * Z * Z) (p q : ascii) :
  line_full b combo p → line_full b combo q → p = q.
Proof. intros (H & _) (H' & _). congruence. Qed.

Lemma line_wins_spec (b : pystr) (combo : Z * Z * Z) :
  wf_board b → combo_ok combo →
  ∃ r, TicTacToeGame.line_wins b combo = Ok r
       ∧ (r = true ↔ line_won b combo)
       ∧ (r = true → ∃ p, str_index b combo.1.1 = Ok p ∧ player_cell p ∧ line_full b combo p).
Proof.
  intros Hwf Hok. destruct combo as [[c0 c1] c2]. destruct Hok as (H0 & H1 & H2).
  simpl in H0, H1, H2. unfold TicTacToeGame.line_wins, line_won, line_full. simpl.
  destruct (str_index_wf b c0 Hwf H0) as (x0 & E0 & N0 & C0).
  destruct (str_index_wf b c1 Hwf H1) as (x1 & E1 & N1 & C1).
  destruct (str_index_wf b c2 Hwf H2) as (x2 & E2 & N2 & C2).
  rewrite E0, E1, E2, N0, N1, N2. simpl.
  destruct (Ascii.eqb_spec x0 TicTacToeGame.EMPTY) as [->|Hne].
  { exists false. split; [done|]. split; [|done]. split; [done|].
    intros (p & [-> | ->] & [= ?] & _); discriminate. }
  assert (player_cell x0) as Hp0.
  { apply is_cell_spec in C0. unfold player_cell. tauto. }
  destruct (Ascii.eqb_spec x0 x1) as [<-|Hne1]; simpl.
  - exists (Ascii.eqb x0 x2).
    destruct (Ascii.eqb_spec x0 x2) as [<-|Hne2].
    + split; [done|]. split; [split; [|done]|]; intros _; exists x0; done.
    + split; [done|]. split; [|done]. split; [done|].
      intros (p & _ & [= ->] & _ & [= ->]). done.
  - exists false. split; [done|]. split; [|done]. split; [done|].
    intros (p & _ & [= ->] & [= ->] & _). done.
Qed.

Lemma first_winner_spec (b : pystr) (combos : list (Z * Z * Z)) :
  wf_board b → Forall combo_ok combos →
  ∃ w, TicTacToeGame.first_winner b combos = Ok w ∧
       match w with
       | Some p => ∃ pre combo post,
                     combos = pre ++ combo :: post ∧ player_cell p ∧ line_full b combo p
                     ∧ ∀ c, In c pre → ¬ line_won b c
       | None => ∀ c, In c combos → ¬ line_won b c
       end.
Proof.
  intros Hwf Hok. induction Hok as [|combo rest Hc Hrest IH].
  - exists None. split; [done|]. intros c [].
  - simpl. destruct (line_wins_spec b combo Hwf Hc) as (r & -> & Hr & Hp). simpl.
    destruct r.
    + destruct Hp as (p & Ep & Hpl & Hfull); [done|]. rewrite Ep. simpl.
      exists (Some p). split; [done|]. exists [], combo, rest.
      split; [done|]. split; [done|]. split; [done|]. intros c [].
    + destruct IH as (w & -> & Hw). exists w. split; [done|].
      assert (¬ line_won b combo) as Hn by (intros H; apply Hr in H; done).
      destruct w as [p|].
      * destruct Hw as (pre & c & post & -> & Hpl & Hfull & Hpre).
        exists (combo :: pre), c, post.
        split; [done|]. split; [done|]. split; [done|].
        intros c' [<-|Hin]; auto.
      * intros c' [<-|Hin]; auto.
Qed.

Lemma first_won_unique (b : pystr) (pre pre' post post' : list (Z * Z * Z))
    (c c' : Z * Z * Z) :
  pre ++ c :: post = pre' ++ c' :: post' →
  line_won b c → line_won b c' →
  (∀ x, In x pre → ¬ line_won b x) → (∀ x, In x pre' → ¬ line_won b x) →
  c = c'.
Proof.
  revert pre'. induction pre as [|x pre IH]; intros [|x' pre'] E Hc Hc' Hp Hp'; simpl in E.
  - congruence.
  - injection E as <- _. exfalso. apply (Hp' c); [by left | done].
  - injection E as -> _. exfalso. apply (Hp c'); [by left | done].
  - injection E as <- E. eapply IH; eauto.
    + intros y Hy. apply Hp. by right.
    + intros y Hy. apply Hp'. by right.
Qed.

Lemma existsb_empty (b : pystr) :
  existsb (Ascii.eqb TicTacToeGame.EMPTY) b = true ↔ In TicTacToeGame.EMPTY b.
Proof.
  rewrite existsb_exists. split.
  - intros (x & Hin & Hx). apply Ascii.eqb_eq in Hx. by subst.
  - intros H. exists TicTacToeGame.EMPTY. split; [done | apply Ascii.eqb_refl].
Qed.

(** C2. On a board of nine cells [check_winner] returns, and
    - it returns [(True, w)] exactly when [w] is the player that fully
      occupies the first winning combination, in the order of
      [WINNING_COMBINATIONS], that some player fully occupies; so it
      returns a winner exactly when some combination is fully occupied
      by a player;
    - it returns [(True, None)] exactly when no combination is fully
      occupied by a player and no cell is empty;
    - it returns [(False, None)] in every other case. *)
Theorem check_winner_spec (b : pystr) :
  wf_board b →
  ∃ r, TicTacToeGame.check_winner (TicTacToeGame.Build b) = Ok r
    ∧ (∀ w, r = (true, Some w) ↔
            ∃ pre combo post,
              TicTacToeGame.WINNING_COMBINATIONS = pre ++ combo :: post
              ∧ player_cell w ∧ line_full b combo w
              ∧ ∀ c, In c pre → ¬ line_won b c)
    ∧ ((∃ w, r = (true, Some w)) ↔
       ∃ combo, In combo TicTacToeGame.WINNING_COMBINATIONS ∧ line_won b combo)
    ∧ (r = (true, None) ↔
       (∀ combo, In combo TicTacToeGame.WINNING_COMBINATIONS → ¬ line_won b combo)
       ∧ ¬ In TicTacToeGame.EMPTY b)
    ∧ (r = (false, None) ↔
       (∀ combo, In combo TicTacToeGame.WINNING_COMBINATIONS → ¬ line_won b combo)
       ∧ In TicTacToeGame.EMPTY b)
    ∧ ((∃ w, r = (true, Some w)) ∨ r = (true, None) ∨ r = (false, None)).
Proof.
  intros Hwf. unfold TicTacToeGame.check_winner. cbn [TicTacToeGame.board].
  destruct (first_winner_spec b _ Hwf winning_combinations_ok) as (w & -> & Hw).
  cbn [mbind res_bind].
  destruct w as [p|].
  - destruct Hw as (pre & combo & post & E & Hpl & Hfull & Hpre).
    assert (line_won b combo) as Hwon by (exists p; done).
    assert (In combo TicTacToeGame.WINNING_COMBINATIONS) as Hin.
    { rewrite E. apply in_or_app. right. by left. }
    exists (true, Some p). split; [done|].
    split; [|split; [|split; [|split]]].
    + intros w. split.
      * intros [= <-]. exists pre, combo, post. done.
      * intros (pre' & combo' & post' & E' & Hpl' & Hfull' & Hpre').
        assert (combo = combo') as <-.
        { eapply (first_won_unique b pre pre' post post'); eauto; [congruence|].
          exists w; done. }
        f_equal. f_equal. eapply line_full_unique; eauto.
    + split; [intros _; exists combo; done | intros _; exists p; done].
    + split; [done|]. intros [Hno _]. exfalso. by apply (Hno combo).
    + split; [done|]. intros [Hno _]. exfalso. by apply (Hno combo).
    + left. by exists p.
  - pose proof (existsb_empty b) as He.
    destruct (existsb (Ascii.eqb TicTacToeGame.EMPTY) b) eqn:Ee; simpl.
    + exists (false, None). split; [done|].
      split; [|split; [|split; [|split]]].
      * intros w. split; [done|].
        intros (pre & combo & post & E & Hpl & Hfull & _). exfalso.
        apply (Hw combo); [rewrite E; apply in_or_app; right; by left | exists w; done].
      * split; [intros [w [=]] | intros (combo & Hin & Hwon); exfalso; by apply (Hw combo)].
      * split; [done|]. intros [_ Hn]. exfalso. apply Hn, He. done.
      * split; [|done]. intros _. split; [done | by apply He].
      * right. by right.
    + exists (true, None). split; [done|].
      split; [|split; [|split; [|split]]].
      * intros w. split; [done|].
        intros (pre & combo & post & E & Hpl & Hfull & _). exfalso.
        apply (Hw combo); [rewrite E; apply in_or_app; right; by left | exists w; done].
      * split; [intros [w [=]] | intros (combo & Hin & Hwon); exfalso; by apply (Hw combo)].
      * split; [|done]. intros _. split; [done|]. intros Hin. apply He in Hin. done.
      * split; [done|]. intros [_ Hin]. apply He in Hin. done.
      * right. by left.
Qed.

Lemma check_winner_spec_witness :
  ∃ r, TicTacToeGame.check_winner (TicTacToeGame.Build (str "OO XXX  O")) = Ok r
    ∧ (∀ w, r = (true, Some w) ↔
            ∃ pre combo post,
              TicTacToeGame.WINNING_COMBINATIONS = pre ++ combo :: post
              ∧ player_cell w ∧ line_full (str "OO XXX  O") combo w
              ∧ ∀ c, In c pre → ¬ line_won (str "OO XXX  O") c)
    ∧ ((∃ w, r = (true, Some w)) ↔
       ∃ combo, In combo TicTacToeGame.WINNING_COMBINATIONS
                ∧ line_won (str "OO XXX  O") combo)
    ∧ (r = (true, None) ↔
       (∀ combo, In combo TicTacToeGame.WINNING_COMBINATIONS
                 → ¬ line_won (str "OO XXX  O") combo)
       ∧ ¬ In TicTacToeGame.EMPTY (str "OO XXX  O"))
    ∧ (r = (false, None) ↔
       (∀ combo, In combo TicTacToeGame.WINNING_COMBINATIONS
                 → ¬ line_won (str "OO XXX  O") combo)
       ∧ In TicTacToeGame.EMPTY (str "OO XXX  O"))
    ∧ ((∃ w, r = (true, Some w)) ∨ r = (true, None) ∨ r = (false, None)).
Proof.
  apply (check_winner_spec (str "OO XXX  O")). split; reflexivity.
Defined.

Lemma outcome_wf (b : pystr) :
  wf_board b → TicTacToeGame.check_winner (TicTacToeGame.Build b) = Ok (outcome b).
Proof.
  intros Hwf. unfold outcome, TicTacToeGame.check_winner. cbn [TicTacToeGame.board].
  destruct (first_winner_spec b _ Hwf winning_combinations_ok) as (w & -> & _).
  cbn [mbind res_bind]. destruct w; [done|].
  by destruct (negb (existsb (Ascii.eqb TicTacToeGame.EMPTY) b)).
Qed.

(** ** Valid moves *)

Lemma empty_cells_from_spec (b : pystr) (i m : Z) :
  In m (TicTacToeGame.empty_cells_from i b)
  ↔ i ≤ m < i + len b ∧ nth_error b (Z.to_nat (m - i)) = Some TicTacToeGame.EMPTY.
Proof.
  revert i. induction b as [|c b IH]; intros i; unfold len; simpl.
  - split; [done | lia].
  - assert (∀ m, i + 1 ≤ m →
              nth_error (c :: b) (Z.to_nat (m - i)) = nth_error b (Z.to_nat (m - (i + 1)))) as Hs.
    { intros m' Hm. replace (Z.to_nat (m' - i)) with (S (Z.to_nat (m' - (i + 1)))) by lia. done. }
    destruct (Ascii.eqb_spec c TicTacToeGame.EMPTY) as [->|Hne]; simpl; rewrite IH; unfold len.
    + split.
      * intros [<- | [Hr Hn]].
        -- split; [lia|]. by rewrite Z.sub_diag.
        -- split; [lia|]. by rewrite Hs by lia.
      * intros [Hr Hn]. destruct (decide (m = i)) as [->|Hmi]; [by left|right].
        split; [lia|]. by rewrite <- Hs by lia.
    + split.
      * intros [Hr Hn]. split; [lia|]. by rewrite Hs by lia.
      * intros [Hr Hn]. destruct (decide (m = i)) as [->|Hmi].
        -- rewrite Z.sub_diag in Hn. simpl in Hn. congruence.
        -- split; [lia|]. by rewrite <- Hs by lia.
Qed.

Lemma moves_spec (b : pystr) (m : Z) :
  In m (moves b) ↔ 0 ≤ m < len b ∧ nth_error b (Z.to_nat m) = Some TicTacToeGame.EMPTY.
Proof.
  unfold moves, TicTacToeGame.get_valid_moves. cbn [TicTacToeGame.board].
  rewrite empty_cells_from_spec, Z.sub_0_r. done.
Qed.

Lemma moves_valid (b : pystr) (m : Z) (c : ascii) :
  wf_board b → In m (moves b) → player_cell c → valid_move b m [c].
Proof.
  intros [Hl _] Hm Hc. apply moves_spec in Hm as [Hr Hn]. unfold len in Hr.
  split; [lia|]. split; [|done]. destruct Hc as [-> | ->]; auto.
Qed.

Lemma make_move_moves (b : pystr) (m : Z) (c : ascii) :
  wf_board b → In m (moves b) → player_cell c →
  TicTacToeGame.make_move (TicTacToeGame.Build b) m [c]
  = Ok (true, TicTacToeGame.Build (place b m c)).
Proof.
  intros Hwf Hm Hc.
  destruct (make_move_valid b m [c] Hwf (moves_valid b m c Hwf Hm Hc)) as (c' & [= <-] & _ & E).
  done.
Qed.

Lemma moves_empty_iff (b : pystr) :
  moves b = [] ↔ ¬ In TicTacToeGame.EMPTY b.
Proof.
  split.
  - intros E Hin. apply In_nth_error in Hin as [n Hn].
    assert (In (Z.of_nat n) (moves b)) as Hm.
    { apply moves_spec. rewrite Nat2Z.id. split; [|done].
      assert (nth_error b n ≠ None) as Hs by congruence.
      apply nth_error_Some in Hs. unfold len. lia. }
    rewrite E in Hm. done.
  - intros Hn. destruct (moves b) as [|m ms] eqn:E; [done|]. exfalso. apply Hn.
    assert (In m (moves b)) as Hm by (rewrite E; by left).
    apply moves_spec in Hm as [_ Hm]. eapply nth_error_In; eauto.
Qed.

Lemma place_at_empty (b : pystr) (m : Z) (c : ascii) :
  wf_board b → In m (moves b) →
  ∃ l1 l2, b = l1 ++ TicTacToeGame.EMPTY :: l2 ∧ place b m c = l1 ++ c :: l2.
Proof.
  intros [Hl _] Hm. apply moves_spec in Hm as [Hr Hn]. unfold len in Hr.
  rewrite place_split by (done || lia).
  destruct (nth_error_split _ _ Hn) as (l1 & l2 & E & Hl1).
  exists l1, l2. split; [done|]. rewrite <- Hl1. rewrite E.
  rewrite firstn_app, Nat.sub_diag, firstn_all, firstn_O, app_nil_r.
  f_equal. f_equal.
  replace (S (length l1)) with (length (l1 ++ [TicTacToeGame.EMPTY]))
    by (rewrite length_app; simpl; lia).
  replace (l1 ++ TicTacToeGame.EMPTY :: l2) with ((l1 ++ [TicTacToeGame.EMPTY]) ++ l2)
    by (rewrite <- app_assoc; done).
  rewrite skipn_app, Nat.sub_diag, skipn_all. done.
Qed.

Lemma empties_place (b : pystr) (m : Z) (c : ascii) :
  wf_board b → In m (moves b) → c ≠ TicTacToeGame.EMPTY →
  S (empties (place b m c)) = empties b.
Proof.
  intros Hwf Hm Hc. destruct (place_at_empty b m c Hwf Hm) as (l1 & l2 & E & ->).
  unfold empties. rewrite E, !count_occ_app. simpl.
  destruct (ascii_dec c TicTacToeGame.EMPTY); [done|].
  destruct (ascii_dec TicTacToeGame.EMPTY TicTacToeGame.EMPTY); [lia | done].
Qed.

Lemma place_moves_wf (b : pystr) (m : Z) (c : ascii) :
  wf_board b → In m (moves b) → player_cell c → wf_board (place b m c).
Proof.
  intros Hwf Hm Hc. pose proof Hwf as [Hl _].
  apply moves_spec in Hm as [Hr _]. unfold len in Hr.
  apply place_wf; [done | lia | by apply player_cell_is_cell].
Qed.

Lemma not_over_has_moves (b : pystr) :
  wf_board b → (outcome b).1 = false → moves b ≠ [].
Proof.
  intros Hwf Ho E. apply moves_empty_iff in E.
  pose proof (outcome_wf b Hwf) as Hc. unfold TicTacToeGame.check_winner in Hc.
  cbn [TicTacToeGame.board] in Hc.
  destruct (first_winner_spec b _ Hwf winning_combinations_ok) as (w & Ew & _).
  rewrite Ew in Hc. cbn [mbind res_bind] in Hc. destruct w.
  - injection Hc as Hc. rewrite <- Hc in Ho. done.
  - rewrite <- existsb_empty in E.
    destruct (existsb (Ascii.eqb TicTacToeGame.EMPTY) b); [done|].
    injection Hc as Hc. rewrite <- Hc in Ho. done.
Qed.

(** ** The store: running the methods *)

Lemma runs_ret {A} (h0 : heap) (v : A) (h : heap) : h0 ⊆ h → runs h0 (mret v) h v.
Proof. intros Hs. exists h. done. Qed.

Lemma runs_step {A B} (h0 : heap) (m : M A) (f : A → M B) (h h1 : heap) (a : A) (v : B) :
  m h = Ok (a, h1) → runs h0 (f a) h1 v → runs h0 (m ≫= f) h v.
Proof.
  intros E (h' & E' & Hs'). exists h'. split; [|done].
  unfold mbind, M_bind. by rewrite E.
Qed.

(** A call that preserves the store it starts in. *)
Lemma runs_call {A B} (h0 : heap) (m : M A) (f : A → M B) (h : heap) (a : A) (v : B) :
  runs h m h a → (∀ h1, h ⊆ h1 → runs h0 (f a) h1 v) → runs h0 (m ≫= f) h v.
Proof.
  intros (h1 & E & Hs) Hf. eapply runs_step; [exact E|]. by apply Hf.
Qed.

Lemma runs_lift {A} (h0 : heap) (r : res A) (h : heap) (v : A) :
  h0 ⊆ h → r = Ok v → runs h0 (lift r) h v.
Proof. intros Hs ->. exists h. done. Qed.

Lemma deref_run (l : loc) (g : TicTacToeGame.t) (h : heap) :
  h !! l = Some g → deref l h = Ok (g, h).
Proof. intros E. unfold deref. by rewrite E. Qed.

Lemma call_get_board_state_run (l : loc) (g : TicTacToeGame.t) (h : heap) :
  h !! l = Some g → call_get_board_state l h = Ok (TicTacToeGame.board g, h).
Proof.
  intros E. unfold call_get_board_state, mbind, M_bind. by rewrite (deref_run l g h E).
Qed.

Lemma call_get_valid_moves_run (l : loc) (b : pystr) (h : heap) :
  h !! l = Some (TicTacToeGame.Build b) → call_get_valid_moves l h = Ok (moves b, h).
Proof.
  intros E. unfold call_get_valid_moves, mbind, M_bind. by rewrite (deref_run l _ h E).
Qed.

Lemma call_check_winner_run (l : loc) (b : pystr) (h : heap) :
  wf_board b → h !! l = Some (TicTacToeGame.Build b) →
  call_check_winner l h = Ok (outcome b, h).
Proof.
  intros Hwf E. unfold call_check_winner, mbind, M_bind.
  rewrite (deref_run l _ h E). unfold lift. by rewrite outcome_wf.
Qed.

(** A copy lives at a reference that was not in use. *)
Lemma new_game_run (b : pystr) (h : heap) :
  wf_board b →
  ∃ l, new_game (Some b) h = Ok (l, <[l := TicTacToeGame.Build b]> h)
       ∧ h !! l = None.
Proof.
  intros Hwf. exists (fresh (dom h)). unfold new_game. rewrite init_wf by done.
  split; [done|]. apply not_elem_of_dom, is_fresh.
Qed.

Lemma call_make_move_run (l : loc) (b : pystr) (m : Z) (c : ascii) (h : heap) :
  wf_board b → In m (moves b) → player_cell c →
  h !! l = Some (TicTacToeGame.Build b) →
  call_make_move l m [c] h = Ok (true, <[l := TicTacToeGame.Build (place b m c)]> h).
Proof.
  intros Hwf Hm Hc E. unfold call_make_move, mbind, M_bind.
  rewrite (deref_run l _ h E). unfold lift. by rewrite make_move_moves.
Qed.

(** The three statements that start an iteration of each loop: snapshot,
    copy, move on the copy.  The move is written to the copy: the store
    in which the iteration started is part of the store after them. *)
Lemma copy_and_move_run {A} (h0 : heap) (game : loc) (b : pystr) (m : Z) (c : ascii)
    (h : heap) (k : loc → M A) (v : A) :
  wf_board b → In m (moves b) → player_cell c →
  h !! game = Some (TicTacToeGame.Build b) →
  (∀ l h1, h ⊆ h1 → h1 !! l = Some (TicTacToeGame.Build (place b m c)) →
           runs h0 (k l) h1 v) →
  runs h0 (board ← call_get_board_state game;
           game_copy ← new_game (Some board);
           _ ← call_make_move game_copy m [c];
           k game_copy) h v.
Proof.
  intros Hwf Hm Hc E Hk.
  destruct (new_game_run b h Hwf) as (l & En & Hfresh).
  eapply runs_step; [by apply (call_get_board_state_run game _ h E) |].
  cbn [TicTacToeGame.board].
  eapply runs_step; [exact En |].
  eapply runs_step.
  - apply (call_make_move_run l b m c); try done. apply lookup_insert_eq.
  - rewrite insert_insert_eq. apply Hk; [by apply insert_subseteq | apply lookup_insert_eq].
Qed.

(** ** The static evaluation returns *)

Lemma score_line_ok (b : pystr) (combo : Z * Z * Z) (score : spec_float) :
  wf_board b → combo_ok combo → ∃ s, MinimaxAI.score_line b combo score = Ok s.
Proof.
  intros Hwf Hok. destruct combo as [[c0 c1] c2]. destruct Hok as (H0 & H1 & H2).
  simpl in H0, H1, H2. unfold MinimaxAI.score_line.
  destruct (str_index_wf b c0 Hwf H0) as (x0 & -> & _).
  destruct (str_index_wf b c1 Hwf H1) as (x1 & -> & _).
  destruct (str_index_wf b c2 Hwf H2) as (x2 & -> & _).
  cbn [mbind res_bind].
  repeat match goal with |- context [if ?c then _ else _] => destruct c end; eauto.
Qed.

Lemma score_lines_ok (b : pystr) (combos : list (Z * Z * Z)) (score : spec_float) :
  wf_board b → Forall combo_ok combos → ∃ s, MinimaxAI.score_lines b combos score = Ok s.
Proof.
  intros Hwf Hok. revert score. induction Hok as [|combo rest Hc _ IH]; intros score.
  - by exists score.
  - simpl. destruct (score_line_ok b combo score Hwf Hc) as (s & ->). apply IH.
Qed.

Lemma score_weights_ok (b : pystr) (pos : Z) (weights : list Z) (score : spec_float) :
  wf_board b → 0 ≤ pos → pos + Z.of_nat (length weights) ≤ 9 →
  Forall (λ w, ∃ f, float_of_int w = Ok f) weights →
  ∃ s, MinimaxAI.score_weights b pos weights score = Ok s.
Proof.
  intros Hwf Hp Hl Hw. revert pos score Hp Hl.
  induction Hw as [|w rest (f & Ef) _ IH]; intros pos score Hp Hl.
  - by exists score.
  - simpl in *. destruct (str_index_wf b pos Hwf) as (c & -> & _); [lia|].
    cbn [mbind res_bind]. rewrite Ef. cbn [mbind res_bind].
    destruct (Ascii.eqb c TicTacToeGame.PLAYER_O); [apply IH; lia|].
    destruct (Ascii.eqb c TicTacToeGame.PLAYER_X); apply IH; lia.
Qed.

Lemma evaluate_wf (ai : MinimaxAI.t) (b : pystr) :
  wf_board b →
  MinimaxAI._evaluate_position ai (TicTacToeGame.Build b) = Ok (static_eval ai b).
Proof.
  intros Hwf.
  assert (∃ v, MinimaxAI._evaluate_position ai (TicTacToeGame.Build b) = Ok v) as [v E].
  { unfold MinimaxAI._evaluate_position, TicTacToeGame.get_board_state.
    cbn [TicTacToeGame.board].
    destruct (score_lines_ok b _ f_0_0 Hwf winning_combinations_ok) as (s & ->).
    cbn [mbind res_bind]. destruct (MinimaxAI.use_position_weights ai).
    - destruct (score_weights_ok b 0 MinimaxAI.POSITION_WEIGHTS s Hwf) as (s' & ->);
        [lia | simpl; lia | | by eexists].
      repeat constructor; eexists; reflexivity.
    - by eexists. }
  unfold static_eval. by rewrite E.
Qed.

(** ** The search on the store computes the functional model *)

Lemma lookup_extend (h h1 : heap) (l : loc) (g : TicTacToeGame.t) :
  h ⊆ h1 → h !! l = Some g → h1 !! l = Some g.
Proof. intros Hs E. eapply lookup_weaken; eauto. Qed.

Lemma max_loop_run (cutoff : bool) (child : loc → pynum → pynum → M pynum)
    (childp : pystr → pynum → pynum → pynum) (h0 : heap) (game : loc) (b : pystr)
    (ms : list Z) :
  wf_board b →
  (∀ m, In m ms → In m (moves b)) →
  (∀ m l h alpha beta, In m ms →
     h !! l = Some (TicTacToeGame.Build (place b m TicTacToeGame.PLAYER_O)) →
     runs h (child l alpha beta) h (childp (place b m TicTacToeGame.PLAYER_O) alpha beta)) →
  ∀ h max_score alpha beta,
    h0 ⊆ h → h !! game = Some (TicTacToeGame.Build b) →
    runs h0 (MinimaxAI.max_loop cutoff child game ms max_score alpha beta) h
      (max_fold cutoff childp b ms max_score alpha beta).
Proof.
  intros Hwf. induction ms as [|m ms IH]; intros Hms Hchild h max_score alpha beta Hs E.
  - by apply runs_ret.
  - cbn [MinimaxAI.max_loop max_fold].
    apply (copy_and_move_run h0 game b m TicTacToeGame.PLAYER_O h); try done.
    { apply Hms. by left. } { by right. }
    intros l h1 Hs1 El.
    eapply runs_call; [apply Hchild; [by left | exact El]|].
    intros h2 Hs2. cbn beta zeta.
    assert (h0 ⊆ h2) as Hs02 by (etrans; [exact Hs|]; by etrans).
    destruct (cutoff && py_le beta _); [by apply runs_ret|].
    apply IH; try done.
    + intros m' Hm'. apply Hms. by right.
    + intros m' l' h' a' b' Hm'. apply Hchild. by right.
    + eapply lookup_extend; [|exact E]. by etrans.
Qed.

Lemma min_loop_run (cutoff : bool) (child : loc → pynum → pynum → M pynum)
    (childp : pystr → pynum → pynum → pynum) (h0 : heap) (game : loc) (b : pystr)
    (ms : list Z) :
  wf_board b →
  (∀ m, In m ms → In m (moves b)) →
  (∀ m l h alpha beta, In m ms →
     h !! l = Some (TicTacToeGame.Build (place b m TicTacToeGame.PLAYER_X)) →
     runs h (child l alpha beta) h (childp (place b m TicTacToeGame.PLAYER_X) alpha beta)) →
  ∀ h min_score alpha beta,
    h0 ⊆ h → h !! game = Some (TicTacToeGame.Build b) →
    runs h0 (MinimaxAI.min_loop cutoff child game ms min_score alpha beta) h
      (min_fold cutoff childp b ms min_score alpha beta).
Proof.
  intros Hwf. induction ms as [|m ms IH]; intros Hms Hchild h min_score alpha beta Hs E.
  - by apply runs_ret.
  - cbn [MinimaxAI.min_loop min_fold].
    apply (copy_and_move_run h0 game b m TicTacToeGame.PLAYER_X h); try done.
    { apply Hms. by left. } { by left. }
    intros l h1 Hs1 El.
    eapply runs_call; [apply Hchild; [by left | exact El]|].
    intros h2 Hs2. cbn beta zeta.
    assert (h0 ⊆ h2) as Hs02 by (etrans; [exact Hs|]; by etrans).
    destruct (cutoff && py_le _ alpha); [by apply runs_ret|].
    apply IH; try done.
    + intros m' Hm'. apply Hms. by right.
    + intros m' l' h' a' b' Hm'. apply Hchild. by right.
    + eapply lookup_extend; [|exact E]. by etrans.
Qed.

(** With fuel for every ply that is left on the board, [minimax_with]
    returns the value of [search] and changes no object of the store it
    was called in. *)
Lemma minimax_with_run (cutoff : bool) (ai : MinimaxAI.t) (fuel : nat) :
  ∀ (b : pystr) (depth : Z) (alpha beta : pynum) (is_maximizing : bool)
    (h : heap) (game : loc),
    wf_board b → (empties b < fuel)%nat →
    h !! game = Some (TicTacToeGame.Build b) →
    runs h (MinimaxAI.minimax_with cutoff fuel ai game depth alpha beta is_maximizing) h
      (search cutoff fuel ai b depth alpha beta is_maximizing).
Proof.
  induction fuel as [|fuel IH]; intros b depth alpha beta is_maximizing h game Hwf Hf E;
    [lia|].
  cbn [MinimaxAI.minimax_with search].
  eapply runs_step; [by apply call_check_winner_run|].
  destruct (outcome b) as [game_over winner] eqn:Eo.
  destruct game_over.
  { unfold terminal_score.
    destruct (option_ascii_eqb winner TicTacToeGame.PLAYER_O); [by apply runs_ret|].
    destruct (option_ascii_eqb winner TicTacToeGame.PLAYER_X); by apply runs_ret. }
  destruct (depth =? 0).
  { eapply runs_step; [by apply deref_run|]. apply runs_lift; [done|]. by apply evaluate_wf. }
  eapply runs_step; [by apply call_get_valid_moves_run|].
  assert (∀ m c, In m (moves b) → player_cell c →
            wf_board (place b m c) ∧ (empties (place b m c) < fuel)%nat) as Hchild.
  { intros m c Hm Hc. split; [by apply place_moves_wf|].
    assert (c ≠ TicTacToeGame.EMPTY) as Hne by (destruct Hc as [-> | ->]; done).
    pose proof (empties_place b m c Hwf Hm Hne). lia. }
  destruct is_maximizing.
  - apply max_loop_run; try done.
    intros m l h' a' b' Hm El.
    destruct (Hchild m TicTacToeGame.PLAYER_O Hm) as [Hwf' Hf']; [by right|].
    by apply IH.
  - apply min_loop_run; try done.
    intros m l h' a' b' Hm El.
    destruct (Hchild m TicTacToeGame.PLAYER_X Hm) as [Hwf' Hf']; [by left|].
    by apply IH.
Qed.

Lemma empties_le_9 (b : pystr) : wf_board b → (empties b ≤ 9)%nat.
Proof.
  intros [Hl _]. unfold empties. rewrite <- Hl. apply count_occ_bound.
Qed.

(** ** The order of exact values *)

Module XOrd <: TotalOrder.
Definition t := xval.
Definition eq := xeq.
Definition lt := xlt.
Definition le := xle.

Lemma xcompare_refl (x : xval) : xcompare x x = Eq.
Proof. destruct x; simpl; try done. apply Qeq_alt. reflexivity. Qed.

Lemma xcompare_antisym (x y : xval) : xcompare y x = CompOpp (xcompare x y).
Proof. destruct x, y; simpl; try done. symmetry. apply Qcompare_antisym. Qed.

Lemma xeq_trans (x y z : xval) : eq x y → eq y z → eq x z.
Proof.
  unfold eq, xeq. destruct x, y, z; simpl; try done.
  rewrite <- !Qeq_alt. intros H1 H2. by rewrite H1.
Qed.

Lemma xlt_trans (x y z : xval) : lt x y → lt y z → lt x z.
Proof.
  unfold lt, xlt. destruct x, y, z; simpl; try done.
  rewrite <- !Qlt_alt. apply Qlt_trans.
Qed.

Lemma xlt_eq_l (x y z : xval) : eq x y → lt x z → lt y z.
Proof.
  unfold eq, lt, xeq, xlt. destruct x, y, z; simpl; try done.
  rewrite <- Qeq_alt, <- !Qlt_alt. intros H1 H2. by rewrite <- H1.
Qed.

Lemma xlt_eq_r (x y z : xval) : eq x y → lt z x → lt z y.
Proof.
  unfold eq, lt, xeq, xlt. destruct x, y, z; simpl; try done.
  rewrite <- Qeq_alt, <- !Qlt_alt. intros H1 H2. by rewrite <- H1.
Qed.

#[global] Instance eq_equiv : Equivalence eq.
Proof.
  split.
  - intros x. apply xcompare_refl.
  - intros x y H. unfold eq, xeq in *. rewrite xcompare_antisym, H. done.
  - intros x y z. apply xeq_trans.
Qed.

#[global] Instance lt_strorder : StrictOrder lt.
Proof.
  split.
  - intros x H. unfold lt, xlt in H. rewrite xcompare_refl in H. done.
  - intros x y z. apply xlt_trans.
Qed.

#[global] Instance lt_compat : Proper (eq ==> eq ==> iff) lt.
Proof.
  intros x x' Hx y y' Hy. split; intros H.
  - eapply xlt_eq_l; [exact Hx|]. eapply xlt_eq_r; [exact Hy|]. done.
  - eapply xlt_eq_l; [symmetry; exact Hx|]. eapply xlt_eq_r; [symmetry; exact Hy|]. done.
Qed.

Lemma le_lteq (x y : xval) : le x y ↔ lt x y ∨ eq x y.
Proof.
  unfold le, lt, eq, xle, xlt, xeq. destruct (xcompare x y); split; try tauto; try done.
  intros [|]; done.
Qed.

Lemma lt_total (x y : xval) : lt x y ∨ eq x y ∨ lt y x.
Proof.
  unfold lt, eq, xlt, xeq. rewrite (xcompare_antisym x y).
  destruct (xcompare x y); simpl; tauto.
Qed.
End XOrd.

Module XOrdTac := MakeOrderTac XOrd XOrd.

(** ** Comparisons of numbers *)

Lemma py_compare_rank (a b : pynum) :
  number a → number b → py_compare a b = Some (xcompare (rank a) (rank b)).
Proof.
  unfold number, rank, py_compare. destruct (num_val a), (num_val b); done.
Qed.

Lemma py_lt_cases (a b : pynum) :
  number a → number b →
  (py_lt a b = true ∧ a ≺ b) ∨ (py_lt a b = false ∧ b ≼ a).
Proof.
  intros Ha Hb. unfold py_lt, xlt, xle. rewrite py_compare_rank by done.
  rewrite (XOrd.xcompare_antisym (rank a) (rank b)).
  destruct (xcompare (rank a) (rank b)); simpl; [right | left | right]; done.
Qed.

Lemma py_gt_cases (a b : pynum) :
  number a → number b →
  (py_gt a b = true ∧ b ≺ a) ∨ (py_gt a b = false ∧ a ≼ b).
Proof.
  intros Ha Hb. unfold py_gt, xlt, xle. rewrite py_compare_rank by done.
  rewrite (XOrd.xcompare_antisym (rank a) (rank b)).
  destruct (xcompare (rank a) (rank b)); simpl; [right | right | left]; done.
Qed.

Lemma py_le_cases (a b : pynum) :
  number a → number b →
  (py_le a b = true ∧ a ≼ b) ∨ (py_le a b = false ∧ b ≺ a).
Proof.
  intros Ha Hb. unfold py_le, xlt, xle. rewrite py_compare_rank by done.
  rewrite (XOrd.xcompare_antisym (rank a) (rank b)).
  destruct (xcompare (rank a) (rank b)); simpl; [left | left | right]; done.
Qed.

Lemma py_eq_true (a b : pynum) :
  number a → number b → a ≈ b → py_eq a b = true.
Proof.
  intros Ha Hb H. unfold py_eq. rewrite py_compare_rank by done.
  unfold xeq in H. by rewrite H.
Qed.

Lemma py_max_cases (a b : pynum) :
  number a → number b →
  (py_max a b = b ∧ a ≺ b) ∨ (py_max a b = a ∧ b ≼ a).
Proof.
  intros Ha Hb. unfold py_max.
  destruct (py_gt_cases b a Hb Ha) as [[-> H] | [-> H]]; [left | right]; done.
Qed.

Lemma py_min_cases (a b : pynum) :
  number a → number b →
  (py_min a b = b ∧ b ≺ a) ∨ (py_min a b = a ∧ a ≼ b).
Proof.
  intros Ha Hb. unfold py_min.
  destruct (py_lt_cases b a Hb Ha) as [[-> H] | [-> H]]; [left | right]; done.
Qed.

Lemma number_neg_inf : number (PFloat f_neg_inf).
Proof. done. Qed.

Lemma number_inf : number (PFloat f_inf).
Proof. done. Qed.

Lemma number_int (z : Z) : number (PInt z).
Proof. done. Qed.

Lemma neg_inf_least (v : pynum) : PFloat f_neg_inf ≼ v.
Proof. unfold xle. simpl. by destruct (rank v). Qed.

Lemma inf_greatest (v : pynum) : number v → v ≼ PFloat f_inf.
Proof.
  unfold xle, number, rank. destruct (num_val v) as [[]|]; done.
Qed.

(** ** Alpha-beta pruning *)

Ltac order := XOrdTac.order.

(** Discharge the premises of the implications at hand that follow from
    the order facts at hand. *)
Ltac feed_order :=
  repeat match goal with
         | H : ?P → ?Q |- _ =>
             let HP := fresh in
             assert P as HP by order; specialize (H HP)
         | H : ?P → ?P' → ?Q |- _ =>
             let HP := fresh in
             let HP' := fresh in
             assert P as HP by order; assert P' as HP' by order;
             specialize (H HP HP')
         end.

Ltac solve_bounds :=
  unfold bounds; repeat split; try done; intros; feed_order; try order.

Lemma max_fold_ext (cutoff : bool) (child child' : pystr → pynum → pynum → pynum)
    (b : pystr) (ms : list Z) :
  (∀ m alpha beta, In m ms →
     child (place b m TicTacToeGame.PLAYER_O) alpha beta
     = child' (place b m TicTacToeGame.PLAYER_O) alpha beta) →
  ∀ max_score alpha beta,
    max_fold cutoff child b ms max_score alpha beta
    = max_fold cutoff child' b ms max_score alpha beta.
Proof.
  induction ms as [|m ms IH]; intros H max_score alpha beta; [done|].
  cbn [max_fold]. rewrite H by (by left).
  destruct (cutoff && _); [done|]. apply IH. intros m' a' b' Hm'. apply H. by right.
Qed.

Lemma min_fold_ext (cutoff : bool) (child child' : pystr → pynum → pynum → pynum)
    (b : pystr) (ms : list Z) :
  (∀ m alpha beta, In m ms →
     child (place b m TicTacToeGame.PLAYER_X) alpha beta
     = child' (place b m TicTacToeGame.PLAYER_X) alpha beta) →
  ∀ min_score alpha beta,
    min_fold cutoff child b ms min_score alpha beta
    = min_fold cutoff child' b ms min_score alpha beta.
Proof.
  induction ms as [|m ms IH]; intros H min_score alpha beta; [done|].
  cbn [min_fold]. rewrite H by (by left).
  destruct (cutoff && _); [done|]. apply IH. intros m' a' b' Hm'. apply H. by right.
Qed.

(** Without the cut-off the window is threaded through the loops but
    never read. *)
Lemma max_fold_nocut_window (value : pystr → pynum) (b : pystr) (ms : list Z) :
  ∀ max_score alpha beta alpha' beta',
    max_fold false (λ c _ _, value c) b ms max_score alpha beta
    = max_fold false (λ c _ _, value c) b ms max_score alpha' beta'.
Proof.
  induction ms as [|m ms IH]; intros; [done|]. cbn [max_fold andb]. apply IH.
Qed.

Lemma min_fold_nocut_window (value : pystr → pynum) (b : pystr) (ms : list Z) :
  ∀ min_score alpha beta alpha' beta',
    min_fold false (λ c _ _, value c) b ms min_score alpha beta
    = min_fold false (λ c _ _, value c) b ms min_score alpha' beta'.
Proof.
  induction ms as [|m ms IH]; intros; [done|]. cbn [min_fold andb]. apply IH.
Qed.

Lemma search_nocut_window (ai : MinimaxAI.t) (fuel : nat) :
  ∀ b depth alpha beta alpha' beta' is_maximizing,
    search false fuel ai b depth alpha beta is_maximizing
    = search false fuel ai b depth alpha' beta' is_maximizing.
Proof.
  induction fuel as [|fuel IH]; intros; [done|]. cbn [search].
  destruct (outcome b) as [[] winner]; [done|].
  destruct (depth =? 0); [done|].
  destruct is_maximizing.
  - etrans; [apply (max_fold_ext false _
               (λ c _ _, search false fuel ai c (depth - 1) (PInt 0) (PInt 0) false));
             intros; apply IH|].
    etrans; [apply (max_fold_nocut_window _ _ _ _ alpha beta alpha' beta')|].
    apply max_fold_ext. intros. apply IH.
  - etrans; [apply (min_fold_ext false _
               (λ c _ _, search false fuel ai c (depth - 1) (PInt 0) (PInt 0) true));
             intros; apply IH|].
    etrans; [apply (min_fold_nocut_window _ _ _ _ alpha beta alpha' beta')|].
    apply min_fold_ext. intros. apply IH.
Qed.

Lemma max_fold_nocut_ge (value : pystr → pynum) (b : pystr) (ms : list Z) :
  (∀ m, In m ms → number (value (place b m TicTacToeGame.PLAYER_O))) →
  ∀ max_score alpha beta,
    number max_score →
    number (max_fold false (λ c _ _, value c) b ms max_score alpha beta)
    ∧ max_score ≼ max_fold false (λ c _ _, value c) b ms max_score alpha beta.
Proof.
  induction ms as [|m ms IH]; intros Hv max_score alpha beta Hn.
  - split; [done | cbn [max_fold min_fold]; order].
  - cbn [max_fold andb].
    assert (number (value (place b m TicTacToeGame.PLAYER_O))) as Hm by (apply Hv; by left).
    destruct (py_max_cases max_score _ Hn Hm) as [[-> H] | [-> H]].
    + destruct (IH (λ m' Hm', Hv m' (or_intror Hm')) _
                  (py_max alpha (value (place b m TicTacToeGame.PLAYER_O))) beta Hm)
        as [H1 H2].
      split; [done | order].
    + apply IH; [|done]. intros m' Hm'. apply Hv. by right.
Qed.

Lemma min_fold_nocut_le (value : pystr → pynum) (b : pystr) (ms : list Z) :
  (∀ m, In m ms → number (value (place b m TicTacToeGame.PLAYER_X))) →
  ∀ min_score alpha beta,
    number min_score →
    number (min_fold false (λ c _ _, value c) b ms min_score alpha beta)
    ∧ min_fold false (λ c _ _, value c) b ms min_score alpha beta ≼ min_score.
Proof.
  induction ms as [|m ms IH]; intros Hv min_score alpha beta Hn.
  - split; [done | cbn [max_fold min_fold]; order].
  - cbn [min_fold andb].
    assert (number (value (place b m TicTacToeGame.PLAYER_X))) as Hm by (apply Hv; by left).
    destruct (py_min_cases min_score _ Hn Hm) as [[-> H] | [-> H]].
    + destruct (IH (λ m' Hm', Hv m' (or_intror Hm')) _ alpha
                  (py_min beta (value (place b m TicTacToeGame.PLAYER_X))) Hm)
        as [H1 H2].
      split; [done | order].
    + apply IH; [|done]. intros m' Hm'. apply Hv. by right.
Qed.

Lemma xle_or_lt (x y : xval) : xle x y ∨ xlt y x.
Proof.
  destruct (XOrd.lt_total x y) as [H | [H | H]]; [left | left | right]; try done;
    apply XOrd.le_lteq; tauto.
Qed.

Ltac split_total :=
  match goal with
  | I : xle ?x ?y → _ |- _ => destruct (xle_or_lt x y)
  end.

Lemma max_fold_bounds (with_cut : pystr → pynum → pynum → pynum) (value : pystr → pynum)
    (b : pystr) (ms : list Z) (alpha beta : pynum) :
  number alpha → number beta →
  (∀ m, In m ms →
     number (value (place b m TicTacToeGame.PLAYER_O))
     ∧ ∀ a, number a → a ≺ beta →
         bounds (with_cut (place b m TicTacToeGame.PLAYER_O) a beta)
           (value (place b m TicTacToeGame.PLAYER_O)) a beta) →
  ∀ M T A a' b',
    number M → number T → number A →
    A ≺ beta → alpha ≼ A → M ≼ A → (A ≈ alpha ∨ A ≈ M) →
    (M ≼ alpha → T ≼ M) → (alpha ≺ M → M ≈ T) →
    bounds (max_fold true with_cut b ms M A beta)
      (max_fold false (λ c _ _, value c) b ms T a' b') alpha beta.
Proof.
  intros Na Nb. induction ms as [|m ms IH]; intros Hch M T A a' b' NM NT NA HAb HaA HMA HA I1 I2.
  - cbn [max_fold]. destruct HA; solve_bounds.
  - cbn [max_fold andb].
    destruct (Hch m (or_introl eq_refl)) as [Ntc Hb].
    destruct (Hb A NA HAb) as (Ns & _ & B1 & B2 & B3).
    set (s := with_cut (place b m TicTacToeGame.PLAYER_O) A beta) in *.
    set (tc := value (place b m TicTacToeGame.PLAYER_O)) in *.
    assert (∀ m', In m' ms → number (value (place b m' TicTacToeGame.PLAYER_O))) as Hnum.
    { intros m' Hm'. apply Hch. by right. }
    destruct (xle_or_lt (rank M) (rank alpha)) as [HMa | HMa];
    destruct (py_max_cases M s NM Ns) as [[-> HM'] | [-> HM']];
    destruct (py_max_cases A s NA Ns) as [[-> HA'] | [-> HA']];
    destruct (py_max_cases T tc NT Ntc) as [[-> HT'] | [-> HT']];
    match goal with |- context [py_le beta ?A1] =>
      let NA1 := fresh in
      assert (number A1) as NA1 by done;
      destruct (py_le_cases beta A1 Nb NA1) as [[-> Hcut] | [-> Hcut]]
    end.
    all: try (match goal with |- bounds _ (max_fold false _ _ _ ?T' _ _) _ _ =>
                let NT' := fresh in
                assert (number T') as NT' by done;
                destruct (max_fold_nocut_ge value b ms Hnum T' (py_max a' tc) b' NT') as [? ?]
              end; destruct HA; solve_bounds; fail).
    all: try (apply IH; [intros m' Hm'; apply Hch; by right | done | done | done | ..];
              destruct HA; feed_order; try order; try (left; order); try (right; order);
              intros; feed_order; try order; fail).
Qed.

Lemma min_fold_bounds (with_cut : pystr → pynum → pynum → pynum) (value : pystr → pynum)
    (b : pystr) (ms : list Z) (alpha beta : pynum) :
  number alpha → number beta →
  (∀ m, In m ms →
     number (value (place b m TicTacToeGame.PLAYER_X))
     ∧ ∀ bb, number bb → alpha ≺ bb →
         bounds (with_cut (place b m TicTacToeGame.PLAYER_X) alpha bb)
           (value (place b m TicTacToeGame.PLAYER_X)) alpha bb) →
  ∀ M T B a' b',
    number M → number T → number B →
    alpha ≺ B → B ≼ beta → B ≼ M → (B ≈ beta ∨ B ≈ M) →
    (beta ≼ M → M ≼ T) → (M ≺ beta → M ≈ T) →
    bounds (min_fold true with_cut b ms M alpha B)
      (min_fold false (λ c _ _, value c) b ms T a' b') alpha beta.
Proof.
  intros Na Nb. induction ms as [|m ms IH]; intros Hch M T B a' b' NM NT NB HaB HBb HBM HB I1 I2.
  - cbn [min_fold]. destruct HB; solve_bounds.
  - cbn [min_fold andb].
    destruct (Hch m (or_introl eq_refl)) as [Ntc Hb].
    destruct (Hb B NB HaB) as (Ns & _ & B1 & B2 & B3).
    set (s := with_cut (place b m TicTacToeGame.PLAYER_X) alpha B) in *.
    set (tc := value (place b m TicTacToeGame.PLAYER_X)) in *.
    assert (∀ m', In m' ms → number (value (place b m' TicTacToeGame.PLAYER_X))) as Hnum.
    { intros m' Hm'. apply Hch. by right. }
    destruct (xle_or_lt (rank beta) (rank M)) as [HMb | HMb];
    destruct (py_min_cases M s NM Ns) as [[-> HM'] | [-> HM']];
    destruct (py_min_cases B s NB Ns) as [[-> HB'] | [-> HB']];
    destruct (py_min_cases T tc NT Ntc) as [[-> HT'] | [-> HT']];
    match goal with |- context [py_le ?B1 alpha] =>
      let NB1 := fresh in
      assert (number B1) as NB1 by done;
      destruct (py_le_cases B1 alpha NB1 Na) as [[-> Hcut] | [-> Hcut]]
    end.
    all: try (match goal with |- bounds _ (min_fold false _ _ _ ?T' _ _) _ _ =>
                let NT' := fresh in
                assert (number T') as NT' by done;
                destruct (min_fold_nocut_le value b ms Hnum T' a' (py_min b' tc) NT') as [? ?]
              end; destruct HB; solve_bounds; fail).
    all: try (apply IH; [intros m' Hm'; apply Hch; by right | done | done | done | ..];
              destruct HB; feed_order; try order; try (left; order); try (right; order);
              intros; feed_order; try order; fail).
Qed.

Lemma bounds_refl (v alpha beta : pynum) : number v → bounds v v alpha beta.
Proof. intros Hv. solve_bounds. Qed.

Lemma search_bounds (ai : MinimaxAI.t) (fuel : nat) :
  (∀ b, wf_board b → number (static_eval ai b)) →
  ∀ b depth alpha beta is_maximizing,
    wf_board b → number alpha → number beta → alpha ≺ beta →
    bounds (search true fuel ai b depth alpha beta is_maximizing)
      (search false fuel ai b depth (PFloat f_neg_inf) (PFloat f_inf) is_maximizing)
      alpha beta.
Proof.
  intros Hstatic. induction fuel as [|fuel IH];
    intros b depth alpha beta is_maximizing Hwf Na Nb Hab.
  { by apply bounds_refl. }
  cbn [search]. destruct (outcome b) as [[] winner] eqn:Eo.
  { apply bounds_refl. unfold terminal_score.
    destruct (option_ascii_eqb winner _); [done|]. by destruct (option_ascii_eqb winner _). }
  destruct (depth =? 0); [by apply bounds_refl, Hstatic|].
  set (value := λ c : pystr,
         search false fuel ai c (depth - 1) (PFloat f_neg_inf) (PFloat f_inf)
           (negb is_maximizing)).
  pose proof (neg_inf_least alpha) as Hle.
  pose proof (inf_greatest beta Nb) as Hge.
  destruct is_maximizing.
  - rewrite (max_fold_ext false _ (λ c _ _, value c))
      by (intros; apply search_nocut_window).
    apply max_fold_bounds; try done; try order; try (left; order); try (intros; order).
    intros m Hm.
    assert (wf_board (place b m TicTacToeGame.PLAYER_O)) as Hwf'
      by (apply place_moves_wf; [done | done | by right]).
    split; [by destruct (IH _ (depth - 1) alpha beta false Hwf' Na Nb Hab) as (_ & ? & _)|].
    intros a Ha Hlt. by apply IH.
  - rewrite (min_fold_ext false _ (λ c _ _, value c))
      by (intros; apply search_nocut_window).
    apply min_fold_bounds; try done; try order; try (left; order); try (intros; order).
    intros m Hm.
    assert (wf_board (place b m TicTacToeGame.PLAYER_X)) as Hwf'
      by (apply place_moves_wf; [done | done | by left]).
    split; [by destruct (IH _ (depth - 1) alpha beta true Hwf' Na Nb Hab) as (_ & ? & _)|].
    intros bb Hbb Hlt. by apply IH.
Qed.

Lemma search_full_window (ai : MinimaxAI.t) (fuel : nat) (b : pystr) (depth : Z)
    (is_maximizing : bool) :
  (∀ b, wf_board b → number (static_eval ai b)) → wf_board b →
  search true fuel ai b depth (PFloat f_neg_inf) (PFloat f_inf) is_maximizing
  ≈ search false fuel ai b depth (PFloat f_neg_inf) (PFloat f_inf) is_maximizing.
Proof.
  intros Hstatic Hwf.
  destruct (search_bounds ai fuel Hstatic b depth (PFloat f_neg_inf) (PFloat f_inf)
              is_maximizing Hwf) as (Nv & Nt & B1 & B2 & B3); try done.
  set (v := search true _ _ _ _ _ _ _) in *. set (t := search false _ _ _ _ _ _ _) in *.
  pose proof (neg_inf_least v). pose proof (neg_inf_least t).
  pose proof (inf_greatest v Nv). pose proof (inf_greatest t Nt).
  destruct (xle_or_lt (rank v) (rank (PFloat f_neg_inf)));
    destruct (xle_or_lt (rank (PFloat f_inf)) (rank v)); feed_order; order.
Qed.

(** ** Enumeration of the boards *)

Lemma boards_of_length_complete (b : pystr) :
  forallb TicTacToeGame.is_cell b = true → In b (boards_of_length (length b)).
Proof.
  induction b as [|c b IH]; intros H; [by left|].
  simpl in H. apply andb_true_iff in H as [Hc Hb]. specialize (IH Hb).
  cbn [length boards_of_length]. apply in_flat_map. exists b. split; [done|].
  apply is_cell_spec in Hc as [-> | [-> | ->]]; simpl; auto.
Qed.

Lemma all_boards_complete (b : pystr) : wf_board b → In b all_boards.
Proof.
  intros [Hl Hc]. unfold all_boards. rewrite <- Hl. by apply boards_of_length_complete.
Qed.

Lemma forall_boards (P : pystr → bool) :
  forallb P all_boards = true → ∀ b, wf_board b → P b = true.
Proof.
  intros H b Hwf. rewrite forallb_forall in H. by apply H, all_boards_complete.
Qed.

Lemma finiteb_finite (v : pynum) : finiteb v = true → finite v.
Proof.
  unfold finiteb, finite. destruct v as [z | []]; try done; by eexists.
Qed.

Lemma finite_number (v : pynum) : finite v → number v.
Proof. intros [q H]. unfold number. by rewrite H. Qed.

Lemma finite_above_neg_inf (v : pynum) : finite v → PFloat f_neg_inf ≺ v.
Proof. intros [q H]. unfold xlt, rank. rewrite H. done. Qed.

Lemma static_eval_weights_only (ai : MinimaxAI.t) (b : pystr) :
  static_eval ai b = static_eval (weights_only (MinimaxAI.use_position_weights ai)) b.
Proof. done. Qed.

(** ** The static evaluation in the words of the specification *)

Lemma Z_range_forall (P : Z → bool) (lo : Z) (n : nat) :
  forallb P (Z_range lo n) = true → ∀ z, lo ≤ z < lo + Z.of_nat n → P z = true.
Proof.
  intros H z Hz. rewrite forallb_forall in H. apply H. unfold Z_range.
  apply in_map_iff. exists (Z.to_nat (z - lo)). split; [lia|]. apply in_seq. lia.
Qed.

Lemma line_ops_exact_range : forallb line_ops_exact (Z_range (-40) 81) = true.
Proof. vm_compute. reflexivity. Qed.

Lemma line_ops (z : Z) :
  -40 ≤ z ≤ 40 →
  fadd (Z2F z) f_5_0 = Z2F (z + 5) ∧ fsub (Z2F z) f_4_0 = Z2F (z - 4)
  ∧ fadd (Z2F z) f_1_0 = Z2F (z + 1) ∧ fsub (Z2F z) f_1_0 = Z2F (z - 1)
  ∧ fadd (Z2F z) (SFopp f_4_0) = Z2F (z - 4) ∧ fadd (Z2F z) (SFopp f_1_0) = Z2F (z - 1)
  ∧ fadd (Z2F z) f_0_0 = Z2F z.
Proof.
  intros Hz. pose proof (Z_range_forall _ _ _ line_ops_exact_range z) as H.
  unfold line_ops_exact in H. rewrite !andb_true_iff, !bool_decide_eq_true in H.
  simpl in H. assert (-40 ≤ z < -40 + 81) as Hr by lia. specialize (H Hr). tauto.
Qed.

Lemma str_index_cell (b : pystr) (i : Z) :
  wf_board b → 0 ≤ i ≤ 8 → str_index b i = Ok (cell b i).
Proof.
  intros Hwf Hi. destruct (str_index_wf b i Hwf Hi) as (c & -> & Hn & _).
  unfold cell. by rewrite (nth_error_nth _ _ _ Hn).
Qed.

Lemma line_delta_range (b : pystr) (combo : Z * Z * Z) : -4 ≤ line_delta b combo ≤ 5.
Proof.
  unfold line_delta.
  repeat match goal with |- context [if ?c then _ else _] => destruct c end; lia.
Qed.

Lemma score_line_int (b : pystr) (combo : Z * Z * Z) (z : Z) :
  wf_board b → combo_ok combo → -40 ≤ z ≤ 40 →
  MinimaxAI.score_line b combo (Z2F z) = Ok (Z2F (z + line_delta b combo))
  ∧ fadd (Z2F z) (line_value b combo) = Z2F (z + line_delta b combo).
Proof.
  intros Hwf Hok Hz. destruct combo as [[c0 c1] c2]. destruct Hok as (H0 & H1 & H2).
  simpl in H0, H1, H2. unfold MinimaxAI.score_line, line_delta, line_value, line_cells, holds.
  rewrite !str_index_cell by done. cbn [mbind res_bind fst snd].
  destruct (line_ops z Hz) as (E1 & E2 & E3 & E4 & E5 & E6 & E7).
  repeat match goal with |- context [if ?c then _ else _] => destruct c end;
    rewrite ?Z.add_0_r; split; try done; try congruence;
    first [exact (f_equal Ok E2) | exact (f_equal Ok E4) | exact E5 | exact E6].
Qed.

Lemma score_lines_int (b : pystr) (combos : list (Z * Z * Z)) :
  wf_board b → Forall combo_ok combos →
  ∀ z, -40 + 5 * Z.of_nat (length combos) ≤ z ≤ 40 - 5 * Z.of_nat (length combos) →
    MinimaxAI.score_lines b combos (Z2F z) = Ok (Z2F (lines_total b combos z))
    ∧ fold_left fadd (map (line_value b) combos) (Z2F z) = Z2F (lines_total b combos z)
    ∧ z - 4 * Z.of_nat (length combos) ≤ lines_total b combos z
      ≤ z + 5 * Z.of_nat (length combos).
Proof.
  intros Hwf Hok. induction Hok as [|combo rest Hc _ IH]; intros z Hz.
  - simpl. split; [done|]. split; [done | lia].
  - cbn [length] in Hz. pose proof (line_delta_range b combo) as Hd.
    destruct (score_line_int b combo z Hwf Hc) as [E1 E2]; [lia|].
    cbn [MinimaxAI.score_lines map fold_left lines_total]. rewrite E1, E2.
    cbn [mbind res_bind]. destruct (IH (z + line_delta b combo)) as (E3 & E4 & E5); [lia|].
    split; [done|]. split; [done|]. unfold lines_total in *. cbn [length]. lia.
Qed.

Lemma fsub_finite (x : spec_float) (s : bool) (m : positive) (e : Z) :
  fsub x (S754_finite s m e) = fadd x (S754_finite (negb s) m e).
Proof.
  destruct x as [sx | sx | | sx mx ex]; try done.
  unfold fsub, fadd, SFsub, SFadd. cbv zeta. f_equal.
  destruct s; simpl; lia.
Qed.

Lemma position_weight_cases (p : Z) :
  position_weight p = 2 ∨ position_weight p = 3 ∨ position_weight p = 4.
Proof.
  unfold position_weight.
  destruct ((p =? 0) || (p =? 2) || (p =? 6) || (p =? 8)); [tauto|].
  destruct (p =? 4); tauto.
Qed.

Lemma weight_term (w : Z) :
  w = 2 ∨ w = 3 ∨ w = 4 →
  float_of_int w = Ok (Z2F w)
  ∧ ∀ x, fsub x (fmul f_0_3 (Z2F w)) = fadd x (fmul (SFopp f_0_3) (Z2F w)).
Proof.
  intros [-> | [-> | ->]]; (split; [reflexivity|]); intros x.
  - exact (fsub_finite x false _ _).
  - exact (fsub_finite x false _ _).
  - exact (fsub_finite x false _ _).
Qed.

Lemma Z_range_cons (lo : Z) (n : nat) : Z_range lo (S n) = lo :: Z_range (lo + 1) n.
Proof.
  unfold Z_range. cbn [seq map]. rewrite Z.add_0_r. f_equal.
  rewrite <- seq_shift, map_map. apply map_ext. intros k. lia.
Qed.

Lemma score_weights_spec (b : pystr) :
  ∀ (cells pre : pystr) (s : spec_float),
    b = pre ++ cells →
    MinimaxAI.score_weights b (Z.of_nat (length pre))
      (map position_weight (Z_range (Z.of_nat (length pre)) (length cells))) s
    = Ok (fold_left fadd
            (flat_map cell_value (combine (Z_range (Z.of_nat (length pre)) (length cells)) cells))
            s).
Proof.
  induction cells as [|c cells IH]; intros pre s E; [done|].
  cbn [length]. rewrite Z_range_cons. cbn [map combine flat_map MinimaxAI.score_weights].
  rewrite str_index_nonneg by lia. rewrite Nat2Z.id, E.
  rewrite nth_error_app2 by lia. rewrite Nat.sub_diag. cbn [nth_error mbind res_bind].
  destruct (weight_term _ (position_weight_cases (Z.of_nat (length pre)))) as [Ew Es].
  rewrite Ew. cbn [mbind res_bind]. rewrite <- E.
  specialize (IH (pre ++ [c])). rewrite length_app in IH. cbn [length] in IH.
  replace (Z.of_nat (length pre + 1)) with (Z.of_nat (length pre) + 1) in IH by lia.
  rewrite fold_left_app.
  unfold cell_value at 2.
  destruct (Ascii.eqb c TicTacToeGame.PLAYER_O).
  { cbn [fold_left]. apply IH. rewrite <- app_assoc. done. }
  destruct (Ascii.eqb c TicTacToeGame.PLAYER_X).
  { cbn [fold_left]. rewrite Es. apply IH. rewrite <- app_assoc. done. }
  cbn [fold_left]. apply IH. rewrite <- app_assoc. done.
Qed.

(** The evaluation of the source is the sum that the specification
    describes. *)
Lemma evaluate_position_spec (ai : MinimaxAI.t) (b : pystr) :
  wf_board b →
  MinimaxAI._evaluate_position ai (TicTacToeGame.Build b)
  = Ok (PFloat (static_evaluation (MinimaxAI.use_position_weights ai) b)).
Proof.
  intros Hwf. unfold MinimaxAI._evaluate_position, TicTacToeGame.get_board_state.
  cbn [TicTacToeGame.board].
  destruct (score_lines_int b TicTacToeGame.WINNING_COMBINATIONS Hwf winning_combinations_ok 0)
    as (E1 & E2 & _); [simpl; lia|].
  change (Z2F 0) with f_0_0 in E1, E2. rewrite E1. cbn [mbind res_bind].
  unfold static_evaluation, fsum. rewrite fold_left_app, E2.
  destruct (MinimaxAI.use_position_weights ai); [|done].
  pose proof (score_weights_spec b b [] (Z2F (lines_total b TicTacToeGame.WINNING_COMBINATIONS 0))
                eq_refl) as E3.
  destruct Hwf as [Hl _]. rewrite Hl in E3.
  change (map position_weight (Z_range (Z.of_nat (length [])) 9))
    with MinimaxAI.POSITION_WEIGHTS in E3.
  change (Z_range (Z.of_nat (length [])) 9) with positions in E3.
  change (Z.of_nat (length (@nil ascii))) with 0 in E3. rewrite E3. done.
Qed.

Lemma static_eval_spec (ai : MinimaxAI.t) (b : pystr) :
  wf_board b →
  static_eval ai b = PFloat (static_evaluation (MinimaxAI.use_position_weights ai) b).
Proof. intros Hwf. unfold static_eval. by rewrite evaluate_position_spec. Qed.

(** C6. On a board of nine cells [_evaluate_position] returns the float
    sum, accumulated from 0.0 in the order of the lines and then of the
    cells, of: for each of the 8 winning lines, +5.0 for exactly two O
    and one empty cell, -4.0 for exactly two X and one empty cell, +1.0
    for exactly one O and two empty cells, -1.0 for exactly one X and two
    empty cells, and 0.0 otherwise; and, when position weights are used,
    0.3 * weight for each cell held by O and -0.3 * weight for each cell
    held by X, with weight 3 on corners, 2 on edges and 4 on the center. *)
Theorem evaluate_position_is_spec_sum (ai : MinimaxAI.t) (b : pystr) :
  wf_board b →
  MinimaxAI._evaluate_position ai (TicTacToeGame.Build b)
  = Ok (PFloat (static_evaluation (MinimaxAI.use_position_weights ai) b))
  ∧ MinimaxAI.POSITION_WEIGHTS = map position_weight positions.
Proof.
  intros Hwf. split; [by apply evaluate_position_spec | reflexivity].
Qed.

Lemma evaluate_position_is_spec_sum_witness :
  MinimaxAI._evaluate_position hard (TicTacToeGame.Build (str "XO  X   O"))
  = Ok (PFloat (static_evaluation (MinimaxAI.use_position_weights hard) (str "XO  X   O")))
  ∧ MinimaxAI.POSITION_WEIGHTS = map position_weight positions.
Proof.
  apply (evaluate_position_is_spec_sum hard (str "XO  X   O")). split; reflexivity.
Defined.

(** ** Floats of equal value *)

Lemma digits2_pos_log2 (m : positive) : Z.pos (digits2_pos m) = Z.log2 (Z.pos m) + 1.
Proof.
  assert (∀ p, digits2_pos p = Pos.size p) as E by (induction p; simpl; congruence).
  destruct m; simpl; rewrite ?E; lia.
Qed.

Lemma scaled_pos (m : positive) (e : Z) : (0 < inject_Z (Z.pos m) * 2 ^ e)%Q.
Proof. apply Qmult_lt_0_compat; [done | by apply Qpower_0_lt]. Qed.

Lemma scaled_sign (s : bool) (m : positive) (e : Z) :
  (inject_Z (cond_Zopp s (Z.pos m)) * 2 ^ e
   == if s then - (inject_Z (Z.pos m) * 2 ^ e) else inject_Z (Z.pos m) * 2 ^ e)%Q.
Proof.
  destruct s; [|done]. change (cond_Zopp true (Z.pos m)) with (- Z.pos m).
  rewrite inject_Z_opp. ring.
Qed.

Lemma scaled_eq_le (m1 m2 : positive) (e1 e2 : Z) :
  e1 ≤ e2 →
  (inject_Z (Z.pos m1) * 2 ^ e1 == inject_Z (Z.pos m2) * 2 ^ e2)%Q →
  Z.pos m1 = Z.pos m2 * 2 ^ (e2 - e1).
Proof.
  intros Hle H. apply inject_Z_injective.
  rewrite inject_Z_mult, Zpower_Qpower by lia.
  replace e2 with ((e2 - e1) + e1) in H at 1 by lia.
  rewrite Qpower_plus, Qmult_assoc in H by done.
  apply Qmult_inj_r in H; [done|]. by apply Qpower_not_0.
Qed.

Lemma canonical_le (m1 m2 : positive) (e1 e2 : Z) :
  e1 ≤ e2 →
  canonical_mantissa 53 1024 m1 e1 = true → canonical_mantissa 53 1024 m2 e2 = true →
  (inject_Z (Z.pos m1) * 2 ^ e1 == inject_Z (Z.pos m2) * 2 ^ e2)%Q →
  m1 = m2 ∧ e1 = e2.
Proof.
  intros Hle C1 C2 H. pose proof (scaled_eq_le _ _ _ _ Hle H) as E.
  unfold canonical_mantissa, fexp, emin in C1, C2.
  apply Z.eqb_eq in C1, C2. rewrite digits2_pos_log2 in C1, C2.
  rewrite E, Z.log2_mul_pow2 in C1 by lia.
  assert (e1 = e2) as -> by lia.
  split; [|done]. rewrite Z.sub_diag in E. lia.
Qed.

Lemma canonical_inj (m1 m2 : positive) (e1 e2 : Z) :
  canonical_mantissa 53 1024 m1 e1 = true → canonical_mantissa 53 1024 m2 e2 = true →
  (inject_Z (Z.pos m1) * 2 ^ e1 == inject_Z (Z.pos m2) * 2 ^ e2)%Q →
  m1 = m2 ∧ e1 = e2.
Proof.
  intros C1 C2 H. destruct (Z.le_ge_cases e1 e2) as [Hle | Hle].
  - by apply canonical_le.
  - symmetry in H. destruct (canonical_le _ _ _ _ Hle C2 C1 H) as [-> ->]. done.
Qed.

Lemma float_val_inj (f1 f2 : spec_float) (x1 x2 : xval) :
  canonical f1 = true → canonical f2 = true →
  float_val f1 = Some x1 → float_val f2 = Some x2 → xeq x1 x2 →
  f1 = f2.
Proof.
  unfold canonical. intros C1 C2 E1 E2 H.
  apply andb_true_iff in C1 as [V1 Z1]. apply andb_true_iff in C2 as [V2 Z2].
  destruct f1 as [[]| s1 | | s1 m1 e1], f2 as [[]| s2 | | s2 m2 e2];
    cbn [float_val valid_binary negb] in *; simplify_eq; try done;
    unfold xeq, xcompare in H; try (by destruct s1); try (by destruct s2);
    try (by destruct s1, s2); apply Qeq_alt in H.
  - pose proof (scaled_pos m2 e2). pose proof (scaled_sign s2 m2 e2). destruct s2; lra.
  - pose proof (scaled_pos m1 e1). pose proof (scaled_sign s1 m1 e1). destruct s1; lra.
  - unfold bounded in V1, V2.
    apply andb_true_iff in V1 as [V1 _]. apply andb_true_iff in V2 as [V2 _].
    pose proof (scaled_pos m1 e1). pose proof (scaled_pos m2 e2).
    pose proof (scaled_sign s1 m1 e1). pose proof (scaled_sign s2 m2 e2).
    destruct s1, s2; try lra;
      (destruct (canonical_inj m1 m2 e1 e2 V1 V2) as [-> ->]; [lra | done]).
Qed.

Lemma scaled_below (m : positive) (e k : Z) :
  Z.pos (digits2_pos m) + e ≤ k → (inject_Z (Z.pos m) * 2 ^ e < 2 ^ k)%Q.
Proof.
  intros H. rewrite digits2_pos_log2 in H.
  pose proof (Z.log2_spec (Z.pos m) ltac:(done)) as [_ Hm].
  pose proof (Z.log2_nonneg (Z.pos m)) as Hn.
  assert (inject_Z (Z.pos m) < 2 ^ (Z.succ (Z.log2 (Z.pos m))))%Q as Hq.
  { change 2%Q with (inject_Z 2). rewrite <- Zpower_Qpower by lia. by rewrite <- Zlt_Qlt. }
  eapply Qlt_le_trans.
  - apply Qmult_lt_compat_r; [by apply Qpower_0_lt | exact Hq].
  - rewrite <- Qpower_plus by done. apply Qpower_le_compat_l; [lia | done].
Qed.

(** ** Finiteness of the scores, by enumeration *)

Lemma fast_cell_value_eq (pc : Z * ascii) : fast_cell_value pc = cell_value pc.
Proof.
  destruct pc as [p c]. unfold fast_cell_value, cell_value.
  destruct (position_weight_cases p) as [-> | [-> | ->]]; reflexivity.
Qed.

Lemma static_evaluation_fast (w : bool) (b : pystr) :
  wf_board b → static_evaluation w b = fast_eval w b.
Proof.
  intros Hwf. unfold static_evaluation, fast_eval, fsum. rewrite fold_left_app.
  destruct (score_lines_int b TicTacToeGame.WINNING_COMBINATIONS Hwf winning_combinations_ok 0)
    as (_ & E & _); [simpl; lia|].
  change (Z2F 0) with f_0_0 in E. rewrite E. destruct w; [|done].
  f_equal. clear. induction (combine positions b) as [|pc l IH]; [done|].
  simpl. by rewrite IH, fast_cell_value_eq.
Qed.

Lemma board_scores_tame_all : forallb board_scores_tame all_boards = true.
Proof. vm_compute. reflexivity. Qed.

Lemma tame_finite (f : spec_float) : tame f = true → finite (PFloat f).
Proof.
  unfold tame. intros H. apply andb_true_iff in H as [_ H].
  apply finiteb_finite. by destruct f.
Qed.

Lemma tame_bounds (f : spec_float) :
  tame f = true → PInt (-100) ≺ PFloat f ∧ PFloat f ≺ PInt 100.
Proof.
  unfold tame. intros H. apply andb_true_iff in H as [_ H].
  destruct f as [s | s | | s m e]; try done.
  apply Z.leb_le in H. apply scaled_below in H.
  pose proof (scaled_pos m e) as Hp. pose proof (scaled_sign s m e) as Hs.
  assert (2 ^ 6 == 64)%Q as E by done.
  unfold xlt, rank, num_val, float_val, default, xcompare. cbv [from_option id].
  rewrite <- !Qlt_alt. change (inject_Z (-100)) with (-100)%Q.
  change (inject_Z 100) with 100%Q. destruct s; lra.
Qed.

Lemma int_scores_finite_range : forallb int_scores_finite (Z_range (-128) 257) = true.
Proof. vm_compute. reflexivity. Qed.

Lemma bonus_in (w : Z) : w = 2 ∨ w = 3 ∨ w = 4 → In (bonus w) bonuses.
Proof. intros [-> | [-> | ->]]; vm_compute; tauto. Qed.

Lemma static_eval_tame (ai : MinimaxAI.t) (b : pystr) :
  wf_board b → ∃ f, static_eval ai b = PFloat f ∧ tame f = true.
Proof.
  intros Hwf. rewrite static_eval_spec, static_evaluation_fast by done.
  eexists. split; [done|].
  pose proof (forall_boards _ board_scores_tame_all b Hwf) as H.
  unfold board_scores_tame in H. cbv zeta in H.
  rewrite !andb_true_iff in H. destruct H as (H0 & H1 & _).
  by destruct (MinimaxAI.use_position_weights ai).
Qed.

Lemma static_eval_finite (ai : MinimaxAI.t) (b : pystr) :
  wf_board b → finite (static_eval ai b).
Proof.
  intros Hwf. destruct (static_eval_tame ai b Hwf) as (f & -> & Hf). by apply tame_finite.
Qed.

Lemma static_eval_bonus_finite (ai : MinimaxAI.t) (b : pystr) (w : Z) :
  wf_board b → MinimaxAI.use_position_weights ai = true → w = 2 ∨ w = 3 ∨ w = 4 →
  ∃ f, static_eval ai b = PFloat f ∧ finite (PFloat (fadd f (bonus w))).
Proof.
  intros Hwf Hw Hc. rewrite static_eval_spec, static_evaluation_fast, Hw by done.
  eexists. split; [done|]. apply finiteb_finite.
  pose proof (forall_boards _ board_scores_tame_all b Hwf) as H.
  unfold board_scores_tame in H. cbv zeta in H.
  rewrite !andb_true_iff in H. destruct H as (_ & _ & H).
  rewrite forallb_forall in H. by apply H, bonus_in.
Qed.

Lemma int_bonus_finite (z w : Z) :
  -128 ≤ z ≤ 128 → w = 2 ∨ w = 3 ∨ w = 4 →
  float_of_int z = Ok (Z2F z) ∧ finite (PFloat (fadd (Z2F z) (bonus w))).
Proof.
  intros Hz Hw. pose proof (Z_range_forall _ _ _ int_scores_finite_range z) as H.
  unfold int_scores_finite in H. rewrite andb_true_iff in H.
  destruct H as [H1 H2]; [lia|]. split.
  { destruct (float_of_int z); [|done]. apply bool_decide_eq_true in H1. by subst. }
  apply finiteb_finite. rewrite forallb_forall in H2. by apply H2, bonus_in.
Qed.

(** ** The values that the search returns *)

Lemma leaf_finite (ai : MinimaxAI.t) (bound : Z) (v : pynum) : leaf ai bound v → finite v.
Proof.
  intros [(z & -> & _) | (b' & Hwf & ->)]; [by eexists | by apply static_eval_finite].
Qed.

Lemma leaf_mono (ai : MinimaxAI.t) (bound bound' : Z) (v : pynum) :
  bound ≤ bound' → leaf ai bound v → leaf ai bound' v.
Proof.
  intros Hb [(z & -> & Hz) | H]; [left | by right]. exists z. split; [done | lia].
Qed.

Lemma finite_below_inf (v : pynum) : finite v → v ≺ PFloat f_inf.
Proof. intros [q H]. unfold xlt, rank. rewrite H. done. Qed.

Lemma max_fold_closed (P : pynum → Prop) (cutoff : bool)
    (child : pystr → pynum → pynum → pynum) (b : pystr) (ms : list Z) :
  (∀ v, P v → number v) →
  (∀ m alpha beta, In m ms → P (child (place b m TicTacToeGame.PLAYER_O) alpha beta)) →
  ∀ max_score alpha beta, P max_score → P (max_fold cutoff child b ms max_score alpha beta).
Proof.
  intros HP. induction ms as [|m ms IH]; intros Hch max_score alpha beta HM; [done|].
  cbn [max_fold].
  assert (P (child (place b m TicTacToeGame.PLAYER_O) alpha beta)) as Hs by (apply Hch; by left).
  assert (P (py_max max_score (child (place b m TicTacToeGame.PLAYER_O) alpha beta))) as HM'.
  { destruct (py_max_cases max_score _ (HP _ HM) (HP _ Hs)) as [[-> _] | [-> _]]; done. }
  destruct (cutoff && _); [done|]. apply IH; [|done]. intros m' a' b' Hm'. apply Hch. by right.
Qed.

Lemma min_fold_closed (P : pynum → Prop) (cutoff : bool)
    (child : pystr → pynum → pynum → pynum) (b : pystr) (ms : list Z) :
  (∀ v, P v → number v) →
  (∀ m alpha beta, In m ms → P (child (place b m TicTacToeGame.PLAYER_X) alpha beta)) →
  ∀ min_score alpha beta, P min_score → P (min_fold cutoff child b ms min_score alpha beta).
Proof.
  intros HP. induction ms as [|m ms IH]; intros Hch min_score alpha beta HM; [done|].
  cbn [min_fold].
  assert (P (child (place b m TicTacToeGame.PLAYER_X) alpha beta)) as Hs by (apply Hch; by left).
  assert (P (py_min min_score (child (place b m TicTacToeGame.PLAYER_X) alpha beta))) as HM'.
  { destruct (py_min_cases min_score _ (HP _ HM) (HP _ Hs)) as [[-> _] | [-> _]]; done. }
  destruct (cutoff && _); [done|]. apply IH; [|done]. intros m' a' b' Hm'. apply Hch. by right.
Qed.

(** From the initial [-inf] the first finite score is taken. *)
Lemma max_fold_first (P : pynum → Prop) (cutoff : bool)
    (child : pystr → pynum → pynum → pynum) (b : pystr) (ms : list Z) (alpha beta : pynum) :
  (∀ v, P v → finite v) → ms ≠ [] →
  (∀ m alpha beta, In m ms → P (child (place b m TicTacToeGame.PLAYER_O) alpha beta)) →
  P (max_fold cutoff child b ms (PFloat f_neg_inf) alpha beta).
Proof.
  intros HP Hne Hch. destruct ms as [|m ms]; [done|]. cbn [max_fold].
  assert (P (child (place b m TicTacToeGame.PLAYER_O) alpha beta)) as Hs by (apply Hch; by left).
  pose proof (finite_above_neg_inf _ (HP _ Hs)) as Hlt.
  assert (py_max (PFloat f_neg_inf) (child (place b m TicTacToeGame.PLAYER_O) alpha beta)
          = child (place b m TicTacToeGame.PLAYER_O) alpha beta) as ->.
  { destruct (py_max_cases (PFloat f_neg_inf) _ number_neg_inf
                (finite_number _ (HP _ Hs))) as [[-> _] | [_ H]]; [done | order]. }
  destruct (cutoff && _); [done|].
  apply max_fold_closed; [intros; by apply finite_number, HP | | done].
  intros m' a' b' Hm'. apply Hch. by right.
Qed.

Lemma min_fold_first (P : pynum → Prop) (cutoff : bool)
    (child : pystr → pynum → pynum → pynum) (b : pystr) (ms : list Z) (alpha beta : pynum) :
  (∀ v, P v → finite v) → ms ≠ [] →
  (∀ m alpha beta, In m ms → P (child (place b m TicTacToeGame.PLAYER_X) alpha beta)) →
  P (min_fold cutoff child b ms (PFloat f_inf) alpha beta).
Proof.
  intros HP Hne Hch. destruct ms as [|m ms]; [done|]. cbn [min_fold].
  assert (P (child (place b m TicTacToeGame.PLAYER_X) alpha beta)) as Hs by (apply Hch; by left).
  pose proof (finite_below_inf _ (HP _ Hs)) as Hlt.
  assert (py_min (PFloat f_inf) (child (place b m TicTacToeGame.PLAYER_X) alpha beta)
          = child (place b m TicTacToeGame.PLAYER_X) alpha beta) as ->.
  { destruct (py_min_cases (PFloat f_inf) _ number_inf
                (finite_number _ (HP _ Hs))) as [[-> _] | [_ H]]; [done | order]. }
  destruct (cutoff && _); [done|].
  apply min_fold_closed; [intros; by apply finite_number, HP | | done].
  intros m' a' b' Hm'. apply Hch. by right.
Qed.

Lemma search_leaf (cutoff : bool) (ai : MinimaxAI.t) (fuel : nat) :
  ∀ b depth alpha beta is_maximizing,
    wf_board b → (empties b < fuel)%nat →
    leaf ai (100 + Z.abs depth + Z.of_nat (empties b))
      (search cutoff fuel ai b depth alpha beta is_maximizing).
Proof.
  induction fuel as [|fuel IH]; intros b depth alpha beta is_maximizing Hwf Hf; [lia|].
  cbn [search]. destruct (outcome b) as [game_over winner] eqn:Eo. destruct game_over.
  { left. unfold terminal_score.
    destruct (option_ascii_eqb winner _); [eexists; split; [done | lia]|].
    destruct (option_ascii_eqb winner _); eexists; (split; [done | lia]). }
  destruct (depth =? 0); [right; by exists b|].
  assert (moves b ≠ []) as Hne by (apply not_over_has_moves; [done | by rewrite Eo]).
  assert (∀ m c d a' b' mx, In m (moves b) → player_cell c → d = depth - 1 →
            leaf ai (100 + Z.abs depth + Z.of_nat (empties b))
              (search cutoff fuel ai (place b m c) d a' b' mx)) as Hch.
  { intros m c d a' b' mx Hm Hc ->.
    assert (c ≠ TicTacToeGame.EMPTY) as Hcn by (destruct Hc as [-> | ->]; done).
    pose proof (empties_place b m c Hwf Hm Hcn) as He.
    eapply leaf_mono; [|apply IH; [by apply place_moves_wf | lia]]. lia. }
  destruct is_maximizing.
  - apply (max_fold_first (leaf ai _)); [apply leaf_finite | done |].
    intros m a' b' Hm. apply Hch; [done | by right | done].
  - apply (min_fold_first (leaf ai _)); [apply leaf_finite | done |].
    intros m a' b' Hm. apply Hch; [done | by left | done].
Qed.

(** ** The scores of the search, by kind *)

Lemma py_int_le (z z' : Z) : z ≤ z' → PInt z ≼ PInt z'.
Proof.
  intros H. unfold xle, rank, num_val, default, xcompare. cbv [from_option id].
  by rewrite <- Qle_alt, <- Zle_Qle.
Qed.

Lemma py_int_eq (z z' : Z) : PInt z ≈ PInt z' → z = z'.
Proof.
  unfold xeq, rank, num_val, default, xcompare. cbv [from_option id].
  rewrite <- Qeq_alt. apply inject_Z_injective.
Qed.

Lemma outcome_over (b : pystr) (winner : option ascii) :
  wf_board b → outcome b = (true, winner) →
  match winner with
  | Some p => player_cell p
  | None => empties b = 0%nat
  end.
Proof.
  intros Hwf Ho. pose proof (outcome_wf b Hwf) as Hc.
  unfold TicTacToeGame.check_winner in Hc. cbn [TicTacToeGame.board] in Hc.
  destruct (first_winner_spec b _ Hwf winning_combinations_ok) as (w & Ew & Hw).
  rewrite Ew, Ho in Hc. cbn [mbind res_bind] in Hc. destruct w as [p|].
  - injection Hc as <-. by destruct Hw as (_ & _ & _ & _ & Hp & _).
  - destruct (existsb (Ascii.eqb TicTacToeGame.EMPTY) b) eqn:E; [done|].
    injection Hc as <-. apply count_occ_not_In. rewrite <- existsb_empty, E. done.
Qed.

Lemma has_moves_empties (b : pystr) : moves b ≠ [] → (0 < empties b)%nat.
Proof.
  intros H. unfold empties. apply count_occ_In.
  destruct (in_dec ascii_dec TicTacToeGame.EMPTY b) as [|Hn]; [done|].
  by apply moves_empty_iff in Hn.
Qed.

Lemma within_horizon_spec (b : pystr) (depth : Z) :
  within_horizon b depth = true ↔ 0 ≤ depth < Z.of_nat (empties b).
Proof. unfold within_horizon. rewrite andb_true_iff, Z.leb_le, Z.ltb_lt. done. Qed.

Lemma score_kind_finite (ai : MinimaxAI.t) (cut : bool) (v : pynum) :
  score_kind ai cut v → finite v.
Proof.
  intros [(z & -> & _) | (_ & b' & Hwf & ->)]; [by eexists | by apply static_eval_finite].
Qed.

Lemma search_kind (cutoff : bool) (ai : MinimaxAI.t) (fuel : nat) :
  ∀ b depth alpha beta is_maximizing,
    wf_board b → (empties b < fuel)%nat →
    score_kind ai (within_horizon b depth)
      (search cutoff fuel ai b depth alpha beta is_maximizing).
Proof.
  induction fuel as [|fuel IH]; intros b depth alpha beta is_maximizing Hwf Hf; [lia|].
  cbn [search]. destruct (outcome b) as [game_over winner] eqn:Eo. destruct game_over.
  { left. pose proof (outcome_over b winner Hwf Eo) as Hw.
    unfold terminal_score. setoid_rewrite within_horizon_spec. destruct winner as [p|].
    - destruct Hw as [-> | ->]; simpl; eexists; (split; [done | lia]).
    - simpl. rewrite Hw. exists 0. split; [done | lia]. }
  assert (moves b ≠ []) as Hne by (apply not_over_has_moves; [done | by rewrite Eo]).
  pose proof (has_moves_empties b Hne) as Hpos.
  destruct (Z.eqb_spec depth 0) as [-> | Hd].
  { right. split; [apply within_horizon_spec; lia | by exists b]. }
  assert (∀ m c d a' b' mx, In m (moves b) → player_cell c → d = depth - 1 →
            score_kind ai (within_horizon b depth)
              (search cutoff fuel ai (place b m c) d a' b' mx)) as Hch.
  { intros m c d a' b' mx Hm Hc ->.
    assert (c ≠ TicTacToeGame.EMPTY) as Hcn by (destruct Hc as [-> | ->]; done).
    pose proof (empties_place b m c Hwf Hm Hcn) as He.
    replace (within_horizon b depth) with (within_horizon (place b m c) (depth - 1)).
    { apply IH; [by apply place_moves_wf | lia]. }
    apply eq_true_iff_eq. rewrite !within_horizon_spec. lia. }
  destruct is_maximizing.
  - apply (max_fold_first (score_kind ai _)); [apply score_kind_finite | done |].
    intros m a' b' Hm. apply Hch; [done | by right | done].
  - apply (min_fold_first (score_kind ai _)); [apply score_kind_finite | done |].
    intros m a' b' Hm. apply Hch; [done | by left | done].
Qed.

Lemma score_kind_inj (ai : MinimaxAI.t) (cut : bool) (v v' : pynum) :
  score_kind ai cut v → score_kind ai cut v' → v ≈ v' → v = v'.
Proof.
  assert (∀ z b', 100 ≤ Z.abs z → wf_board b' → ¬ PInt z ≈ static_eval ai b') as Hmix.
  { intros z b' Hz Hwf H. destruct (static_eval_tame ai b' Hwf) as (f & E & Hf).
    rewrite E in H. apply tame_bounds in Hf as [Hlo Hhi].
    destruct (Z.le_ge_cases 0 z).
    - pose proof (py_int_le 100 z ltac:(lia)). order.
    - pose proof (py_int_le z (-100) ltac:(lia)). order. }
  intros [(z & -> & Hz) | (Hc & b1 & Hwf1 & ->)] [(z' & -> & Hz') | (Hc' & b2 & Hwf2 & ->)] H.
  - f_equal. by apply py_int_eq.
  - exfalso. apply (Hmix z b2); auto.
  - exfalso. apply (Hmix z' b1); auto. order.
  - destruct (static_eval_tame ai b1 Hwf1) as (f1 & E1 & Hf1).
    destruct (static_eval_tame ai b2 Hwf2) as (f2 & E2 & Hf2).
    rewrite E1, E2 in *. f_equal.
    unfold tame in Hf1, Hf2.
    apply andb_true_iff in Hf1 as [C1 F1]. apply andb_true_iff in Hf2 as [C2 F2].
    destruct (float_val f1) as [x1|] eqn:V1; [|by destruct f1].
    destruct (float_val f2) as [x2|] eqn:V2; [|by destruct f2].
    apply (float_val_inj f1 f2 x1 x2); try done.
    unfold rank, num_val in H. by rewrite V1, V2 in H.
Qed.

(** With the full window the cut-offs do not change the score. *)
Lemma search_same_score (ai : MinimaxAI.t) (fuel : nat) (b : pystr) (depth : Z)
    (is_maximizing : bool) :
  wf_board b → (empties b < fuel)%nat →
  search true fuel ai b depth (PFloat f_neg_inf) (PFloat f_inf) is_maximizing
  = search false fuel ai b depth (PFloat f_neg_inf) (PFloat f_inf) is_maximizing.
Proof.
  intros Hwf Hf.
  assert (∀ b', wf_board b' → number (static_eval ai b')) as Hstatic
    by (intros b' Hb'; by apply finite_number, static_eval_finite).
  eapply score_kind_inj; [by apply search_kind | by apply search_kind |].
  by apply search_full_window.
Qed.

(** ** The choice of the move *)

Lemma init_cases (d : pystr) (ai : MinimaxAI.t) :
  MinimaxAI.__init__ d = Ok ai →
  (MinimaxAI.max_depth ai = 2 ∧ MinimaxAI.randomization ai = f_0_4
   ∧ MinimaxAI.use_position_weights ai = false)
  ∨ (MinimaxAI.max_depth ai = 4 ∧ MinimaxAI.randomization ai = f_0_2
     ∧ MinimaxAI.use_position_weights ai = true)
  ∨ (MinimaxAI.max_depth ai = 9 ∧ MinimaxAI.randomization ai = f_0_0
     ∧ MinimaxAI.use_position_weights ai = true).
Proof.
  unfold MinimaxAI.__init__. destruct (negb _); [done|].
  destruct (pystr_eqb _ (str "easy")); [intros [= <-]; tauto|].
  destruct (pystr_eqb _ (str "medium")); intros [= <-]; tauto.
Qed.

Lemma list_index_weights (m : Z) :
  0 ≤ m ≤ 8 → list_index MinimaxAI.POSITION_WEIGHTS m = Ok (position_weight m).
Proof.
  intros Hm.
  assert (m = 0 ∨ m = 1 ∨ m = 2 ∨ m = 3 ∨ m = 4 ∨ m = 5 ∨ m = 6 ∨ m = 7 ∨ m = 8) as H by lia.
  repeat (destruct H as [-> | H]; [reflexivity|]). by subst.
Qed.

Lemma moves_range (b : pystr) (m : Z) : wf_board b → In m (moves b) → 0 ≤ m ≤ 8.
Proof.
  intros [Hl _] Hm. apply moves_spec in Hm as [Hr _]. unfold len in Hr. lia.
Qed.

Lemma weighted_finite (ai : MinimaxAI.t) (v : pynum) (m : Z) :
  leaf ai 128 v → 0 ≤ m ≤ 8 → ∃ s, weighted ai v m = Ok s ∧ finite s.
Proof.
  intros Hv Hm. unfold weighted.
  destruct (MinimaxAI.use_position_weights ai) eqn:Hw;
    [|exists v; split; [done | by eapply leaf_finite]].
  rewrite list_index_weights by done. cbn [mbind res_bind].
  pose proof (position_weight_cases m) as Hc.
  destruct (weight_term _ Hc) as [Ew _].
  unfold py_mul, to_float. rewrite Ew. cbn [mbind res_bind].
  change (fmul (Z2F (position_weight m)) f_0_1) with (bonus (position_weight m)).
  destruct Hv as [(z & -> & Hz) | (b' & Hwf & ->)].
  - destruct (int_bonus_finite z _ Hz Hc) as [Ez Hfin].
    unfold py_add, to_float. rewrite Ez. cbn [mbind res_bind]. by eexists.
  - destruct (static_eval_bonus_finite ai b' _ Hwf Hw Hc) as (f & -> & Hfin).
    unfold py_add, to_float. cbn [mbind res_bind]. by eexists.
Qed.

Lemma candidate_score_finite (fuel : nat) (ai : MinimaxAI.t) (b : pystr) (m : Z) :
  wf_board b → (empties b ≤ fuel)%nat → Z.abs (MinimaxAI.max_depth ai) ≤ 19 →
  In m (moves b) →
  ∃ s, candidate_score fuel ai b m = Ok s ∧ finite s.
Proof.
  intros Hwf Hf Hd Hm. unfold candidate_score.
  assert (player_cell TicTacToeGame.PLAYER_O) as Hc by (by right).
  pose proof (empties_place b m _ Hwf Hm (ltac:(done) : TicTacToeGame.PLAYER_O ≠ TicTacToeGame.EMPTY)) as He.
  pose proof (empties_le_9 b Hwf) as H9.
  apply weighted_finite; [|by eapply moves_range].
  eapply leaf_mono; [|apply search_leaf; [by apply place_moves_wf | lia]]. lia.
Qed.

Lemma best_fold_nonempty (fuel : nat) (ai : MinimaxAI.t) (b : pystr) (ms : list Z) :
  (∀ m, In m ms → ∃ s, candidate_score fuel ai b m = Ok s ∧ finite s) →
  ∀ best_score best_moves,
    number best_score → best_moves ≠ [] →
    ∃ r, best_fold fuel ai b ms best_score best_moves = Ok r
         ∧ r.2 ≠ [] ∧ ∀ x, In x r.2 → In x best_moves ∨ In x ms.
Proof.
  induction ms as [|m ms IH]; intros Hc best_score best_moves Hn Hne.
  - eexists. split; [done|]. split; [done | auto].
  - cbn [best_fold]. destruct (Hc m (or_introl eq_refl)) as (s & -> & Hs).
    cbn [mbind res_bind].
    assert (∀ m', In m' ms → ∃ s, candidate_score fuel ai b m' = Ok s ∧ finite s) as Hc'
      by (intros m' Hm'; apply Hc; by right).
    destruct (py_gt s best_score); [|destruct (py_eq s best_score)].
    + destruct (IH Hc' s [m] (finite_number _ Hs)) as (r & E & Hr & Hin); [done|].
      exists r. split; [done|]. split; [done|].
      intros x Hx. right. destruct (Hin x Hx) as [[<- | []] | H]; [by left | by right].
    + destruct (IH Hc' best_score (best_moves ++ [m]) Hn) as (r & E & Hr & Hin).
      { by destruct best_moves. }
      exists r. split; [done|]. split; [done|].
      intros x Hx. destruct (Hin x Hx) as [H | H]; [|right; by right].
      apply in_app_or in H as [H | [<- | []]]; [by left | right; by left].
    + destruct (IH Hc' best_score best_moves Hn Hne) as (r & E & Hr & Hin).
      exists r. split; [done|]. split; [done|].
      intros x Hx. destruct (Hin x Hx) as [H | H]; [by left | right; by right].
Qed.

Lemma best_fold_first (fuel : nat) (ai : MinimaxAI.t) (b : pystr) (ms : list Z) :
  (∀ m, In m ms → ∃ s, candidate_score fuel ai b m = Ok s ∧ finite s) →
  ms ≠ [] →
  ∃ r, best_fold fuel ai b ms (PFloat f_neg_inf) [] = Ok r
       ∧ r.2 ≠ [] ∧ ∀ x, In x r.2 → In x ms.
Proof.
  intros Hc Hne. destruct ms as [|m ms]; [done|]. cbn [best_fold].
  destruct (Hc m (or_introl eq_refl)) as (s & -> & Hs). cbn [mbind res_bind].
  pose proof (finite_above_neg_inf _ Hs) as Hlt.
  destruct (py_gt_cases s (PFloat f_neg_inf) (finite_number _ Hs) number_neg_inf)
    as [[-> _] | [_ H]]; [|order].
  destruct (best_fold_nonempty fuel ai b ms (λ m' Hm', Hc m' (or_intror Hm')) s [m]
              (finite_number _ Hs)) as (r & E & Hr & Hin); [done|].
  exists r. split; [done|]. split; [done|].
  intros x Hx. destruct (Hin x Hx) as [[<- | []] | H]; [by left | by right].
Qed.

Lemma choice_in (pick : nat) (seq : list Z) :
  seq ≠ [] → ∃ x, choice pick seq = Ok x ∧ In x seq.
Proof.
  intros Hne. unfold choice. destruct seq as [|y seq']; [done|].
  set (l := y :: seq') in *.
  assert (pick mod length l < length l)%nat as Hlt by (apply Nat.mod_upper_bound; done).
  destruct (nth_error l (pick mod length l)) as [x|] eqn:E.
  - exists x. split; [done|]. eapply nth_error_In; eauto.
  - apply nth_error_None in E. lia.
Qed.

(** The functional model of [get_ai_move] returns a valid move, or None
    when there is none. *)
Lemma select_move_spec (fuel : nat) (ai : MinimaxAI.t) (rnd : draws) (b : pystr) :
  wf_board b → (empties b ≤ fuel)%nat → Z.abs (MinimaxAI.max_depth ai) ≤ 19 →
  ∃ r, select_move fuel ai rnd b = Ok r
       ∧ (r = None ↔ moves b = [])
       ∧ ∀ p, r = Some p → In p (moves b).
Proof.
  intros Hwf Hf Hd. unfold select_move.
  destruct (moves b) as [|m0 ms0] eqn:Em.
  { exists None. split; [done|]. split; [done | intros p [=]]. }
  set (ms := m0 :: ms0) in *. assert (ms ≠ []) as Hne by done.
  destruct (py_lt _ _).
  - destruct (choice_in (skip_pick rnd) ms Hne) as (x & -> & Hx). cbn [mbind res_bind].
    exists (Some x). split; [done|]. split; [done|]. by intros p [= <-].
  - destruct (best_fold_first fuel ai b ms) as (r & -> & Hr & Hin); [|done|].
    { intros m Hm. apply candidate_score_finite; try done. by rewrite Em. }
    cbn [mbind res_bind].
    destruct (choice_in (tie_pick rnd) r.2 Hr) as (x & -> & Hx). cbn [mbind res_bind].
    exists (Some x). split; [done|]. split; [done|]. intros p [= <-]. by apply Hin.
Qed.

(** ** [get_ai_move] on the store *)

Lemma weighted_step {B} (h0 : heap) (ai : MinimaxAI.t) (score : pynum) (move : Z)
    (s : pynum) (k : pynum → M B) (h : heap) (v : B) :
  weighted ai score move = Ok s →
  runs h0 (k s) h v →
  runs h0 ((if MinimaxAI.use_position_weights ai
            then w ← lift (list_index MinimaxAI.POSITION_WEIGHTS move);
                 x ← lift (py_mul (PInt w) (PFloat f_0_1));
                 lift (py_add score x)
            else mret score) ≫= k) h v.
Proof.
  unfold weighted. intros E Hk. destruct (MinimaxAI.use_position_weights ai).
  - destruct (list_index MinimaxAI.POSITION_WEIGHTS move) as [w|] eqn:Ew; [|done].
    cbn [mbind res_bind] in E.
    destruct (py_mul (PInt w) (PFloat f_0_1)) as [x|] eqn:Ex; [|done].
    cbn [mbind res_bind] in E.
    eapply runs_step; [|exact Hk].
    unfold mbind, M_bind, lift. cbv beta iota. rewrite Ex. by rewrite E.
  - injection E as <-. eapply runs_step; [|exact Hk]. done.
Qed.

Lemma best_loop_run (fuel : nat) (ai : MinimaxAI.t) (h0 : heap) (game : loc) (b : pystr)
    (ms : list Z) :
  wf_board b → (empties b ≤ fuel)%nat →
  (∀ m, In m ms → In m (moves b)) →
  ∀ h best_score best_moves r,
    h0 ⊆ h → h !! game = Some (TicTacToeGame.Build b) →
    best_fold fuel ai b ms best_score best_moves = Ok r →
    runs h0 (MinimaxAI.best_loop fuel ai game ms best_score best_moves) h r.
Proof.
  intros Hwf Hf. induction ms as [|m ms IH]; intros Hms h best_score best_moves r Hs E Hr.
  - injection Hr as <-. by apply runs_ret.
  - cbn [best_fold] in Hr. cbn [MinimaxAI.best_loop].
    destruct (candidate_score fuel ai b m) as [s|] eqn:Ec; [|done].
    cbn [mbind res_bind] in Hr.
    assert (In m (moves b)) as Hm by (apply Hms; by left).
    assert (player_cell TicTacToeGame.PLAYER_O) as Hc by (by right).
    apply (copy_and_move_run h0 game b m TicTacToeGame.PLAYER_O h); try done.
    intros l h1 Hs1 El.
    eapply runs_call.
    { apply (minimax_with_run true ai fuel (place b m TicTacToeGame.PLAYER_O));
        [by apply place_moves_wf | | exact El].
      pose proof (empties_place b m _ Hwf Hm
                    (ltac:(done) : TicTacToeGame.PLAYER_O ≠ TicTacToeGame.EMPTY)). lia. }
    intros h2 Hs2.
    assert (h0 ⊆ h2) as Hs02 by (etrans; [exact Hs|]; by etrans).
    assert (h2 !! game = Some (TicTacToeGame.Build b)) as E2
      by (eapply lookup_extend; [|exact E]; by etrans).
    assert (∀ m', In m' ms → In m' (moves b)) as Hms' by (intros m' Hm'; apply Hms; by right).
    apply (weighted_step h0 ai _ m s); [exact Ec|].
    destruct (py_gt s best_score); [by apply IH|].
    destruct (py_eq s best_score); by apply IH.
Qed.

Lemma get_ai_move_run (fuel : nat) (ai : MinimaxAI.t) (rnd : draws) (game : loc)
    (b : pystr) (h : heap) (r : option Z) :
  wf_board b → (empties b ≤ fuel)%nat →
  h !! game = Some (TicTacToeGame.Build b) →
  select_move fuel ai rnd b = Ok r →
  runs h (MinimaxAI.get_ai_move fuel ai rnd game) h r.
Proof.
  intros Hwf Hf E Hr. unfold MinimaxAI.get_ai_move, select_move in *.
  eapply runs_step; [by apply call_get_valid_moves_run|].
  destruct (moves b) as [|m0 ms0] eqn:Em.
  { injection Hr as <-. by apply runs_ret. }
  destruct (py_lt _ _).
  - destruct (choice _ _) as [x|] eqn:Ex; [|done].
    injection Hr as <-. eapply runs_step; [reflexivity|]. by apply runs_ret.
  - destruct (best_fold fuel ai b (m0 :: ms0) (PFloat f_neg_inf) []) as [best|] eqn:Eb; [|done].
    cbn [mbind res_bind] in Hr.
    destruct (choice (tie_pick rnd) best.2) as [x|] eqn:Ex; [|done].
    injection Hr as <-.
    eapply runs_call.
    { apply (best_loop_run fuel ai h game b (m0 :: ms0)); try done.
      intros m Hm. by rewrite Em. }
    intros h1 Hs1. eapply runs_step; [|by apply runs_ret].
    unfold lift. by rewrite Ex.
Qed.

(** C7. For each of the three difficulties, on a board of nine cells and
    for every outcome of the random draws, [get_ai_move] returns; it
    returns None exactly when the board has no valid move, that is no
    empty cell; and a position that it returns is one of the valid moves:
    within 0..8, on a cell that is empty in the board of the call. *)
Theorem get_ai_move_returns_valid_move (difficulty : pystr) (ai : MinimaxAI.t)
    (b : pystr) (rnd : draws) (fuel : nat) (game : loc) (h : heap) :
  MinimaxAI.__init__ difficulty = Ok ai →
  wf_board b → (9 < fuel)%nat →
  h !! game = Some (TicTacToeGame.Build b) →
  ∃ r h', MinimaxAI.get_ai_move fuel ai rnd game h = Ok (r, h')
    ∧ (r = None ↔ TicTacToeGame.get_valid_moves (TicTacToeGame.Build b) = [])
    ∧ (r = None ↔ ¬ In TicTacToeGame.EMPTY b)
    ∧ ∀ p, r = Some p →
        In p (TicTacToeGame.get_valid_moves (TicTacToeGame.Build b))
        ∧ 0 ≤ p ≤ 8
        ∧ nth_error b (Z.to_nat p) = Some TicTacToeGame.EMPTY.
Proof.
  intros Hai Hwf Hf E.
  pose proof (empties_le_9 b Hwf) as H9.
  assert (Z.abs (MinimaxAI.max_depth ai) ≤ 19) as Hd.
  { destruct (init_cases _ _ Hai) as [(-> & _) | [(-> & _) | (-> & _)]]; lia. }
  destruct (select_move_spec fuel ai rnd b Hwf) as (r & Er & Hnone & Hsome); [lia | done |].
  destruct (get_ai_move_run fuel ai rnd game b h r Hwf) as (h' & Eh & _); [lia | done | done |].
  exists r, h'. split; [done|]. split; [done|]. split.
  - rewrite Hnone. apply moves_empty_iff.
  - intros p Hp. specialize (Hsome p Hp). split; [done|].
    split; [by eapply moves_range|]. by apply moves_spec in Hsome as [_ ?].
Qed.

Lemma get_ai_move_returns_valid_move_witness :
  ∃ r h',
    MinimaxAI.get_ai_move 10 hard (Draws f_0_0 0 0) 0%nat
      {[ 0%nat := TicTacToeGame.Build (str "XO  X   O") ]} = Ok (r, h')
    ∧ (r = None ↔ TicTacToeGame.get_valid_moves (TicTacToeGame.Build (str "XO  X   O")) = [])
    ∧ (r = None ↔ ¬ In TicTacToeGame.EMPTY (str "XO  X   O"))
    ∧ ∀ p, r = Some p →
        In p (TicTacToeGame.get_valid_moves (TicTacToeGame.Build (str "XO  X   O")))
        ∧ 0 ≤ p ≤ 8
        ∧ nth_error (str "XO  X   O") (Z.to_nat p) = Some TicTacToeGame.EMPTY.
Proof.
  apply (get_ai_move_returns_valid_move (str "HARD") hard (str "XO  X   O")
           (Draws f_0_0 0 0) 10 0%nat).
  - reflexivity.
  - split; reflexivity.
  - lia.
  - apply lookup_singleton_eq.
Defined.

(** C10. For each of the three difficulties, on a board of nine cells and
    for every outcome of the random draws, [get_ai_move] returns and
    leaves the caller's game, and every other object of the store it was
    called in, as they were: the moves of the search are made on copies.
    The same holds for a call of [_minimax]. *)
Theorem get_ai_move_preserves_board (difficulty : pystr) (ai : MinimaxAI.t)
    (b : pystr) (rnd : draws) (fuel : nat) (game : loc) (h : heap) :
  MinimaxAI.__init__ difficulty = Ok ai →
  wf_board b → (9 < fuel)%nat →
  h !! game = Some (TicTacToeGame.Build b) →
  (∃ r h', MinimaxAI.get_ai_move fuel ai rnd game h = Ok (r, h')
     ∧ h' !! game = Some (TicTacToeGame.Build b)
     ∧ ∀ l g, h !! l = Some g → h' !! l = Some g)
  ∧ (∀ depth alpha beta is_maximizing,
       ∃ v h', MinimaxAI._minimax fuel ai game depth alpha beta is_maximizing h = Ok (v, h')
         ∧ h' !! game = Some (TicTacToeGame.Build b)
         ∧ ∀ l g, h !! l = Some g → h' !! l = Some g).
Proof.
  intros Hai Hwf Hf E.
  pose proof (empties_le_9 b Hwf) as H9.
  assert (Z.abs (MinimaxAI.max_depth ai) ≤ 19) as Hd.
  { destruct (init_cases _ _ Hai) as [(-> & _) | [(-> & _) | (-> & _)]]; lia. }
  split.
  - destruct (select_move_spec fuel ai rnd b Hwf) as (r & Er & _); [lia | done |].
    destruct (get_ai_move_run fuel ai rnd game b h r Hwf) as (h' & Eh & Hs); [lia | done | done |].
    exists r, h'. split; [done|]. split; [by eapply lookup_extend|].
    intros l g Hl. by eapply lookup_extend.
  - intros depth alpha beta is_maximizing.
    destruct (minimax_with_run true ai fuel b depth alpha beta is_maximizing h game Hwf)
      as (h' & Eh & Hs); [lia | done |].
    eexists _, h'. split; [exact Eh|]. split; [by eapply lookup_extend|].
    intros l g Hl. by eapply lookup_extend.
Qed.

Lemma get_ai_move_preserves_board_witness :
  (∃ r h',
     MinimaxAI.get_ai_move 10 hard (Draws f_0_0 0 0) 0%nat
       {[ 0%nat := TicTacToeGame.Build (str "XO  X   O") ]} = Ok (r, h')
     ∧ h' !! 0%nat = Some (TicTacToeGame.Build (str "XO  X   O"))
     ∧ ∀ l g, ({[ 0%nat := TicTacToeGame.Build (str "XO  X   O") ]} : heap) !! l = Some g
              → h' !! l = Some g)
  ∧ (∀ depth alpha beta is_maximizing,
       ∃ v h',
         MinimaxAI._minimax 10 hard 0%nat depth alpha beta is_maximizing
           {[ 0%nat := TicTacToeGame.Build (str "XO  X   O") ]} = Ok (v, h')
         ∧ h' !! 0%nat = Some (TicTacToeGame.Build (str "XO  X   O"))
         ∧ ∀ l g, ({[ 0%nat := TicTacToeGame.Build (str "XO  X   O") ]} : heap) !! l = Some g
                  → h' !! l = Some g).
Proof.
  apply (get_ai_move_preserves_board (str "hard") hard (str "XO  X   O")
           (Draws f_0_0 0 0) 10 0%nat).
  - reflexivity.
  - split; reflexivity.
  - lia.
  - apply lookup_singleton_eq.
Defined.


Lemma minimax_terminal (cutoff : bool) (ai : MinimaxAI.t) (b : pystr) (depth : Z)
    (alpha beta : pynum) (is_maximizing : bool) (fuel : nat) (game : loc) (h : heap)
    (winner : option ascii) :
  wf_board b → h !! game = Some (TicTacToeGame.Build b) →
  outcome b = (true, winner) →
  MinimaxAI.minimax_with cutoff (S fuel) ai game depth alpha beta is_maximizing h
  = Ok (terminal_score winner depth, h).
Proof.
  intros Hwf E Ho. cbn [MinimaxAI.minimax_with]. unfold mbind, M_bind.
  rewrite (call_check_winner_run game b h Hwf E), Ho. unfold terminal_score.
  destruct (option_ascii_eqb winner _); [done|]. by destruct (option_ascii_eqb winner _).
Qed.

Lemma minimax_horizon (cutoff : bool) (ai : MinimaxAI.t) (b : pystr)
    (alpha beta : pynum) (is_maximizing : bool) (fuel : nat) (game : loc) (h : heap)
    (winner : option ascii) :
  wf_board b → h !! game = Some (TicTacToeGame.Build b) →
  outcome b = (false, winner) →
  MinimaxAI.minimax_with cutoff (S fuel) ai game 0 alpha beta is_maximizing h
  = Ok (static_eval ai b, h).
Proof.
  intros Hwf E Ho. cbn [MinimaxAI.minimax_with]. unfold mbind, M_bind.
  rewrite (call_check_winner_run game b h Hwf E), Ho. cbn [Z.eqb].
  rewrite (deref_run game _ h E). unfold lift. by rewrite evaluate_wf.
Qed.

(** C5. The non-recursive cases of [_minimax], on a board of nine cells
    and for every depth: when [check_winner] reports the game over the
    score is [100 + depth] for a win of O, [-100 - depth] for a win of X
    and [0] for a draw, whatever the depth, 0 included; when the game is
    not over and [depth == 0], the score is the value of
    [_evaluate_position] on the board.  The store is left as it was. *)
Theorem minimax_base_cases (ai : MinimaxAI.t) (b : pystr) (depth : Z)
    (alpha beta : pynum) (is_maximizing : bool) (fuel : nat) (game : loc) (h : heap) :
  wf_board b → (0 < fuel)%nat →
  h !! game = Some (TicTacToeGame.Build b) →
  ∃ r, TicTacToeGame.check_winner (TicTacToeGame.Build b) = Ok r
    ∧ (r = (true, Some TicTacToeGame.PLAYER_O) →
       MinimaxAI._minimax fuel ai game depth alpha beta is_maximizing h
       = Ok (PInt (100 + depth), h))
    ∧ (r = (true, Some TicTacToeGame.PLAYER_X) →
       MinimaxAI._minimax fuel ai game depth alpha beta is_maximizing h
       = Ok (PInt (-100 - depth), h))
    ∧ (r = (true, None) →
       MinimaxAI._minimax fuel ai game depth alpha beta is_maximizing h = Ok (PInt 0, h))
    ∧ (r.1 = false → depth = 0 →
       ∃ v, MinimaxAI._evaluate_position ai (TicTacToeGame.Build b) = Ok v
            ∧ MinimaxAI._minimax fuel ai game depth alpha beta is_maximizing h = Ok (v, h)).
Proof.
  intros Hwf Hf E. exists (outcome b). split; [by apply outcome_wf|].
  destruct fuel as [|fuel]; [lia|]. unfold MinimaxAI._minimax.
  split; [|split; [|split]].
  - intros Ho. by rewrite (minimax_terminal _ _ b _ _ _ _ _ _ _ _ Hwf E Ho).
  - intros Ho. by rewrite (minimax_terminal _ _ b _ _ _ _ _ _ _ _ Hwf E Ho).
  - intros Ho. by rewrite (minimax_terminal _ _ b _ _ _ _ _ _ _ _ Hwf E Ho).
  - intros Ho ->. destruct (outcome b) as [game_over winner] eqn:Eo.
    simpl in Ho. subst game_over.
    exists (static_eval ai b). split; [by apply evaluate_wf|].
    by apply (minimax_horizon _ _ b _ _ _ _ _ _ winner).
Qed.

Lemma minimax_base_cases_witness :
  ∃ r, TicTacToeGame.check_winner (TicTacToeGame.Build (str "OOOXX X  ")) = Ok r
    ∧ (r = (true, Some TicTacToeGame.PLAYER_O) →
       MinimaxAI._minimax 1 hard 0%nat 0 (PFloat f_neg_inf) (PFloat f_inf) false
         {[ 0%nat := TicTacToeGame.Build (str "OOOXX X  ") ]}
       = Ok (PInt (100 + 0), {[ 0%nat := TicTacToeGame.Build (str "OOOXX X  ") ]}))
    ∧ (r = (true, Some TicTacToeGame.PLAYER_X) →
       MinimaxAI._minimax 1 hard 0%nat 0 (PFloat f_neg_inf) (PFloat f_inf) false
         {[ 0%nat := TicTacToeGame.Build (str "OOOXX X  ") ]}
       = Ok (PInt (-100 - 0), {[ 0%nat := TicTacToeGame.Build (str "OOOXX X  ") ]}))
    ∧ (r = (true, None) →
       MinimaxAI._minimax 1 hard 0%nat 0 (PFloat f_neg_inf) (PFloat f_inf) false
         {[ 0%nat := TicTacToeGame.Build (str "OOOXX X  ") ]}
       = Ok (PInt 0, {[ 0%nat := TicTacToeGame.Build (str "OOOXX X  ") ]}))
    ∧ (r.1 = false → 0 = 0 →
       ∃ v, MinimaxAI._evaluate_position hard (TicTacToeGame.Build (str "OOOXX X  ")) = Ok v
            ∧ MinimaxAI._minimax 1 hard 0%nat 0 (PFloat f_neg_inf) (PFloat f_inf) false
                {[ 0%nat := TicTacToeGame.Build (str "OOOXX X  ") ]}
              = Ok (v, {[ 0%nat := TicTacToeGame.Build (str "OOOXX X  ") ]})).
Proof.
  apply (minimax_base_cases hard (str "OOOXX X  ") 0 (PFloat f_neg_inf) (PFloat f_inf)
           false 1 0%nat).
  - split; reflexivity.
  - lia.
  - apply lookup_singleton_eq.
Defined.

(** C4. On a board of nine cells, for every depth and both values of
    [is_maximizing], [_minimax] called with the window [(-inf, +inf)]
    and the same recursion without the two cut-offs both return, and
    they return the same score, a finite number. *)
Theorem alpha_beta_same_score (ai : MinimaxAI.t) (b : pystr) (depth : Z)
    (is_maximizing : bool) (fuel : nat) (game : loc) (h : heap) :
  wf_board b → (empties b < fuel)%nat →
  h !! game = Some (TicTacToeGame.Build b) →
  ∃ v h1 h2,
    MinimaxAI._minimax fuel ai game depth (PFloat f_neg_inf) (PFloat f_inf) is_maximizing h
    = Ok (v, h1)
    ∧ MinimaxAI.minimax_without_cutoff fuel ai game depth (PFloat f_neg_inf) (PFloat f_inf)
        is_maximizing h
      = Ok (v, h2)
    ∧ finite v.
Proof.
  intros Hwf Hf E.
  destruct (minimax_with_run true ai fuel b depth (PFloat f_neg_inf) (PFloat f_inf)
              is_maximizing h game Hwf Hf E) as (h1 & E1 & _).
  destruct (minimax_with_run false ai fuel b depth (PFloat f_neg_inf) (PFloat f_inf)
              is_maximizing h game Hwf Hf E) as (h2 & E2 & _).
  rewrite <- search_same_score in E2 by done.
  eexists _, h1, h2. split; [exact E1|]. split; [exact E2|].
  eapply score_kind_finite. by apply search_kind.
Qed.

Lemma alpha_beta_same_score_witness :
  ∃ v h1 h2,
    MinimaxAI._minimax 10 hard 0%nat 3 (PFloat f_neg_inf) (PFloat f_inf) true
      {[ 0%nat := TicTacToeGame.Build (str "XO  X   O") ]}
    = Ok (v, h1)
    ∧ MinimaxAI.minimax_without_cutoff 10 hard 0%nat 3 (PFloat f_neg_inf) (PFloat f_inf) true
        {[ 0%nat := TicTacToeGame.Build (str "XO  X   O") ]}
      = Ok (v, h2)
    ∧ finite v.
Proof.
  apply (alpha_beta_same_score hard (str "XO  X   O") 3 true 10 0%nat).
  - split; reflexivity.
  - vm_compute. lia.
  - apply lookup_singleton_eq.
Defined.

(** ** Play *)

(** *** Exhaustive exploration *)

Lemma dedup_from_complete (l : list pystr) :
  ∀ (seen : Pmap pystr) (x : pystr),
    In x l → In x (dedup_from l seen) ∨ seen !! board_key x 1%positive = Some x.
Proof.
  induction l as [|y l IH]; intros seen x Hin; [done|]. cbn [dedup_from].
  destruct Hin as [-> | Hin].
  - destruct (seen !! board_key x 1%positive) as [z|] eqn:E; [|left; by left].
    destruct (pystr_eqb x z) eqn:Ez; [|left; by left].
    apply pystr_eqb_eq in Ez as ->. by right.
  - destruct (seen !! board_key y 1%positive) as [z|] eqn:E.
    + destruct (pystr_eqb y z);
        (destruct (IH seen x Hin) as [H | H]; [left | by right]); [done | by right].
    + destruct (IH (<[board_key y 1%positive := y]> seen) x Hin) as [H | H];
        [left; by right|].
      destruct (decide (board_key y 1%positive = board_key x 1%positive)) as [Ek | Ek].
      * rewrite Ek, lookup_insert_eq in H. injection H as ->. left. by left.
      * rewrite lookup_insert_ne in H by done. by right.
Qed.

Lemma dedup_complete (l : list pystr) (x : pystr) : In x l → In x (dedup l).
Proof.
  intros Hin. destruct (dedup_from_complete l ∅ x Hin) as [H | H]; [done|].
  by rewrite lookup_empty in H.
Qed.

Lemma explore_sound (step : pystr → ascii → pystr → Prop)
    (next : pystr → ascii → list pystr) (ok : pystr → ascii → bool) :
  (∀ b p b', ok b p = true → step b p b' → In b' (next b p)) →
  ∀ n l p, explore next ok n l p = true →
    ∀ b q, reaches step l p b q → ok b q = true.
Proof.
  intros Hnext. induction n as [|n IH]; intros l p He b q Hr.
  - destruct l; [|done]. exfalso. induction Hr; done.
  - cbn [explore] in He. apply andb_true_iff in He as [Hall He].
    rewrite forallb_forall in Hall.
    assert ((In b l ∧ q = p)
            ∨ reaches step (dedup (flat_map (λ b, next b p) l)) (opponent p) b q) as [[Hb ->] | H].
    { clear IH He. induction Hr as [b Hb | b q b' Hr IHr Hs]; [by left | right].
      destruct IHr as [[Hb ->] | H].
      - apply reaches_here, dedup_complete, in_flat_map. exists b.
        split; [done|]. apply Hnext; [by apply Hall | done].
      - by eapply reaches_step. }
    + by apply Hall.
    + by eapply IH.
Qed.

(** *** Moves and outcomes, as booleans *)

Lemma wf_boardb_spec (b : pystr) : wf_boardb b = true ↔ wf_board b.
Proof.
  unfold wf_boardb, wf_board. rewrite andb_true_iff, Nat.eqb_eq. done.
Qed.

Lemma outcome_eqb_spec (r : bool * option ascii) (over : bool) (w : option ascii) :
  outcome_eqb r over w = true ↔ r = (over, w).
Proof.
  destruct r as [o x]. unfold outcome_eqb. cbn [fst snd].
  rewrite andb_true_iff, Bool.eqb_true_iff. split.
  - intros [-> H]. destruct x, w; try done. apply Ascii.eqb_eq in H. by subst.
  - intros [= -> ->]. split; [done|]. destruct w; [apply Ascii.eqb_refl | done].
Qed.

Lemma outcome_not_over (b : pystr) : (outcome b).1 = false → outcome b = (false, None).
Proof.
  unfold outcome, TicTacToeGame.check_winner.
  destruct (TicTacToeGame.first_winner _ _) as [[c|]|]; cbn [mbind res_bind]; try done.
  by destruct (negb _).
Qed.

Lemma check_winner_outcome (b : pystr) (r : bool * option ascii) :
  TicTacToeGame.check_winner (TicTacToeGame.Build b) = Ok r → outcome b = r.
Proof. intros E. unfold outcome. by rewrite E. Qed.

Lemma make_move_true_inv (b : pystr) (m : Z) (c : ascii) (b' : pystr) :
  wf_board b →
  TicTacToeGame.make_move (TicTacToeGame.Build b) m [c] = Ok (true, TicTacToeGame.Build b') →
  player_cell c ∧ In m (moves b) ∧ b' = place b m c.
Proof.
  intros Hwf E. destruct (classic_valid b m [c]) as [Hv | Hv].
  - destruct (make_move_valid b m [c] Hwf Hv) as (c' & [= <-] & Hc & E').
    rewrite E' in E. injection E as <-. split; [done|]. split; [|done].
    destruct Hv as (Hr & _ & Hn). apply moves_spec. destruct Hwf as [Hl _].
    unfold len. split; [lia | done].
  - rewrite make_move_invalid in E by done. done.
Qed.

Lemma legal_move_in (b : pystr) (p : ascii) (b' : pystr) :
  wf_board b → legal_move b p b' →
  player_cell p ∧ In b' (all_moves b p) ∧ wf_board b'.
Proof.
  intros Hwf (Hc & m & Hm). apply check_winner_outcome in Hc.
  destruct (make_move_true_inv b m p b' Hwf Hm) as (Hp & Hin & ->).
  split; [done|]. split; [|by apply place_moves_wf].
  unfold all_moves. rewrite Hc. cbn [fst]. apply in_map_iff. by exists m.
Qed.

Lemma all_moves_legal (b : pystr) (p : ascii) (b' : pystr) :
  wf_board b → player_cell p → In b' (all_moves b p) →
  legal_move b p b' ∧ wf_board b'.
Proof.
  intros Hwf Hp Hin. unfold all_moves in Hin.
  destruct (outcome b).1 eqn:Eo; [done|]. apply outcome_not_over in Eo.
  apply in_map_iff in Hin as (m & <- & Hm).
  split; [|by apply place_moves_wf]. split.
  - by rewrite outcome_wf, Eo.
  - exists m. by apply make_move_moves.
Qed.

Lemma x_wins_at_once_spec (b : pystr) :
  wf_board b → x_wins_at_once b ↔ x_wins_at_onceb b = true.
Proof.
  intros Hwf. unfold x_wins_at_once, x_wins_at_onceb. rewrite existsb_exists. split.
  - intros (b' & Hl & Hw). exists b'.
    destruct (legal_move_in b _ b' Hwf Hl) as (_ & Hin & _). split; [done|].
    apply outcome_eqb_spec. by apply check_winner_outcome.
  - intros (b' & Hin & Ho). exists b'.
    destruct (all_moves_legal b _ b' Hwf (or_introl eq_refl) Hin) as [Hl Hwf'].
    split; [done|]. apply outcome_eqb_spec in Ho. by rewrite outcome_wf, Ho.
Qed.

(** *** The search does not depend on the fuel, once there is enough *)

Lemma search_fuel (cutoff : bool) (ai : MinimaxAI.t) (fuel : nat) :
  ∀ fuel' b depth alpha beta is_maximizing,
    wf_board b → (empties b < fuel)%nat → (empties b < fuel')%nat →
    search cutoff fuel ai b depth alpha beta is_maximizing
    = search cutoff fuel' ai b depth alpha beta is_maximizing.
Proof.
  induction fuel as [|fuel IH]; intros fuel' b depth alpha beta is_maximizing Hwf Hf Hf';
    [lia|].
  destruct fuel' as [|fuel']; [lia|]. cbn [search].
  destruct (outcome b) as [[] winner]; [done|]. destruct (depth =? 0); [done|].
  assert (∀ m c, In m (moves b) → player_cell c →
            wf_board (place b m c) ∧ (empties (place b m c) < fuel)%nat
            ∧ (empties (place b m c) < fuel')%nat) as Hch.
  { intros m c Hm Hc. split; [by apply place_moves_wf|].
    assert (c ≠ TicTacToeGame.EMPTY) as Hne by (destruct Hc as [-> | ->]; done).
    pose proof (empties_place b m c Hwf Hm Hne). lia. }
  destruct is_maximizing.
  - apply max_fold_ext. intros m a' b' Hm.
    destruct (Hch m TicTacToeGame.PLAYER_O Hm) as (? & ? & ?); [by right|]. by apply IH.
  - apply min_fold_ext. intros m a' b' Hm.
    destruct (Hch m TicTacToeGame.PLAYER_X Hm) as (? & ? & ?); [by left|]. by apply IH.
Qed.

Lemma best_fold_fuel (fuel fuel' : nat) (ai : MinimaxAI.t) (b : pystr) (ms : list Z) :
  wf_board b → (empties b ≤ fuel)%nat → (empties b ≤ fuel')%nat →
  (∀ m, In m ms → In m (moves b)) →
  ∀ best_score best_moves,
    best_fold fuel ai b ms best_score best_moves
    = best_fold fuel' ai b ms best_score best_moves.
Proof.
  intros Hwf Hf Hf'. induction ms as [|m ms IH]; intros Hms best_score best_moves; [done|].
  cbn [best_fold].
  assert (candidate_score fuel ai b m = candidate_score fuel' ai b m) as ->.
  { unfold candidate_score. f_equal.
    assert (In m (moves b)) as Hm by (apply Hms; by left).
    pose proof (empties_place b m TicTacToeGame.PLAYER_O Hwf Hm (ltac:(done))).
    apply search_fuel; [apply place_moves_wf; [done | done | by right] | lia | lia]. }
  destruct (candidate_score fuel' ai b m) as [s|]; [|done]. cbn [mbind res_bind].
  assert (∀ m', In m' ms → In m' (moves b)) as Hms' by (intros m' Hm'; apply Hms; by right).
  destruct (py_gt s best_score); [by apply IH|].
  destruct (py_eq s best_score); by apply IH.
Qed.

(** *** What [get_ai_move] returns at difficulty "hard" *)

Lemma unit_float_not_below_zero (u : spec_float) :
  unit_float u → py_lt (PFloat u) (PFloat f_0_0) = false.
Proof.
  intros (q & Hq & H0 & _). unfold py_lt, py_compare. cbn [num_val]. rewrite Hq.
  cbn [float_val f_0_0 xcompare].
  destruct (Qcompare q 0) eqn:E; try done. apply Qlt_alt in E. lra.
Qed.

Lemma choice_inv (pick : nat) (seq : list Z) (x : Z) : choice pick seq = Ok x → In x seq.
Proof.
  unfold choice. destruct seq as [|y seq']; [done|].
  destruct (nth_error _ _) as [z|] eqn:E; [|done]. intros [= <-].
  eapply nth_error_In; eauto.
Qed.

Lemma select_move_hard (fuel : nat) (rnd : draws) (b : pystr) (m : Z) :
  wf_board b → (9 < fuel)%nat → unit_float (random_random rnd) →
  select_move fuel hard rnd b = Ok (Some m) → In m (best_moves b).
Proof.
  intros Hwf Hf Hu. unfold select_move, best_moves.
  pose proof (empties_le_9 b Hwf) as H9.
  destruct (moves b) as [|m0 ms0] eqn:Em; [done|]. rewrite <- Em.
  change (MinimaxAI.randomization hard) with f_0_0.
  rewrite (unit_float_not_below_zero _ Hu).
  rewrite (best_fold_fuel fuel 10 hard b (moves b) Hwf) by (done || lia).
  destruct (best_fold 10 hard b (moves b) (PFloat f_neg_inf) []) as [best|]; [|done].
  cbn [mbind res_bind]. destruct (choice (tie_pick rnd) best.2) as [x|] eqn:Ex; [|done].
  cbn [mbind res_bind]. intros [= <-]. by eapply choice_inv.
Qed.

Lemma hard_depth : Z.abs (MinimaxAI.max_depth hard) ≤ 19.
Proof. done. Qed.

(** At difficulty "hard" and on a board with a valid move, [get_ai_move]
    returns one of the best moves. *)
Lemma get_ai_move_hard (fuel : nat) (rnd : draws) (game : loc) (b : pystr) (h : heap) :
  wf_board b → (9 < fuel)%nat → unit_float (random_random rnd) →
  h !! game = Some (TicTacToeGame.Build b) →
  ∃ r h', MinimaxAI.get_ai_move fuel hard rnd game h = Ok (r, h')
          ∧ (moves b ≠ [] → ∃ m, r = Some m ∧ In m (best_moves b) ∧ In m (moves b)).
Proof.
  intros Hwf Hf Hu E. pose proof (empties_le_9 b Hwf) as H9.
  destruct (select_move_spec fuel hard rnd b Hwf) as (r & Er & Hnone & Hsome);
    [lia | exact hard_depth |].
  destruct (get_ai_move_run fuel hard rnd game b h r Hwf) as (h' & Eh & _); [lia | done | done |].
  exists r, h'. split; [done|]. intros Hne.
  destruct r as [m|]; [|exfalso; apply Hne, Hnone; done].
  exists m. split; [done|]. split; [by eapply select_move_hard | by apply Hsome].
Qed.

(** *** The exploration of legal play *)

Lemma player_cell_b (p : ascii) :
  Ascii.eqb p TicTacToeGame.PLAYER_X || Ascii.eqb p TicTacToeGame.PLAYER_O = true
  ↔ player_cell p.
Proof. unfold player_cell. rewrite orb_true_iff, !Ascii.eqb_eq. done. Qed.

Lemma legal_ok_next (b : pystr) (p : ascii) (b' : pystr) :
  legal_ok b p = true → legal_move b p b' → In b' (all_moves b p).
Proof.
  unfold legal_ok. rewrite !andb_true_iff. intros [[Hwf _] _] Hl.
  apply wf_boardb_spec in Hwf. by destruct (legal_move_in b p b' Hwf Hl) as (_ & ? & _).
Qed.

Lemma legal_play_reaches (b : pystr) (p : ascii) :
  legal_play b p → reaches legal_move [empty_board] TicTacToeGame.PLAYER_X b p.
Proof.
  induction 1 as [|b p b' _ IH Hl]; [apply reaches_here; by left|]. by eapply reaches_step.
Qed.

Lemma legal_exploration :
  explore all_moves legal_ok 10 [empty_board] TicTacToeGame.PLAYER_X = true.
Proof. vm_compute. reflexivity. Qed.

Lemma legal_play_ok (b : pystr) (p : ascii) : legal_play b p → legal_ok b p = true.
Proof.
  intros H. eapply (explore_sound legal_move all_moves legal_ok legal_ok_next);
    [exact legal_exploration | by apply legal_play_reaches].
Qed.

(** * Further properties *)

(** ** The valid moves *)

Lemma empty_cells_from_app (l1 l2 : pystr) :
  ∀ i, TicTacToeGame.empty_cells_from i (l1 ++ l2)
       = TicTacToeGame.empty_cells_from i l1
         ++ TicTacToeGame.empty_cells_from (i + len l1) l2.
Proof.
  induction l1 as [|c l1 IH]; intros i; unfold len; cbn [length app TicTacToeGame.empty_cells_from].
  - by rewrite Z.add_0_r.
  - rewrite IH. unfold len.
    replace (i + 1 + Z.of_nat (length l1)) with (i + Z.of_nat (S (length l1))) by lia.
    by destruct (Ascii.eqb c TicTacToeGame.EMPTY).
Qed.

Lemma empty_cells_from_sorted (b : pystr) :
  ∀ i, StronglySorted Z.lt (TicTacToeGame.empty_cells_from i b).
Proof.
  induction b as [|c b IH]; intros i; cbn [TicTacToeGame.empty_cells_from]; [constructor|].
  destruct (Ascii.eqb c TicTacToeGame.EMPTY); [|apply IH].
  constructor; [apply IH|]. apply List.Forall_forall. intros m Hm.
  apply empty_cells_from_spec in Hm. lia.
Qed.

Lemma empty_cells_from_length (b : pystr) :
  ∀ i, length (TicTacToeGame.empty_cells_from i b) = empties b.
Proof.
  unfold empties. induction b as [|c b IH]; intros i; [done|].
  cbn [TicTacToeGame.empty_cells_from count_occ].
  destruct (Ascii.eqb_spec c TicTacToeGame.EMPTY) as [-> | Hne].
  - destruct (ascii_dec _ _); [|done]. cbn [length]. by rewrite IH.
  - destruct (ascii_dec _ _); [done|]. apply IH.
Qed.

(** The cell of a valid move splits the board. *)
Lemma place_at_position (b : pystr) (m : Z) (c : ascii) :
  wf_board b → In m (moves b) →
  ∃ l1 l2, b = l1 ++ TicTacToeGame.EMPTY :: l2 ∧ place b m c = l1 ++ c :: l2
           ∧ len l1 = m.
Proof.
  intros [Hl _] Hm. apply moves_spec in Hm as [Hr Hn]. unfold len in Hr.
  rewrite place_split by (done || lia).
  destruct (nth_error_split _ _ Hn) as (l1 & l2 & E & Hl1).
  exists l1, l2. split; [done|]. split; [|unfold len; lia].
  rewrite <- Hl1, E.
  rewrite firstn_app, Nat.sub_diag, firstn_all, firstn_O, app_nil_r.
  f_equal. f_equal.
  replace (S (length l1)) with (length (l1 ++ [TicTacToeGame.EMPTY]))
    by (rewrite length_app; simpl; lia).
  replace (l1 ++ TicTacToeGame.EMPTY :: l2) with ((l1 ++ [TicTacToeGame.EMPTY]) ++ l2)
    by (rewrite <- app_assoc; done).
  rewrite skipn_app, Nat.sub_diag, skipn_all. done.
Qed.

Lemma filter_all {A} (f : A → bool) (l : list A) :
  (∀ x, In x l → f x = true) → List.filter f l = l.
Proof.
  induction l as [|x l IH]; intros H; [done|]. cbn [List.filter].
  rewrite (H x) by (by left). f_equal. apply IH. intros y Hy. apply H. by right.
Qed.

Lemma moves_after_place (b : pystr) (m : Z) (c : ascii) :
  wf_board b → In m (moves b) → c ≠ TicTacToeGame.EMPTY →
  moves (place b m c) = List.filter (λ x, negb (x =? m)) (moves b).
Proof.
  intros Hwf Hm Hc. destruct (place_at_position b m c Hwf Hm) as (l1 & l2 & E & -> & Hl1).
  unfold moves, TicTacToeGame.get_valid_moves. cbn [TicTacToeGame.board]. rewrite E.
  rewrite !empty_cells_from_app. cbn [TicTacToeGame.empty_cells_from].
  rewrite Ascii.eqb_refl. destruct (Ascii.eqb_spec c TicTacToeGame.EMPTY) as [|_]; [done|].
  rewrite List.filter_app. cbn [List.filter]. rewrite Z.add_0_l, Hl1, Z.eqb_refl. cbn [negb].
  rewrite !filter_all; [done | |].
  - intros x Hx. apply empty_cells_from_spec in Hx. apply negb_true_iff, Z.eqb_neq. lia.
  - intros x Hx. apply empty_cells_from_spec in Hx. apply negb_true_iff, Z.eqb_neq. lia.
Qed.

(** X1. [get_valid_moves] against [is_valid_move]: on a board of nine
    cells the list holds exactly the positions at which [is_valid_move]
    accepts a move of either player; it is strictly increasing, so no
    position is listed twice, and it has one entry for each empty cell. *)
Theorem get_valid_moves_accepted (b : pystr) (player : ascii) :
  wf_board b → player_cell player →
  StronglySorted Z.lt (TicTacToeGame.get_valid_moves (TicTacToeGame.Build b))
  ∧ length (TicTacToeGame.get_valid_moves (TicTacToeGame.Build b)) = empties b
  ∧ ∀ position,
      In position (TicTacToeGame.get_valid_moves (TicTacToeGame.Build b))
      ↔ TicTacToeGame.is_valid_move (TicTacToeGame.Build b) position [player] = Ok true.
Proof.
  intros Hwf Hp. split; [apply empty_cells_from_sorted|].
  split; [apply empty_cells_from_length|]. intros position.
  destruct (is_valid_move_spec b position [player] Hwf) as (r & -> & Hr).
  change (TicTacToeGame.get_valid_moves (TicTacToeGame.Build b)) with (moves b).
  rewrite moves_spec. pose proof Hwf as [Hl _]. unfold len. rewrite Hl. split.
  - intros [Hr1 Hn]. f_equal. apply Hr. split; [lia|]. split; [|done].
    destruct Hp as [-> | ->]; auto.
  - intros [= ->]. destruct Hr as [Hr _]. destruct (Hr eq_refl) as (Hr1 & _ & Hn).
    split; [lia | done].
Qed.

Lemma get_valid_moves_accepted_witness :
  StronglySorted Z.lt (TicTacToeGame.get_valid_moves (TicTacToeGame.Build (str "XO  X   O")))
  ∧ length (TicTacToeGame.get_valid_moves (TicTacToeGame.Build (str "XO  X   O")))
    = empties (str "XO  X   O")
  ∧ ∀ position,
      In position (TicTacToeGame.get_valid_moves (TicTacToeGame.Build (str "XO  X   O")))
      ↔ TicTacToeGame.is_valid_move (TicTacToeGame.Build (str "XO  X   O")) position
          [TicTacToeGame.PLAYER_O] = Ok true.
Proof.
  apply (get_valid_moves_accepted (str "XO  X   O") TicTacToeGame.PLAYER_O).
  - split; reflexivity.
  - right. reflexivity.
Defined.

(** X2. [make_move] then [get_valid_moves]: an accepted move removes its
    position, and nothing else, from the valid moves; a refused move
    leaves them as they were.  A move is accepted exactly when its
    position is among the valid moves and the player is "X" or "O". *)
Theorem make_move_updates_valid_moves (b : pystr) (position : Z) (player : pystr)
    (ok : bool) (g' : TicTacToeGame.t) :
  wf_board b →
  TicTacToeGame.make_move (TicTacToeGame.Build b) position player = Ok (ok, g') →
  TicTacToeGame.get_valid_moves g'
  = (if ok
     then List.filter (λ m, negb (m =? position))
            (TicTacToeGame.get_valid_moves (TicTacToeGame.Build b))
     else TicTacToeGame.get_valid_moves (TicTacToeGame.Build b))
  ∧ (ok = true
     ↔ In position (TicTacToeGame.get_valid_moves (TicTacToeGame.Build b))
       ∧ (player = [TicTacToeGame.PLAYER_X] ∨ player = [TicTacToeGame.PLAYER_O])).
Proof.
  intros Hwf E. pose proof Hwf as [Hl _].
  change (TicTacToeGame.get_valid_moves (TicTacToeGame.Build b)) with (moves b).
  destruct (classic_valid b position player) as [Hv | Hv].
  - destruct (make_move_valid b position player Hwf Hv) as (c & -> & Hc & E').
    rewrite E' in E. injection E as <- <-.
    assert (In position (moves b)) as Hm.
    { destruct Hv as (Hr & _ & Hn). apply moves_spec. unfold len. split; [lia | done]. }
    split.
    + apply (moves_after_place b position c Hwf Hm). destruct Hc as [-> | ->]; done.
    + split; [|done]. intros _. split; [done|]. destruct Hc as [-> | ->]; auto.
  - rewrite make_move_invalid in E by done. injection E as <- <-.
    split; [done|]. split; [done|]. intros [Hm Hp]. exfalso. apply Hv.
    apply moves_spec in Hm as [Hr Hn]. unfold len in Hr. split; [lia|]. done.
Qed.

Lemma make_move_updates_valid_moves_witness :
  TicTacToeGame.get_valid_moves (TicTacToeGame.Build (str "XO  O   O"))
  = (if true
     then List.filter (λ m, negb (m =? 4))
            (TicTacToeGame.get_valid_moves (TicTacToeGame.Build (str "XO      O")))
     else TicTacToeGame.get_valid_moves (TicTacToeGame.Build (str "XO      O")))
  ∧ (true = true
     ↔ In 4 (TicTacToeGame.get_valid_moves (TicTacToeGame.Build (str "XO      O")))
       ∧ (str "O" = [TicTacToeGame.PLAYER_X] ∨ str "O" = [TicTacToeGame.PLAYER_O])).
Proof.
  apply (make_move_updates_valid_moves (str "XO      O") 4 (str "O") true
           (TicTacToeGame.Build (str "XO  O   O"))).
  - split; reflexivity.
  - reflexivity.
Defined.

(** ** Sequences of calls *)

Lemma make_move_total (b : pystr) (position : Z) (player : pystr) :
  wf_board b →
  ∃ ok b', TicTacToeGame.make_move (TicTacToeGame.Build b) position player
           = Ok (ok, TicTacToeGame.Build b')
           ∧ wf_board b'
           ∧ (∀ i c, nth_error b i = Some c → c ≠ TicTacToeGame.EMPTY →
                     nth_error b' i = Some c)
           ∧ (empties b' ≤ empties b)%nat.
Proof.
  intros Hwf. pose proof Hwf as [Hl _].
  destruct (classic_valid b position player) as [Hv | Hv].
  - destruct (make_move_valid b position player Hwf Hv) as (c & -> & Hc & ->).
    assert (In position (moves b)) as Hm.
    { destruct Hv as (Hr & _ & Hn). apply moves_spec. unfold len. split; [lia | done]. }
    destruct Hv as (Hr & _ & Hn).
    exists true, (place b position c). split; [done|].
    split; [by apply place_moves_wf|]. split.
    + intros i x Hi Hx. rewrite place_nth_other; [done | done | done |].
      intros ->. congruence.
    + assert (c ≠ TicTacToeGame.EMPTY) as Hne by (destruct Hc as [-> | ->]; done).
      pose proof (empties_place b position c Hwf Hm Hne). lia.
  - rewrite make_move_invalid by done. exists false, b. done.
Qed.

(** X3. The class invariant of [TicTacToeGame]: from a constructed game,
    whatever calls of [make_move] are made, with whatever arguments, no
    call raises, the board keeps nine cells each holding a cell value,
    and a cell that holds a mark keeps it: no mark is ever overwritten
    or erased. *)
Theorem make_move_sequences (board_state : option pystr) (g0 g : TicTacToeGame.t) :
  TicTacToeGame.__init__ board_state = Ok g0 →
  after_calls g0 g →
  wf_board (TicTacToeGame.board g)
  ∧ (∀ i c, nth_error (TicTacToeGame.board g0) i = Some c → c ≠ TicTacToeGame.EMPTY →
            nth_error (TicTacToeGame.board g) i = Some c)
  ∧ (empties (TicTacToeGame.board g) ≤ empties (TicTacToeGame.board g0))%nat
  ∧ ∀ position player,
      ∃ ok g', TicTacToeGame.make_move g position player = Ok (ok, g').
Proof.
  intros Hinit Hcalls.
  assert (wf_board (TicTacToeGame.board g0)) as Hwf0.
  { destruct board_state as [s|].
    - apply init_ok_inv in Hinit as [Hwf ->]. done.
    - injection Hinit as <-. split; reflexivity. }
  assert (wf_board (TicTacToeGame.board g)
          ∧ (∀ i c, nth_error (TicTacToeGame.board g0) i = Some c →
                    c ≠ TicTacToeGame.EMPTY →
                    nth_error (TicTacToeGame.board g) i = Some c)
          ∧ (empties (TicTacToeGame.board g) ≤ empties (TicTacToeGame.board g0))%nat)
    as (Hwf & Hkeep & Hle).
  { induction Hcalls as [|g position player ok g' _ IH E]; [done|].
    destruct IH as (Hwf & Hkeep & Hle). destruct g as [b].
    destruct (make_move_total b position player Hwf) as (ok' & b' & E' & Hwf' & Hk' & Hle').
    cbn [TicTacToeGame.board] in *. rewrite E' in E. injection E as _ <-.
    cbn [TicTacToeGame.board]. split; [done|]. split; [|lia].
    intros i c Hi Hc. apply Hk'; [|done]. by apply Hkeep. }
  split; [done|]. split; [done|]. split; [done|]. intros position player.
  destruct g as [b]. destruct (make_move_total b position player Hwf) as (ok & b' & E & _).
  by exists ok, (TicTacToeGame.Build b').
Qed.

Lemma make_move_sequences_witness :
  wf_board (TicTacToeGame.board (TicTacToeGame.Build (str "XO  X    ")))
  ∧ (∀ i c, nth_error (TicTacToeGame.board (TicTacToeGame.Build (str "X        "))) i = Some c →
            c ≠ TicTacToeGame.EMPTY →
            nth_error (TicTacToeGame.board (TicTacToeGame.Build (str "XO  X    "))) i = Some c)
  ∧ (empties (TicTacToeGame.board (TicTacToeGame.Build (str "XO  X    ")))
     ≤ empties (TicTacToeGame.board (TicTacToeGame.Build (str "X        "))))%nat
  ∧ ∀ position player,
      ∃ ok g', TicTacToeGame.make_move (TicTacToeGame.Build (str "XO  X    ")) position player
               = Ok (ok, g').
Proof.
  apply (make_move_sequences (Some (str "X        ")) (TicTacToeGame.Build (str "X        "))
           (TicTacToeGame.Build (str "XO  X    "))).
  - reflexivity.
  - apply (after_call _ (TicTacToeGame.Build (str "XO       ")) 4 (str "X") true).
    + apply (after_call _ (TicTacToeGame.Build (str "XO       ")) 0 (str "O") false).
      * apply (after_call _ (TicTacToeGame.Build (str "X        ")) 1 (str "O") true).
        -- apply after_none.
        -- reflexivity.
      * reflexivity.
    + reflexivity.
Defined.

(** ** A move and the terminal check *)

Lemma not_over_no_line (b : pystr) :
  wf_board b → TicTacToeGame.check_winner (TicTacToeGame.Build b) = Ok (false, None) →
  ∀ combo, In combo TicTacToeGame.WINNING_COMBINATIONS → ¬ line_won b combo.
Proof.
  intros Hwf Hc. unfold TicTacToeGame.check_winner in Hc. cbn [TicTacToeGame.board] in Hc.
  destruct (first_winner_spec b _ Hwf winning_combinations_ok) as (w & Ew & Hw).
  rewrite Ew in Hc. cbn [mbind res_bind] in Hc. by destruct w.
Qed.

Lemma line_full_after_move (b : pystr) (position : Z) (p q : ascii) (combo : Z * Z * Z) :
  wf_board b → In position (moves b) → player_cell q →
  combo_ok combo →
  ¬ line_won b combo →
  line_full (place b position p) combo q →
  q = p ∧ on_line combo position.
Proof.
  intros Hwf Hm Hq Hok Hno Hfull. pose proof Hwf as [Hl _].
  pose proof (moves_range b position Hwf Hm) as Hr.
  destruct combo as [[c0 c1] c2]. destruct Hok as (H0 & H1 & H2).
  destruct Hfull as (F0 & F1 & F2). unfold on_line. cbn [fst snd] in *.
  destruct (decide (c0 = position)) as [-> | N0].
  { rewrite place_nth_same in F0 by done. injection F0 as <-. auto. }
  destruct (decide (c1 = position)) as [-> | N1].
  { rewrite place_nth_same in F1 by done. injection F1 as <-. auto. }
  destruct (decide (c2 = position)) as [-> | N2].
  { rewrite place_nth_same in F2 by done. injection F2 as <-. auto. }
  exfalso. apply Hno. exists q. split; [done|].
  rewrite place_nth_other in F0, F1, F2 by (done || lia). done.
Qed.

Lemma combo_in_ok (combo : Z * Z * Z) :
  In combo TicTacToeGame.WINNING_COMBINATIONS → combo_ok combo.
Proof.
  intros Hin. pose proof winning_combinations_ok as H.
  rewrite List.Forall_forall in H. by apply H.
Qed.

(** X4. A move cannot win the game for the opponent.  When [check_winner]
    reports the game not over and [make_move] accepts a move of
    [player], every winning combination that is fully occupied afterwards
    is occupied by [player] and passes through the cell of the move; so
    [check_winner] then reports a win of [player], a draw, or a game not
    over. *)
Theorem move_wins_only_for_mover (b : pystr) (position : Z) (player : ascii)
    (g' : TicTacToeGame.t) :
  wf_board b →
  TicTacToeGame.check_winner (TicTacToeGame.Build b) = Ok (false, None) →
  TicTacToeGame.make_move (TicTacToeGame.Build b) position [player] = Ok (true, g') →
  (∀ combo q, In combo TicTacToeGame.WINNING_COMBINATIONS → player_cell q →
     line_full (TicTacToeGame.board g') combo q →
     q = player ∧ on_line combo position)
  ∧ ∃ r, TicTacToeGame.check_winner g' = Ok r
         ∧ (r = (true, Some player) ∨ r = (true, None) ∨ r = (false, None)).
Proof.
  intros Hwf Hnot Hmv. destruct g' as [b'].
  destruct (make_move_true_inv b position player b' Hwf Hmv) as (Hp & Hm & ->).
  pose proof (not_over_no_line b Hwf Hnot) as Hno.
  assert (wf_board (place b position player)) as Hwf' by (by apply place_moves_wf).
  assert (∀ combo q, In combo TicTacToeGame.WINNING_COMBINATIONS → player_cell q →
            line_full (place b position player) combo q →
            q = player ∧ on_line combo position) as Hlines.
  { intros combo q Hin Hq Hfull.
    apply (line_full_after_move b position player q combo); try done; auto using combo_in_ok. }
  split; [exact Hlines|].
  exists (outcome (place b position player)). split; [by apply outcome_wf|].
  destruct (outcome (place b position player)) as [[] w] eqn:Eo.
  - pose proof (outcome_wf _ Hwf') as Hc. rewrite Eo in Hc.
    unfold TicTacToeGame.check_winner in Hc. cbn [TicTacToeGame.board] in Hc.
    destruct (first_winner_spec _ _ Hwf' winning_combinations_ok) as (w' & Ew & Hw).
    rewrite Ew in Hc. cbn [mbind res_bind] in Hc. destruct w' as [q|].
    + injection Hc as <-. destruct Hw as (pre & combo & post & E & Hq & Hfull & _).
      destruct (Hlines combo q) as [-> _]; [rewrite E; apply in_elt | done | done |]. auto.
    + destruct (negb _); [|done]. injection Hc as <-. auto.
  - rewrite (outcome_not_over (place b position player)) in Eo by (by rewrite Eo).
    injection Eo as <-. auto.
Qed.

Lemma move_wins_only_for_mover_witness :
  (∀ combo q, In combo TicTacToeGame.WINNING_COMBINATIONS → player_cell q →
     line_full (TicTacToeGame.board (TicTacToeGame.Build (str "XXXOO    "))) combo q →
     q = TicTacToeGame.PLAYER_X ∧ on_line combo 2)
  ∧ ∃ r, TicTacToeGame.check_winner (TicTacToeGame.Build (str "XXXOO    ")) = Ok r
         ∧ (r = (true, Some TicTacToeGame.PLAYER_X) ∨ r = (true, None) ∨ r = (false, None)).
Proof.
  apply (move_wins_only_for_mover (str "XX OO    ") 2 TicTacToeGame.PLAYER_X
           (TicTacToeGame.Build (str "XXXOO    "))).
  - split; reflexivity.
  - reflexivity.
  - reflexivity.
Defined.

(** X5. A finished game stays finished, but [make_move] does not refuse
    moves on a won board.  After a draw no move is accepted.  After a win,
    whatever move is made, [check_winner] still reports a win; yet the
    winner reported can change, when the move completes a combination
    that comes earlier in [WINNING_COMBINATIONS]. *)
Theorem game_over_is_final :
  (∀ (b : pystr) (position : Z) (player : pystr) (ok : bool) (g' : TicTacToeGame.t)
     (w : option ascii),
     wf_board b →
     TicTacToeGame.check_winner (TicTacToeGame.Build b) = Ok (true, w) →
     TicTacToeGame.make_move (TicTacToeGame.Build b) position player = Ok (ok, g') →
     ∃ w', TicTacToeGame.check_winner g' = Ok (true, w')
           ∧ (w = None → ok = false ∧ g' = TicTacToeGame.Build b ∧ w' = None)
           ∧ (w ≠ None → w' ≠ None))
  ∧ ∃ (b : pystr) (position : Z) (g' : TicTacToeGame.t),
      wf_board b
      ∧ TicTacToeGame.check_winner (TicTacToeGame.Build b)
        = Ok (true, Some TicTacToeGame.PLAYER_X)
      ∧ TicTacToeGame.make_move (TicTacToeGame.Build b) position [TicTacToeGame.PLAYER_O]
        = Ok (true, g')
      ∧ TicTacToeGame.check_winner g' = Ok (true, Some TicTacToeGame.PLAYER_O).
Proof.
  split.
  - intros b position player ok g' w Hwf Hc Hmv.
    pose proof (check_winner_outcome b _ Hc) as Ho.
    pose proof (outcome_over b w Hwf Ho) as Hw.
    destruct (classic_valid b position player) as [Hv | Hv].
    + destruct (make_move_valid b position player Hwf Hv) as (c & -> & Hp & E).
      rewrite E in Hmv. injection Hmv as <- <-.
      assert (In position (moves b)) as Hm.
      { destruct Hwf as [Hl _]. destruct Hv as (Hr & _ & Hn). apply moves_spec.
        unfold len. split; [lia | done]. }
      destruct w as [q|].
      * assert (wf_board (place b position c)) as Hwf' by (by apply place_moves_wf).
        assert (∃ combo, In combo TicTacToeGame.WINNING_COMBINATIONS
                         ∧ line_won (place b position c) combo) as (combo & Hin & Hwon).
        { unfold TicTacToeGame.check_winner in Hc. cbn [TicTacToeGame.board] in Hc.
          destruct (first_winner_spec b _ Hwf winning_combinations_ok) as (w' & Ew & Hw').
          rewrite Ew in Hc. cbn [mbind res_bind] in Hc. destruct w' as [q'|].
          - destruct Hw' as (pre & combo & post & E' & Hq & (F0 & F1 & F2) & _).
            exists combo. split; [rewrite E'; apply in_elt|]. exists q'. split; [done|].
            assert (q' ≠ TicTacToeGame.EMPTY) as Hne by (destruct Hq as [-> | ->]; done).
            destruct (make_move_total b position [c] Hwf) as (ok' & b' & E'' & _ & Hk & _).
            rewrite E in E''. injection E'' as _ <-.
            split; [|split]; by apply Hk.
          - by destruct (negb _). }
        pose proof (outcome_wf _ Hwf') as Hc'.
        unfold TicTacToeGame.check_winner in Hc'. cbn [TicTacToeGame.board] in Hc'.
        destruct (first_winner_spec _ _ Hwf' winning_combinations_ok) as (w' & Ew & Hw').
        rewrite Ew in Hc'. cbn [mbind res_bind] in Hc'. destruct w' as [q'|].
        -- exists (Some q'). rewrite outcome_wf by done. by injection Hc' as <-.
        -- exfalso. by apply (Hw' combo).
      * exfalso. assert (moves b ≠ []) as Hne by (intros E'; by rewrite E' in Hm).
        apply has_moves_empties in Hne. lia.
    + rewrite make_move_invalid in Hmv by done. injection Hmv as <- <-.
      exists w. split; [done|]. split; [by intros -> | done].
  - exists (str "OO XXX   "), 2, (TicTacToeGame.Build (str "OOOXXX   ")).
    split; [split; reflexivity|]. split; [reflexivity|]. split; reflexivity.
Qed.

Lemma game_over_is_final_witness :
  ∃ w', TicTacToeGame.check_winner (TicTacToeGame.Build (str "OOOXXX   ")) = Ok (true, w')
        ∧ (Some TicTacToeGame.PLAYER_X = None →
           true = false
           ∧ TicTacToeGame.Build (str "OOOXXX   ") = TicTacToeGame.Build (str "OO XXX   ")
           ∧ w' = None)
        ∧ (Some TicTacToeGame.PLAYER_X ≠ None → w' ≠ None).
Proof.
  apply (proj1 game_over_is_final (str "OO XXX   ") 2 (str "O") true
           (TicTacToeGame.Build (str "OOOXXX   ")) (Some TicTacToeGame.PLAYER_X)).
  - split; reflexivity.
  - reflexivity.
  - reflexivity.
Defined.

(** ** Construction of the AI *)

Lemma lower_char_idem (c : ascii) :
  MinimaxAI.lower_char (MinimaxAI.lower_char c) = MinimaxAI.lower_char c.
Proof. destruct c as [[] [] [] [] [] [] [] []]; reflexivity. Qed.

Lemma lower_idem (s : pystr) : MinimaxAI.lower (MinimaxAI.lower s) = MinimaxAI.lower s.
Proof.
  unfold MinimaxAI.lower. rewrite map_map. apply map_ext. intros c. apply lower_char_idem.
Qed.

Lemma init_lower (d : pystr) : MinimaxAI.__init__ (MinimaxAI.lower d) = MinimaxAI.__init__ d.
Proof. unfold MinimaxAI.__init__. by rewrite lower_idem. Qed.

(** X6. [MinimaxAI(difficulty)] reads its argument without regard to
    case: it succeeds exactly when the lower-cased argument is "easy",
    "medium" or "hard", and raises ValueError otherwise.  The AI holds
    the lower-cased difficulty, with depth 2, randomization 0.4 and no
    position weights for "easy", depth 4, randomization 0.2 and position
    weights for "medium", depth 9, randomization 0.0 and position weights
    for "hard"; and constructing an AI again from the difficulty it holds
    gives an equal AI. *)
Theorem minimax_init_case_insensitive (difficulty : pystr) :
  let d := MinimaxAI.lower difficulty in
  (d = str "easy" ∧ MinimaxAI.__init__ difficulty = Ok (MinimaxAI.Build d 2 f_0_4 false)
   ∨ d = str "medium" ∧ MinimaxAI.__init__ difficulty = Ok (MinimaxAI.Build d 4 f_0_2 true)
   ∨ d = str "hard" ∧ MinimaxAI.__init__ difficulty = Ok (MinimaxAI.Build d 9 f_0_0 true)
   ∨ d ≠ str "easy" ∧ d ≠ str "medium" ∧ d ≠ str "hard"
     ∧ MinimaxAI.__init__ difficulty = Raise ValueError)
  ∧ (∀ difficulty', MinimaxAI.lower difficulty' = d →
       MinimaxAI.__init__ difficulty' = MinimaxAI.__init__ difficulty)
  ∧ (∀ ai, MinimaxAI.__init__ difficulty = Ok ai →
       MinimaxAI.difficulty ai = d
       ∧ MinimaxAI.__init__ (MinimaxAI.difficulty ai) = Ok ai).
Proof.
  intros d. split; [|split].
  - unfold MinimaxAI.__init__. fold d.
    destruct (pystr_eqb d (str "easy")) eqn:E1.
    { apply pystr_eqb_eq in E1. left. by rewrite E1. }
    destruct (pystr_eqb d (str "medium")) eqn:E2.
    { apply pystr_eqb_eq in E2. right. left. by rewrite E2. }
    destruct (pystr_eqb d (str "hard")) eqn:E3.
    { apply pystr_eqb_eq in E3. right. right. left. by rewrite E3. }
    right. right. right. cbn [orb negb].
    repeat split; try done; intros H; apply pystr_eqb_eq in H; congruence.
  - intros difficulty' H. unfold MinimaxAI.__init__. by rewrite H.
  - intros ai H.
    assert (MinimaxAI.difficulty ai = d) as Hd.
    { unfold MinimaxAI.__init__ in H. fold d in H. destruct (negb _); [done|].
      destruct (pystr_eqb d (str "easy")); [by injection H as <-|].
      destruct (pystr_eqb d (str "medium")); by injection H as <-. }
    split; [done|]. rewrite Hd. unfold d. by rewrite init_lower.
Qed.

(** ** Validation of the difficulty *)

(** X7. The route's [validate_difficulty] accepts exactly the strings
    from which [MinimaxAI] can be constructed: it returns [(True, "")]
    when [MinimaxAI(difficulty)] succeeds, and [(False, message)], with
    the message that names the three levels, when [MinimaxAI(difficulty)]
    raises ValueError; it never raises. *)
Theorem validate_difficulty_agrees (difficulty : pystr) :
  ((∃ ai, MinimaxAI.__init__ difficulty = Ok ai)
   ∧ validate_difficulty difficulty = Ok (true, []))
  ∨ (MinimaxAI.__init__ difficulty = Raise ValueError
     ∧ validate_difficulty difficulty
       = Ok (false,
             str "Invalid difficulty level. Must be one of: ['easy', 'medium', 'hard']")).
Proof.
  unfold validate_difficulty, DifficultyLevel.by_value, MinimaxAI.__init__.
  cbn [DifficultyLevel.members List.find DifficultyLevel.value].
  set (d := MinimaxAI.lower difficulty).
  assert (∀ a b, pystr_eqb a b = pystr_eqb b a) as Hsym.
  { intros a b. apply eq_true_iff_eq. rewrite !pystr_eqb_eq. split; congruence. }
  rewrite (Hsym (str "easy") d), (Hsym (str "medium") d), (Hsym (str "hard") d).
  destruct (pystr_eqb d (str "easy")); [left; split; [by eexists | done]|].
  destruct (pystr_eqb d (str "medium")); [left; split; [by eexists | done]|].
  destruct (pystr_eqb d (str "hard")); [left; split; [by eexists | done]|].
  right. split; reflexivity.
Qed.

(** ** The static evaluation is small *)

Lemma tame_below_64 (f : spec_float) :
  tame f = true → PInt (-64) ≺ PFloat f ∧ PFloat f ≺ PInt 64.
Proof.
  unfold tame. intros H. apply andb_true_iff in H as [_ H].
  destruct f as [s | s | | s m e]; try done.
  apply Z.leb_le in H. apply scaled_below in H.
  pose proof (scaled_pos m e) as Hp. pose proof (scaled_sign s m e) as Hs.
  assert (2 ^ 6 == 64)%Q as E by done.
  unfold xlt, rank, num_val, float_val, default, xcompare. cbv [from_option id].
  rewrite <- !Qlt_alt. change (inject_Z (-64)) with (-64)%Q.
  change (inject_Z 64) with 64%Q. destruct s; lra.
Qed.

Lemma py_lt_true (a b : pynum) : number a → number b → a ≺ b → py_lt a b = true.
Proof.
  intros Ha Hb H. destruct (py_lt_cases a b Ha Hb) as [[E _] | [_ H']]; [done|].
  exfalso. revert H H'. unfold xlt, xle.
  rewrite (XOrd.xcompare_antisym (rank a) (rank b)).
  by destruct (xcompare (rank a) (rank b)).
Qed.

Lemma py_le_true (a b : pynum) : number a → number b → a ≼ b → py_le a b = true.
Proof.
  intros Ha Hb H. destruct (py_le_cases a b Ha Hb) as [[E _] | [_ H']]; [done|].
  exfalso. revert H H'. unfold xlt, xle.
  rewrite (XOrd.xcompare_antisym (rank a) (rank b)).
  by destruct (xcompare (rank a) (rank b)).
Qed.

Lemma py_lt_inv (a b : pynum) : py_lt a b = true → number a ∧ number b ∧ a ≺ b.
Proof.
  unfold py_lt, py_compare, number, xlt, rank.
  destruct (num_val a) as [x|]; [|done]. destruct (num_val b) as [y|]; [|done].
  cbn [default from_option id]. by destruct (xcompare x y).
Qed.

Lemma py_le_inv (a b : pynum) : py_le a b = true → number a ∧ number b ∧ a ≼ b.
Proof.
  unfold py_le, py_compare, number, xle, rank.
  destruct (num_val a) as [x|]; [|done]. destruct (num_val b) as [y|]; [|done].
  cbn [default from_option id]. by destruct (xcompare x y).
Qed.

(** X8. On a board of nine cells [_evaluate_position] returns a float
    strictly between -64 and 64, with or without the position weights:
    never a NaN or an infinity, and never a value that reaches the score
    of a decided game, which is at least 100 in magnitude. *)
Theorem evaluate_position_small (ai : MinimaxAI.t) (b : pystr) :
  wf_board b →
  ∃ f, MinimaxAI._evaluate_position ai (TicTacToeGame.Build b) = Ok (PFloat f)
       ∧ py_lt (PInt (-64)) (PFloat f) = true
       ∧ py_lt (PFloat f) (PInt 64) = true.
Proof.
  intros Hwf. destruct (static_eval_tame ai b Hwf) as (f & E & Hf).
  exists f. rewrite evaluate_wf, E by done. split; [done|].
  pose proof (tame_finite f Hf) as Hfin. apply finite_number in Hfin.
  destruct (tame_below_64 f Hf) as [Hlo Hhi].
  split; by apply py_lt_true.
Qed.

Lemma evaluate_position_small_witness :
  ∃ f, MinimaxAI._evaluate_position hard (TicTacToeGame.Build (str "XO  X   O")) = Ok (PFloat f)
       ∧ py_lt (PInt (-64)) (PFloat f) = true
       ∧ py_lt (PFloat f) (PInt 64) = true.
Proof.
  apply (evaluate_position_small hard (str "XO  X   O")). split; reflexivity.
Defined.

(** ** The random branch of [get_ai_move] *)

Lemma minimax_init_difficulty (d : pystr) (ai : MinimaxAI.t) :
  MinimaxAI.__init__ d = Ok ai →
  (MinimaxAI.randomization ai = f_0_4 ∧ MinimaxAI.difficulty ai = str "easy")
  ∨ (MinimaxAI.randomization ai = f_0_2 ∧ MinimaxAI.difficulty ai = str "medium")
  ∨ (MinimaxAI.randomization ai = f_0_0 ∧ MinimaxAI.difficulty ai = str "hard").
Proof.
  unfold MinimaxAI.__init__.
  destruct (pystr_eqb _ (str "easy")) eqn:E1.
  { apply pystr_eqb_eq in E1. intros [= <-]. auto. }
  destruct (pystr_eqb _ (str "medium")) eqn:E2.
  { apply pystr_eqb_eq in E2. intros [= <-]. auto. }
  destruct (pystr_eqb _ (str "hard")) eqn:E3; [|done].
  apply pystr_eqb_eq in E3. intros [= <-]. auto.
Qed.

Lemma choice_nth (i : nat) (seq : list Z) (x : Z) :
  nth_error seq i = Some x → choice i seq = Ok x.
Proof.
  intros E. unfold choice. destruct seq as [|y seq']; [by destruct i|].
  assert (i < length (y :: seq'))%nat as Hlt by (apply nth_error_Some; congruence).
  rewrite Nat.mod_small by done. by rewrite E.
Qed.

(** X9. At the difficulties "easy" and "medium" [get_ai_move] can return
    any valid move, even on a board where another move wins at once: for
    every valid move there is an outcome of the random draws for which it
    is returned, and then without any search, the store being left as it
    was. *)
Theorem get_ai_move_can_return_any_move (difficulty : pystr) (ai : MinimaxAI.t)
    (b : pystr) (move : Z) (game : loc) (h : heap) :
  MinimaxAI.__init__ difficulty = Ok ai →
  MinimaxAI.difficulty ai ≠ str "hard" →
  h !! game = Some (TicTacToeGame.Build b) →
  In move (TicTacToeGame.get_valid_moves (TicTacToeGame.Build b)) →
  ∃ rnd, unit_float (random_random rnd)
         ∧ ∀ fuel, MinimaxAI.get_ai_move fuel ai rnd game h = Ok (Some move, h).
Proof.
  intros Hai Hd E Hm.
  apply In_nth_error in Hm as [i Hi].
  exists (Draws f_0_0 i 0). split.
  { exists 0%Q. split; [reflexivity|]. split; [apply Qle_refl | reflexivity]. }
  intros fuel. unfold MinimaxAI.get_ai_move, mbind, M_bind.
  rewrite (call_get_valid_moves_run game b h E).
  change (TicTacToeGame.get_valid_moves (TicTacToeGame.Build b)) with (moves b) in Hi.
  destruct (moves b) as [|m0 ms0] eqn:Em; [by destruct i|].
  cbn [random_random skip_pick].
  assert (py_lt (PFloat f_0_0) (PFloat (MinimaxAI.randomization ai)) = true) as ->.
  { destruct (minimax_init_difficulty _ _ Hai) as [(-> & _) | [(-> & _) | (_ & H)]];
      [reflexivity | reflexivity | done]. }
  unfold lift. by rewrite (choice_nth i _ move Hi).
Qed.

Lemma get_ai_move_can_return_any_move_witness :
  ∃ rnd, unit_float (random_random rnd)
         ∧ ∀ fuel, MinimaxAI.get_ai_move fuel (MinimaxAI.Build (str "easy") 2 f_0_4 false) rnd
                     0%nat {[ 0%nat := TicTacToeGame.Build (str "OO XX    ") ]}
                   = Ok (Some 8, {[ 0%nat := TicTacToeGame.Build (str "OO XX    ") ]}).
Proof.
  apply (get_ai_move_can_return_any_move (str "Easy") (MinimaxAI.Build (str "easy") 2 f_0_4 false)
           (str "OO XX    ") 8 0%nat).
  - reflexivity.
  - discriminate.
  - apply lookup_singleton_eq.
  - vm_compute. tauto.
Defined.

(** ** Alpha-beta pruning with any window *)

(** X10. Alpha-beta pruning with any window.  On a board of nine cells and
    for numbers [alpha < beta], [_minimax] and the same recursion without
    the cut-offs both return; a score of [_minimax] strictly inside the
    window is the score of the recursion without cut-offs, a score at or
    below [alpha] is at least that score, and a score at or above [beta]
    is at most that score. *)
Theorem alpha_beta_window (ai : MinimaxAI.t) (b : pystr) (depth : Z) (alpha beta : pynum)
    (is_maximizing : bool) (fuel : nat) (game : loc) (h : heap) :
  wf_board b → (empties b < fuel)%nat →
  h !! game = Some (TicTacToeGame.Build b) →
  py_lt alpha beta = true →
  ∃ v t h1 h2,
    MinimaxAI._minimax fuel ai game depth alpha beta is_maximizing h = Ok (v, h1)
    ∧ MinimaxAI.minimax_without_cutoff fuel ai game depth alpha beta is_maximizing h
      = Ok (t, h2)
    ∧ (py_lt alpha v = true → py_lt v beta = true → v = t)
    ∧ (py_le v alpha = true → py_le t v = true)
    ∧ (py_le beta v = true → py_le v t = true).
Proof.
  intros Hwf Hf E Hab. apply py_lt_inv in Hab as (Na & Nb & Hab).
  destruct (minimax_with_run true ai fuel b depth alpha beta is_maximizing h game Hwf Hf E)
    as (h1 & E1 & _).
  destruct (minimax_with_run false ai fuel b depth alpha beta is_maximizing h game Hwf Hf E)
    as (h2 & E2 & _).
  eexists _, _, h1, h2. split; [exact E1|]. split; [exact E2|].
  assert (∀ b', wf_board b' → number (static_eval ai b')) as Hstatic
    by (intros b' Hb'; by apply finite_number, static_eval_finite).
  pose proof (search_bounds ai fuel Hstatic b depth alpha beta is_maximizing Hwf Na Nb Hab)
    as (Nv & Nt & B1 & B2 & B3).
  rewrite <- (search_nocut_window ai fuel b depth alpha beta) in Nt, B1, B2, B3.
  split; [|split].
  - intros H1 H2. apply py_lt_inv in H1 as (_ & _ & H1). apply py_lt_inv in H2 as (_ & _ & H2).
    eapply score_kind_inj; [by apply search_kind | by apply search_kind | by apply B2].
  - intros H1. apply py_le_inv in H1 as (_ & _ & H1). apply py_le_true; auto.
  - intros H1. apply py_le_inv in H1 as (_ & _ & H1). apply py_le_true; auto.
Qed.

Lemma alpha_beta_window_witness :
  ∃ v t h1 h2,
    MinimaxAI._minimax 10 hard 0%nat 3 (PInt (-1)) (PInt 1) true
      {[ 0%nat := TicTacToeGame.Build (str "XO  X   O") ]} = Ok (v, h1)
    ∧ MinimaxAI.minimax_without_cutoff 10 hard 0%nat 3 (PInt (-1)) (PInt 1) true
        {[ 0%nat := TicTacToeGame.Build (str "XO  X   O") ]} = Ok (t, h2)
    ∧ (py_lt (PInt (-1)) v = true → py_lt v (PInt 1) = true → v = t)
    ∧ (py_le v (PInt (-1)) = true → py_le t v = true)
    ∧ (py_le (PInt 1) v = true → py_le v t = true).
Proof.
  apply (alpha_beta_window hard (str "XO  X   O") 3 (PInt (-1)) (PInt 1) true 10 0%nat).
  - split; reflexivity.
  - vm_compute. lia.
  - apply lookup_singleton_eq.
  - reflexivity.
Defined.

(** ** The range of the scores *)

Lemma search_range (cutoff : bool) (ai : MinimaxAI.t) (fuel : nat) :
  ∀ b depth alpha beta is_maximizing,
    wf_board b → 0 ≤ depth → (empties b < fuel)%nat →
    leaf ai (100 + depth) (search cutoff fuel ai b depth alpha beta is_maximizing)
    ∧ ((outcome b).1 = false →
       leaf ai (100 + depth - 1) (search cutoff fuel ai b depth alpha beta is_maximizing)).
Proof.
  induction fuel as [|fuel IH]; intros b depth alpha beta is_maximizing Hwf Hd Hf; [lia|].
  cbn [search]. destruct (outcome b) as [game_over winner] eqn:Eo. destruct game_over.
  { split; [|done]. left. unfold terminal_score.
    destruct (option_ascii_eqb winner _); [eexists; split; [done | lia]|].
    destruct (option_ascii_eqb winner _); eexists; (split; [done | lia]). }
  destruct (Z.eqb_spec depth 0) as [-> | Hd0].
  { split; [|intros _]; right; by exists b. }
  assert (moves b ≠ []) as Hne by (apply not_over_has_moves; [done | by rewrite Eo]).
  assert (∀ m c d a' b' mx, In m (moves b) → player_cell c → d = depth - 1 →
            leaf ai (100 + depth - 1)
              (search cutoff fuel ai (place b m c) d a' b' mx)) as Hch.
  { intros m c d a' b' mx Hm Hc ->.
    assert (c ≠ TicTacToeGame.EMPTY) as Hcn by (destruct Hc as [-> | ->]; done).
    pose proof (empties_place b m c Hwf Hm Hcn) as He.
    replace (100 + depth - 1) with (100 + (depth - 1)) by lia.
    apply IH; [by apply place_moves_wf | lia | lia]. }
  assert (leaf ai (100 + depth - 1)
            (if is_maximizing
             then max_fold cutoff
                    (λ c alpha beta, search cutoff fuel ai c (depth - 1) alpha beta false)
                    b (moves b) (PFloat f_neg_inf) alpha beta
             else min_fold cutoff
                    (λ c alpha beta, search cutoff fuel ai c (depth - 1) alpha beta true)
                    b (moves b) (PFloat f_inf) alpha beta)) as H.
  { destruct is_maximizing.
    - apply (max_fold_first (leaf ai _)); [apply leaf_finite | done |].
      intros m a' b' Hm. apply Hch; [done | by right | done].
    - apply (min_fold_first (leaf ai _)); [apply leaf_finite | done |].
      intros m a' b' Hm. apply Hch; [done | by left | done]. }
  split; [|done]. eapply leaf_mono; [|exact H]. lia.
Qed.

Lemma py_int_lt (z z' : Z) : z < z' → PInt z ≺ PInt z'.
Proof.
  intros H. unfold xlt, rank, num_val, default, xcompare. cbv [from_option id].
  by rewrite <- Qlt_alt, <- Zlt_Qlt.
Qed.

Lemma py_int_le_inv (z z' : Z) : PInt z ≼ PInt z' → z ≤ z'.
Proof.
  unfold xle, rank, num_val, default, xcompare. cbv [from_option id].
  by rewrite <- Qle_alt, <- Zle_Qle.
Qed.

Lemma py_int_lt_inv (z z' : Z) : PInt z ≺ PInt z' → z < z'.
Proof.
  unfold xlt, rank, num_val, default, xcompare. cbv [from_option id].
  by rewrite <- Qlt_alt, <- Zlt_Qlt.
Qed.

(** A leaf within [bound], at least 64, lies between [-bound] and [bound]. *)
Lemma leaf_between (ai : MinimaxAI.t) (bound : Z) (v : pynum) :
  64 ≤ bound → leaf ai bound v →
  number v ∧ PInt (- bound) ≼ v ∧ v ≼ PInt bound.
Proof.
  intros Hb [(z & -> & Hz) | (b' & Hwf & ->)].
  - split; [done|]. split; apply py_int_le; lia.
  - destruct (static_eval_tame ai b' Hwf) as (f & -> & Hf).
    pose proof (finite_number _ (tame_finite f Hf)) as Hn.
    destruct (tame_below_64 f Hf) as [Hlo Hhi]. split; [done|].
    pose proof (py_int_le (- bound) (-64) ltac:(lia)).
    pose proof (py_int_le 64 bound ltac:(lia)). split; order.
Qed.

(** X11. The range of the scores.  On a board of nine cells and for a
    depth that is not negative, whatever the window, the score of
    [_minimax] lies between [-100 - depth] and [100 + depth]; and on a
    board where the game is not over it lies strictly between them: the
    two extreme scores are those of a game that is already won on the
    board of the call. *)
Theorem minimax_score_range (ai : MinimaxAI.t) (b : pystr) (depth : Z) (alpha beta : pynum)
    (is_maximizing : bool) (fuel : nat) (game : loc) (h : heap) :
  wf_board b → 0 ≤ depth → (empties b < fuel)%nat →
  h !! game = Some (TicTacToeGame.Build b) →
  ∃ v h', MinimaxAI._minimax fuel ai game depth alpha beta is_maximizing h = Ok (v, h')
    ∧ py_le (PInt (-100 - depth)) v = true
    ∧ py_le v (PInt (100 + depth)) = true
    ∧ (TicTacToeGame.check_winner (TicTacToeGame.Build b) = Ok (false, None) →
       py_lt (PInt (-100 - depth)) v = true ∧ py_lt v (PInt (100 + depth)) = true).
Proof.
  intros Hwf Hd Hf E.
  destruct (minimax_with_run true ai fuel b depth alpha beta is_maximizing h game Hwf Hf E)
    as (h' & E' & _).
  eexists _, h'. split; [exact E'|].
  destruct (search_range true ai fuel b depth alpha beta is_maximizing Hwf Hd Hf) as [H1 H2].
  set (v := search true fuel ai b depth alpha beta is_maximizing) in *.
  destruct (leaf_between ai (100 + depth) v ltac:(lia) H1) as (Nv & Hlo & Hhi).
  replace (- (100 + depth)) with (-100 - depth) in Hlo by lia.
  split; [by apply py_le_true|]. split; [by apply py_le_true|].
  intros Hc. apply check_winner_outcome in Hc. rewrite Hc in H2. specialize (H2 eq_refl).
  destruct (leaf_between ai (100 + depth - 1) v ltac:(lia) H2) as (_ & Hlo' & Hhi').
  pose proof (py_int_lt (-100 - depth) (- (100 + depth - 1)) ltac:(lia)).
  pose proof (py_int_lt (100 + depth - 1) (100 + depth) ltac:(lia)).
  split; apply py_lt_true; try done; order.
Qed.

Lemma minimax_score_range_witness :
  ∃ v h',
    MinimaxAI._minimax 10 hard 0%nat 9 (PFloat f_neg_inf) (PFloat f_inf) false
      {[ 0%nat := TicTacToeGame.Build (str "XO  X   O") ]} = Ok (v, h')
    ∧ py_le (PInt (-100 - 9)) v = true
    ∧ py_le v (PInt (100 + 9)) = true
    ∧ (TicTacToeGame.check_winner (TicTacToeGame.Build (str "XO  X   O")) = Ok (false, None) →
       py_lt (PInt (-100 - 9)) v = true ∧ py_lt v (PInt (100 + 9)) = true).
Proof.
  apply (minimax_score_range hard (str "XO  X   O") 9 (PFloat f_neg_inf) (PFloat f_inf)
           false 10 0%nat).
  - split; reflexivity.
  - lia.
  - vm_compute. lia.
  - apply lookup_singleton_eq.
Defined.

(** ** The move of the best score *)

Lemma py_eq_cases (a b : pynum) :
  number a → number b →
  (py_eq a b = true ∧ a ≈ b) ∨ (py_eq a b = false ∧ ¬ a ≈ b).
Proof.
  intros Ha Hb. unfold py_eq, xeq. rewrite py_compare_rank by done.
  destruct (xcompare (rank a) (rank b)); [left | right | right]; done.
Qed.

Lemma best_fold_best (fuel : nat) (ai : MinimaxAI.t) (b : pystr) (ms : list Z) :
  (∀ m, In m ms → ∃ s, candidate_score fuel ai b m = Ok s ∧ finite s) →
  ∀ seen best_score best_moves,
    number best_score →
    best_so_far (candidate_score fuel ai b) seen best_score best_moves →
    ∃ r, best_fold fuel ai b ms best_score best_moves = Ok r
         ∧ number r.1
         ∧ best_so_far (candidate_score fuel ai b) (seen ++ ms) r.1 r.2.
Proof.
  induction ms as [|m ms IH]; intros Hc seen best_score best_moves Hn Hinv.
  { eexists. split; [done|]. rewrite app_nil_r. done. }
  cbn [best_fold]. destruct (Hc m (or_introl eq_refl)) as (s & Es & Hs).
  rewrite Es. cbn [mbind res_bind].
  assert (∀ m', In m' ms → ∃ s, candidate_score fuel ai b m' = Ok s ∧ finite s) as Hc'
    by (intros m' Hm'; apply Hc; by right).
  pose proof (finite_number _ Hs) as Ns.
  replace (seen ++ m :: ms) with ((seen ++ [m]) ++ ms) by (by rewrite <- app_assoc).
  destruct Hinv as [I1 I2].
  destruct (py_gt_cases s best_score Ns Hn) as [[-> Hgt] | [-> Hle]].
  - apply IH; [done | done |]. split.
    + intros x [<- | []]. split; [apply in_or_app; right; by left|].
      exists s. split; [done | order].
    + intros x sx Hx Ex. apply in_app_or in Hx as [Hx | [<- | []]].
      * destruct (I2 x sx Hx Ex) as [H1 _]. split; [order|]. intros H. order.
      * rewrite Es in Ex. injection Ex as <-. split; [order|]. intros _. by left.
  - destruct (py_eq_cases s best_score Ns Hn) as [[-> Heq] | [-> Hne]].
    + apply IH; [done | done |]. split.
      * intros x Hx. apply in_app_or in Hx as [Hx | [<- | []]].
        -- destruct (I1 x Hx) as [H1 H2]. split; [apply in_or_app; by left | done].
        -- split; [apply in_or_app; right; by left|]. by exists s.
      * intros x sx Hx Ex. apply in_app_or in Hx as [Hx | [<- | []]].
        -- destruct (I2 x sx Hx Ex) as [H1 H2]. split; [done|].
           intros H. apply in_or_app. left. by apply H2.
        -- rewrite Es in Ex. injection Ex as <-. split; [order|].
           intros _. apply in_or_app. right. by left.
    + apply IH; [done | done |]. split.
      * intros x Hx. destruct (I1 x Hx) as [H1 H2]. split; [apply in_or_app; by left | done].
      * intros x sx Hx Ex. apply in_app_or in Hx as [Hx | [<- | []]].
        -- by apply I2.
        -- rewrite Es in Ex. injection Ex as <-. split; [done|]. intros H. done.
Qed.

Lemma move_score_candidate (fuel : nat) (ai : MinimaxAI.t) (b : pystr) (m : Z) (s : pynum) :
  wf_board b → (empties b ≤ fuel)%nat → In m (moves b) →
  move_score fuel ai b m s ↔ candidate_score fuel ai b m = Ok s.
Proof.
  intros Hwf Hf Hm.
  assert (player_cell TicTacToeGame.PLAYER_O) as Hc by (by right).
  pose proof (make_move_moves b m _ Hwf Hm Hc) as Emv.
  pose proof (place_moves_wf b m _ Hwf Hm Hc) as Hwf'.
  pose proof (empties_place b m TicTacToeGame.PLAYER_O Hwf Hm ltac:(done)) as He.
  assert (∀ (h : heap) (l : loc),
            h !! l = Some (TicTacToeGame.Build (place b m TicTacToeGame.PLAYER_O)) →
            ∃ h', MinimaxAI._minimax fuel ai l (MinimaxAI.max_depth ai)
                    (PFloat f_neg_inf) (PFloat f_inf) false h
                  = Ok (search true fuel ai (place b m TicTacToeGame.PLAYER_O)
                          (MinimaxAI.max_depth ai) (PFloat f_neg_inf) (PFloat f_inf) false,
                        h')) as Hrun.
  { intros h l El.
    destruct (minimax_with_run true ai fuel _ (MinimaxAI.max_depth ai) (PFloat f_neg_inf)
                (PFloat f_inf) false h l Hwf' ltac:(lia) El) as (h' & E' & _).
    by exists h'. }
  split.
  - intros (g' & v & Eg & Hv & Ew). rewrite Emv in Eg. injection Eg as <-.
    destruct (Hv {[ 0%nat := TicTacToeGame.Build (place b m TicTacToeGame.PLAYER_O) ]} 0%nat)
      as (h1 & E1); [apply lookup_singleton_eq|].
    destruct (Hrun {[ 0%nat := TicTacToeGame.Build (place b m TicTacToeGame.PLAYER_O) ]} 0%nat)
      as (h2 & E2); [apply lookup_singleton_eq|].
    rewrite E2 in E1. injection E1 as <- _. done.
  - intros Ec. eexists _, _. split; [exact Emv|]. split; [exact Hrun | exact Ec].
Qed.

(** X12. When [get_ai_move] does not take the random branch it returns a
    move of the best score: every valid move has a score, computed by
    [_minimax] on a copy of the game where O has made the move, and no
    valid move has a score above the score of the move returned.  Ties
    are broken by the random choice only: every valid move whose score
    equals the best one is returned for some outcome of that draw. *)
Theorem get_ai_move_best_score (difficulty : pystr) (ai : MinimaxAI.t) (b : pystr)
    (rnd : draws) (fuel : nat) (game : loc) (h : heap) :
  MinimaxAI.__init__ difficulty = Ok ai →
  wf_board b → (9 < fuel)%nat →
  h !! game = Some (TicTacToeGame.Build b) →
  py_lt (PFloat (random_random rnd)) (PFloat (MinimaxAI.randomization ai)) = false →
  ∃ r h', MinimaxAI.get_ai_move fuel ai rnd game h = Ok (r, h')
    ∧ ∀ move, r = Some move →
        ∃ s, move_score fuel ai b move s
          ∧ ∀ move', In move' (TicTacToeGame.get_valid_moves (TicTacToeGame.Build b)) →
              ∃ s', move_score fuel ai b move' s'
                ∧ py_le s' s = true
                ∧ (py_eq s' s = true →
                   ∃ pick h'',
                     MinimaxAI.get_ai_move fuel ai
                       (Draws (random_random rnd) (skip_pick rnd) pick) game h
                     = Ok (Some move', h'')).
Proof.
  intros Hai Hwf Hf E Hrand.
  pose proof (empties_le_9 b Hwf) as H9.
  assert (Z.abs (MinimaxAI.max_depth ai) ≤ 19) as Hd.
  { destruct (init_cases _ _ Hai) as [(-> & _) | [(-> & _) | (-> & _)]]; lia. }
  assert (∀ m, In m (moves b) → ∃ s, candidate_score fuel ai b m = Ok s ∧ finite s) as Hcs.
  { intros m Hm. apply candidate_score_finite; try done. lia. }
  destruct (best_fold_best fuel ai b (moves b) Hcs [] (PFloat f_neg_inf) [])
    as (best & Eb & Nb & I1 & I2); [done | by split |].
  cbn [app] in I1, I2.
  assert (∀ pick r, select_move fuel ai (Draws (random_random rnd) (skip_pick rnd) pick) b
                    = Ok r →
            ∀ x, r = Some x → choice pick best.2 = Ok x) as Hsel.
  { intros pick r. unfold select_move. cbn [random_random tie_pick].
    destruct (moves b) as [|m0 ms0] eqn:Em; [by intros [= <-]|]. rewrite Hrand, Eb.
    cbn [mbind res_bind]. destruct (choice pick best.2) as [x|]; [|done].
    cbn [mbind res_bind]. by intros [= <-] x' [= <-]. }
  assert (∀ pick, ∃ r h1,
            select_move fuel ai (Draws (random_random rnd) (skip_pick rnd) pick) b = Ok r
            ∧ (r = None ↔ moves b = [])
            ∧ MinimaxAI.get_ai_move fuel ai (Draws (random_random rnd) (skip_pick rnd) pick)
                game h = Ok (r, h1)) as Hget.
  { intros pick.
    destruct (select_move_spec fuel ai (Draws (random_random rnd) (skip_pick rnd) pick) b Hwf)
      as (r & Er & Hnone & _); [lia | done |].
    destruct (get_ai_move_run fuel ai _ game b h r Hwf ltac:(lia) E Er) as (h1 & E1 & _).
    by exists r, h1. }
  destruct (Hget (tie_pick rnd)) as (r & h' & Er & _ & Erun).
  replace (Draws (random_random rnd) (skip_pick rnd) (tie_pick rnd)) with rnd in *
    by (by destruct rnd).
  exists r, h'. split; [done|]. intros move ->.
  assert (In move best.2) as Hin by (eapply choice_inv, Hsel; done).
  destruct (I1 move Hin) as (Hm & s & Es & Heq).
  destruct (Hcs move Hm) as (s0 & Es0 & Hs0). rewrite Es0 in Es. injection Es as ->.
  pose proof (finite_number _ Hs0) as Ns.
  exists s. split; [apply move_score_candidate; try done; lia|].
  intros move' Hm'.
  change (TicTacToeGame.get_valid_moves (TicTacToeGame.Build b)) with (moves b) in Hm'.
  destruct (Hcs move' Hm') as (s' & Es' & Hs'). pose proof (finite_number _ Hs') as Ns'.
  exists s'. split; [apply move_score_candidate; try done; lia|].
  destruct (I2 move' s' Hm' Es') as [Hle Htie].
  split; [apply py_le_true; try done; order|].
  intros Hpe. destruct (py_eq_cases s' s Ns' Ns) as [[_ Hss] | [Hss _]]; [|congruence].
  assert (In move' best.2) as Hin' by (apply Htie; order).
  apply In_nth_error in Hin' as [i Hi]. exists i.
  destruct (Hget i) as (r' & h1 & Er' & Hnone & E1).
  destruct r' as [x|]; [|exfalso; destruct Hnone as [Hnone _]; rewrite Hnone in Hm'; done].
  pose proof (Hsel i _ Er' x eq_refl) as Ex.
  rewrite (choice_nth i _ _ Hi) in Ex. injection Ex as <-. by exists h1.
Qed.

Lemma get_ai_move_best_score_witness :
  ∃ r h', MinimaxAI.get_ai_move 10 hard (Draws f_0_0 0 0) 0%nat
            {[ 0%nat := TicTacToeGame.Build (str "XO  X   O") ]} = Ok (r, h')
    ∧ ∀ move, r = Some move →
        ∃ s, move_score 10 hard (str "XO  X   O") move s
          ∧ ∀ move',
              In move' (TicTacToeGame.get_valid_moves (TicTacToeGame.Build (str "XO  X   O"))) →
              ∃ s', move_score 10 hard (str "XO  X   O") move' s'
                ∧ py_le s' s = true
                ∧ (py_eq s' s = true →
                   ∃ pick h'',
                     MinimaxAI.get_ai_move 10 hard
                       (Draws (random_random (Draws f_0_0 0 0)) (skip_pick (Draws f_0_0 0 0)) pick)
                       0%nat {[ 0%nat := TicTacToeGame.Build (str "XO  X   O") ]}
                     = Ok (Some move', h'')).
Proof.
  apply (get_ai_move_best_score (str "hard") hard (str "XO  X   O") (Draws f_0_0 0 0)
           10 0%nat).
  - reflexivity.
  - split; reflexivity.
  - lia.
  - apply lookup_singleton_eq.
  - reflexivity.
Defined.

(** ** The value of the game *)

Lemma opponent_neq (p : ascii) : opponent p ≠ p.
Proof.
  unfold opponent. destruct (Ascii.eqb_spec p TicTacToeGame.PLAYER_X) as [-> | H]; [done|].
  congruence.
Qed.

Lemma legal_move_place (b : pystr) (p : ascii) (m : Z) :
  wf_board b → (outcome b).1 = false → player_cell p → In m (moves b) →
  legal_move b p (place b m p).
Proof.
  intros Hwf Ho Hp Hm. split.
  - rewrite outcome_wf by done. by rewrite (outcome_not_over b Ho).
  - exists m. by apply make_move_moves.
Qed.

Lemma legal_move_inv (b : pystr) (p : ascii) (b' : pystr) :
  wf_board b → legal_move b p b' →
  (outcome b).1 = false ∧ ∃ m, In m (moves b) ∧ b' = place b m p.
Proof.
  intros Hwf [Hc (m & Hm)]. apply check_winner_outcome in Hc. split; [by rewrite Hc|].
  destruct (make_move_true_inv b m p b' Hwf Hm) as (_ & Hin & ->). by exists m.
Qed.

Lemma forces_win_over (p : ascii) (b : pystr) (t : ascii) (w : option ascii) :
  wf_board b → outcome b = (true, w) → forces_win p b t → w = Some p.
Proof.
  intros Hwf Ho H. destruct H as [b t Hc | b b' [Hc _] _ | b Hc _];
    apply check_winner_outcome in Hc; congruence.
Qed.

Lemma forces_win_own_turn (p : ascii) (b : pystr) :
  wf_board b → (outcome b).1 = false → forces_win p b p →
  ∃ m, In m (moves b) ∧ forces_win p (place b m p) (opponent p).
Proof.
  intros Hwf Ho H. inversion H as [b0 t Hc | b0 b' Hl Hf | b0 Hc Hall Eb]; subst.
  - apply check_winner_outcome in Hc. by rewrite Hc in Ho.
  - destruct (legal_move_inv b p b' Hwf Hl) as (_ & m & Hm & ->). by exists m.
  - exfalso. by eapply opponent_neq.
Qed.

Lemma forces_win_other_turn (p : ascii) (b : pystr) :
  wf_board b → (outcome b).1 = false → player_cell (opponent p) →
  forces_win p b (opponent p) →
  ∀ m, In m (moves b) → forces_win p (place b m (opponent p)) p.
Proof.
  intros Hwf Ho Hp H m Hm.
  inversion H as [b0 t Hc | b0 b' Hl Hf Eb Et | b0 Hc Hall]; subst.
  - apply check_winner_outcome in Hc. by rewrite Hc in Ho.
  - exfalso. symmetry in Et. by eapply opponent_neq.
  - apply Hall. by apply legal_move_place.
Qed.

Lemma max_fold_nocut_upper (value : pystr → pynum) (b : pystr) (ms : list Z) :
  (∀ m, In m ms → number (value (place b m TicTacToeGame.PLAYER_O))) →
  ∀ max_score alpha beta,
    number max_score →
    ∀ m, In m ms →
      value (place b m TicTacToeGame.PLAYER_O)
      ≼ max_fold false (λ c _ _, value c) b ms max_score alpha beta.
Proof.
  induction ms as [|m0 ms IH]; intros Hv max_score alpha beta Hn m Hm; [done|].
  cbn [max_fold andb].
  assert (number (value (place b m0 TicTacToeGame.PLAYER_O))) as Hm0 by (apply Hv; by left).
  assert (∀ m', In m' ms → number (value (place b m' TicTacToeGame.PLAYER_O))) as Hv'
    by (intros m' Hm'; apply Hv; by right).
  set (s := value (place b m0 TicTacToeGame.PLAYER_O)) in *.
  assert (number (py_max max_score s)) as Hn'
    by (destruct (py_max_cases max_score s Hn Hm0) as [[-> _] | [-> _]]; done).
  destruct Hm as [<- | Hm]; [|by apply IH].
  destruct (max_fold_nocut_ge value b ms Hv' (py_max max_score s) (py_max alpha s) beta Hn')
    as [_ Hge].
  set (r := max_fold false _ b ms _ _ _) in *.
  destruct (py_max_cases max_score s Hn Hm0) as [[E _] | [E H]];
    rewrite E in Hge; order.
Qed.

Lemma min_fold_nocut_lower (value : pystr → pynum) (b : pystr) (ms : list Z) :
  (∀ m, In m ms → number (value (place b m TicTacToeGame.PLAYER_X))) →
  ∀ min_score alpha beta,
    number min_score →
    ∀ m, In m ms →
      min_fold false (λ c _ _, value c) b ms min_score alpha beta
      ≼ value (place b m TicTacToeGame.PLAYER_X).
Proof.
  induction ms as [|m0 ms IH]; intros Hv min_score alpha beta Hn m Hm; [done|].
  cbn [min_fold andb].
  assert (number (value (place b m0 TicTacToeGame.PLAYER_X))) as Hm0 by (apply Hv; by left).
  assert (∀ m', In m' ms → number (value (place b m' TicTacToeGame.PLAYER_X))) as Hv'
    by (intros m' Hm'; apply Hv; by right).
  set (s := value (place b m0 TicTacToeGame.PLAYER_X)) in *.
  assert (number (py_min min_score s)) as Hn'
    by (destruct (py_min_cases min_score s Hn Hm0) as [[-> _] | [-> _]]; done).
  destruct Hm as [<- | Hm]; [|by apply IH].
  destruct (min_fold_nocut_le value b ms Hv' (py_min min_score s) alpha (py_min beta s) Hn')
    as [_ Hle].
  set (r := min_fold false _ b ms _ _ _) in *.
  destruct (py_min_cases min_score s Hn Hm0) as [[E _] | [E H]];
    rewrite E in Hle; order.
Qed.

(** The value of the search without cut-offs when the depth covers the
    plies that are left. *)
Lemma search_value (ai : MinimaxAI.t) (fuel : nat) :
  ∀ b depth alpha beta is_maximizing,
    wf_board b → Z.of_nat (empties b) ≤ depth → (empties b < fuel)%nat →
    ∃ z, search false fuel ai b depth alpha beta is_maximizing = PInt z
         ∧ (z = 0 ∨ 100 ≤ z ∨ z ≤ -100)
         ∧ - (100 + depth) ≤ z ≤ 100 + depth
         ∧ (100 ≤ z ↔ forces_win TicTacToeGame.PLAYER_O b (turn is_maximizing))
         ∧ (z ≤ -100 ↔ forces_win TicTacToeGame.PLAYER_X b (turn is_maximizing)).
Proof.
  induction fuel as [|fuel IH]; intros b depth alpha beta is_maximizing Hwf Hd Hf; [lia|].
  cbn [search]. destruct (outcome b) as [game_over winner] eqn:Eo. destruct game_over.
  { pose proof (outcome_over b winner Hwf Eo) as Hw. unfold terminal_score.
    pose proof (outcome_wf b Hwf) as Hc. rewrite Eo in Hc.
    destruct winner as [q|]; [destruct Hw as [-> | ->]|]; cbn [option_ascii_eqb Ascii.eqb];
      change (Ascii.eqb TicTacToeGame.PLAYER_X TicTacToeGame.PLAYER_O) with false;
      change (Ascii.eqb TicTacToeGame.PLAYER_X TicTacToeGame.PLAYER_X) with true;
      change (Ascii.eqb TicTacToeGame.PLAYER_O TicTacToeGame.PLAYER_O) with true;
      cbv iota; eexists; (split; [reflexivity|]); (split; [lia|]); (split; [lia|]).
    - split; split.
      + intros Hz. exfalso. lia.
      + intros H. by apply (forces_win_over _ b _ _ Hwf Eo) in H.
      + intros _. by apply forces_won.
      + intros _. lia.
    - split; split.
      + intros _. by apply forces_won.
      + intros _. lia.
      + intros Hz. exfalso. lia.
      + intros H. by apply (forces_win_over _ b _ _ Hwf Eo) in H.
    - split; split.
      + intros Hz. exfalso. lia.
      + intros H. by apply (forces_win_over _ b _ _ Hwf Eo) in H.
      + intros Hz. exfalso. lia.
      + intros H. by apply (forces_win_over _ b _ _ Hwf Eo) in H. }
  assert ((outcome b).1 = false) as Ho by (by rewrite Eo).
  assert (moves b ≠ []) as Hne by (by apply not_over_has_moves).
  pose proof (has_moves_empties b Hne) as Hpos.
  destruct (Z.eqb_spec depth 0) as [-> | Hd0]; [lia|].
  assert (∀ m c, In m (moves b) → player_cell c →
            wf_board (place b m c) ∧ Z.of_nat (empties (place b m c)) ≤ depth - 1
            ∧ (empties (place b m c) < fuel)%nat) as Hch.
  { intros m c Hm Hc. split; [by apply place_moves_wf|].
    assert (c ≠ TicTacToeGame.EMPTY) as Hcn by (destruct Hc as [-> | ->]; done).
    pose proof (empties_place b m c Hwf Hm Hcn). lia. }
  assert (player_cell TicTacToeGame.PLAYER_O) as HpO by (by right).
  assert (player_cell TicTacToeGame.PLAYER_X) as HpX by (by left).
  set (value := λ c : pystr,
         search false fuel ai c (depth - 1) (PFloat f_neg_inf) (PFloat f_inf)
           (negb is_maximizing)).
  destruct is_maximizing; cbn [turn negb] in *.
  - rewrite (max_fold_ext false _ (λ c _ _, value c)) by (intros; apply search_nocut_window).
    assert (∀ m, In m (moves b) →
              ∃ z, value (place b m TicTacToeGame.PLAYER_O) = PInt z
                   ∧ (z = 0 ∨ 100 ≤ z ∨ z ≤ -100)
                   ∧ - (100 + (depth - 1)) ≤ z ≤ 100 + (depth - 1)
                   ∧ (100 ≤ z ↔ forces_win TicTacToeGame.PLAYER_O
                                  (place b m TicTacToeGame.PLAYER_O) TicTacToeGame.PLAYER_X)
                   ∧ (z ≤ -100 ↔ forces_win TicTacToeGame.PLAYER_X
                                   (place b m TicTacToeGame.PLAYER_O) TicTacToeGame.PLAYER_X))
      as Hval.
    { intros m Hm. destruct (Hch m _ Hm HpO) as (Hwf' & Hd' & Hf'). by apply IH. }
    assert (∀ m, In m (moves b) → number (value (place b m TicTacToeGame.PLAYER_O))) as Hnum.
    { intros m Hm. destruct (Hval m Hm) as (z & -> & _). done. }
    pose proof (max_fold_first
                  (λ v, ∃ m, In m (moves b) ∧ v = value (place b m TicTacToeGame.PLAYER_O))
                  false (λ c _ _, value c) b (moves b) alpha beta) as (m0 & Hm0 & E0).
    { intros v (m & Hm & ->). destruct (Hval m Hm) as (z & -> & _). by eexists. }
    { done. }
    { intros m _ _ Hm. by exists m. }
    pose proof (max_fold_nocut_upper value b (moves b) Hnum (PFloat f_neg_inf) alpha beta
                  number_neg_inf) as Hup.
    rewrite E0 in Hup |- *.
    destruct (Hval m0 Hm0) as (z0 & Ez0 & Htri & Hr0 & HO & HX). rewrite Ez0 in Hup |- *.
    exists z0. split; [done|]. split; [done|]. split; [lia|]. split; split.
    + intros Hz. apply (forces_move _ b (place b m0 TicTacToeGame.PLAYER_O)).
      * by apply legal_move_place.
      * by apply HO.
    + intros H. destruct (forces_win_own_turn _ b Hwf Ho H) as (m & Hm & Hf').
      destruct (Hval m Hm) as (z & Ez & _ & _ & HO' & _).
      specialize (Hup m Hm). rewrite Ez in Hup. apply py_int_le_inv in Hup.
      apply HO' in Hf'. lia.
    + intros Hz. apply (forces_reply TicTacToeGame.PLAYER_X b).
      * rewrite outcome_wf by done. by rewrite (outcome_not_over b Ho).
      * intros b' Hl. destruct (legal_move_inv b _ b' Hwf Hl) as (_ & m & Hm & ->).
        destruct (Hval m Hm) as (z & Ez & _ & _ & _ & HX').
        specialize (Hup m Hm). rewrite Ez in Hup. apply py_int_le_inv in Hup.
        apply HX'. lia.
    + intros H. apply HX.
      by apply (forces_win_other_turn TicTacToeGame.PLAYER_X b Hwf Ho HpO H m0).
  - rewrite (min_fold_ext false _ (λ c _ _, value c)) by (intros; apply search_nocut_window).
    assert (∀ m, In m (moves b) →
              ∃ z, value (place b m TicTacToeGame.PLAYER_X) = PInt z
                   ∧ (z = 0 ∨ 100 ≤ z ∨ z ≤ -100)
                   ∧ - (100 + (depth - 1)) ≤ z ≤ 100 + (depth - 1)
                   ∧ (100 ≤ z ↔ forces_win TicTacToeGame.PLAYER_O
                                  (place b m TicTacToeGame.PLAYER_X) TicTacToeGame.PLAYER_O)
                   ∧ (z ≤ -100 ↔ forces_win TicTacToeGame.PLAYER_X
                                   (place b m TicTacToeGame.PLAYER_X) TicTacToeGame.PLAYER_O))
      as Hval.
    { intros m Hm. destruct (Hch m _ Hm HpX) as (Hwf' & Hd' & Hf'). by apply IH. }
    assert (∀ m, In m (moves b) → number (value (place b m TicTacToeGame.PLAYER_X))) as Hnum.
    { intros m Hm. destruct (Hval m Hm) as (z & -> & _). done. }
    pose proof (min_fold_first
                  (λ v, ∃ m, In m (moves b) ∧ v = value (place b m TicTacToeGame.PLAYER_X))
                  false (λ c _ _, value c) b (moves b) alpha beta) as (m0 & Hm0 & E0).
    { intros v (m & Hm & ->). destruct (Hval m Hm) as (z & -> & _). by eexists. }
    { done. }
    { intros m _ _ Hm. by exists m. }
    pose proof (min_fold_nocut_lower value b (moves b) Hnum (PFloat f_inf) alpha beta
                  number_inf) as Hlow.
    rewrite E0 in Hlow |- *.
    destruct (Hval m0 Hm0) as (z0 & Ez0 & Htri & Hr0 & HO & HX). rewrite Ez0 in Hlow |- *.
    exists z0. split; [done|]. split; [done|]. split; [lia|]. split; split.
    + intros Hz. apply (forces_reply TicTacToeGame.PLAYER_O b).
      * rewrite outcome_wf by done. by rewrite (outcome_not_over b Ho).
      * intros b' Hl. destruct (legal_move_inv b _ b' Hwf Hl) as (_ & m & Hm & ->).
        destruct (Hval m Hm) as (z & Ez & _ & _ & HO' & _).
        specialize (Hlow m Hm). rewrite Ez in Hlow. apply py_int_le_inv in Hlow.
        apply HO'. lia.
    + intros H. apply HO.
      by apply (forces_win_other_turn TicTacToeGame.PLAYER_O b Hwf Ho HpX H m0).
    + intros Hz. apply (forces_move _ b (place b m0 TicTacToeGame.PLAYER_X)).
      * by apply legal_move_place.
      * by apply HX.
    + intros H. destruct (forces_win_own_turn _ b Hwf Ho H) as (m & Hm & Hf').
      destruct (Hval m Hm) as (z & Ez & _ & _ & _ & HX').
      specialize (Hlow m Hm). rewrite Ez in Hlow. apply py_int_le_inv in Hlow.
      apply HX' in Hf'. lia.
Qed.

Lemma search_cut_value (ai : MinimaxAI.t) (fuel : nat) (b : pystr) (depth : Z)
    (is_maximizing : bool) :
  wf_board b → Z.of_nat (empties b) ≤ depth → (empties b < fuel)%nat →
  ∃ z, search true fuel ai b depth (PFloat f_neg_inf) (PFloat f_inf) is_maximizing = PInt z
       ∧ (z = 0 ∨ 100 ≤ z ∨ z ≤ -100)
       ∧ - (100 + depth) ≤ z ≤ 100 + depth
       ∧ (100 ≤ z ↔ forces_win TicTacToeGame.PLAYER_O b (turn is_maximizing))
       ∧ (z ≤ -100 ↔ forces_win TicTacToeGame.PLAYER_X b (turn is_maximizing)).
Proof.
  intros Hwf Hd Hf. rewrite search_same_score by done. by apply search_value.
Qed.

(** X13. With a depth that covers the empty cells of the board, [_minimax]
    called with the window [(-inf, +inf)] returns the value of the game:
    an integer that is at least 100 exactly when O wins whatever X plays,
    at most -100 exactly when X wins whatever O plays, and 0 in every
    other case.  The static evaluation plays no part in it. *)
Theorem minimax_game_value (ai : MinimaxAI.t) (b : pystr) (depth : Z)
    (is_maximizing : bool) (fuel : nat) (game : loc) (h : heap) :
  wf_board b → Z.of_nat (empties b) ≤ depth → (empties b < fuel)%nat →
  h !! game = Some (TicTacToeGame.Build b) →
  ∃ z h',
    MinimaxAI._minimax fuel ai game depth (PFloat f_neg_inf) (PFloat f_inf) is_maximizing h
    = Ok (PInt z, h')
    ∧ (z = 0 ∨ 100 ≤ z ∨ z ≤ -100)
    ∧ (100 ≤ z ↔ forces_win TicTacToeGame.PLAYER_O b (turn is_maximizing))
    ∧ (z ≤ -100 ↔ forces_win TicTacToeGame.PLAYER_X b (turn is_maximizing)).
Proof.
  intros Hwf Hd Hf E.
  destruct (minimax_with_run true ai fuel b depth (PFloat f_neg_inf) (PFloat f_inf)
              is_maximizing h game Hwf Hf E) as (h' & E' & _).
  destruct (search_cut_value ai fuel b depth is_maximizing Hwf Hd Hf)
    as (z & Ez & Htri & _ & HO & HX).
  exists z, h'. unfold MinimaxAI._minimax. rewrite E', Ez. done.
Qed.

Lemma minimax_game_value_witness :
  ∃ z h',
    MinimaxAI._minimax 10 hard 0%nat 9 (PFloat f_neg_inf) (PFloat f_inf) false
      {[ 0%nat := TicTacToeGame.Build (str "XO  X   O") ]} = Ok (PInt z, h')
    ∧ (z = 0 ∨ 100 ≤ z ∨ z ≤ -100)
    ∧ (100 ≤ z ↔ forces_win TicTacToeGame.PLAYER_O (str "XO  X   O") (turn false))
    ∧ (z ≤ -100 ↔ forces_win TicTacToeGame.PLAYER_X (str "XO  X   O") (turn false)).
Proof.
  apply (minimax_game_value hard (str "XO  X   O") 9 false 10 0%nat).
  - split; reflexivity.
  - vm_compute. discriminate.
  - vm_compute. lia.
  - apply lookup_singleton_eq.
Defined.

(** ** The position weight of a move *)

Lemma int_bonus_between_range : forallb int_bonus_between (Z_range (-128) 257) = true.
Proof. vm_compute. reflexivity. Qed.

Lemma board_bonus_tame_all : forallb board_bonus_tame all_boards = true.
Proof. vm_compute. reflexivity. Qed.

Lemma weighted_off (ai : MinimaxAI.t) (v : pynum) (m : Z) :
  MinimaxAI.use_position_weights ai = false → weighted ai v m = Ok v.
Proof. intros H. unfold weighted. by rewrite H. Qed.

Lemma weighted_on (ai : MinimaxAI.t) (v : pynum) (m : Z) :
  MinimaxAI.use_position_weights ai = true → 0 ≤ m ≤ 8 →
  weighted ai v m = py_add v (PFloat (bonus (position_weight m)))
  ∧ In (bonus (position_weight m)) bonuses.
Proof.
  intros Hw Hm. unfold weighted. rewrite Hw, list_index_weights by done.
  cbn [mbind res_bind]. pose proof (position_weight_cases m) as Hc.
  destruct (weight_term _ Hc) as [Ew _].
  unfold py_mul, to_float. rewrite Ew. cbn [mbind res_bind]. split; [done|].
  by apply bonus_in.
Qed.

Lemma weighted_int (ai : MinimaxAI.t) (z m : Z) :
  MinimaxAI.use_position_weights ai = true → -128 ≤ z ≤ 128 → 0 ≤ m ≤ 8 →
  ∃ s, weighted ai (PInt z) m = Ok s ∧ number s ∧ PInt z ≺ s ∧ s ≺ PInt (z + 1).
Proof.
  intros Hw Hz Hm. destruct (weighted_on ai (PInt z) m Hw Hm) as [-> Hin].
  destruct (int_bonus_finite z _ Hz (position_weight_cases m)) as [Ez _].
  unfold py_add, to_float. rewrite Ez. cbn [mbind res_bind]. eexists. split; [done|].
  pose proof (Z_range_forall _ _ _ int_bonus_between_range z ltac:(lia)) as H.
  unfold int_bonus_between in H. rewrite forallb_forall in H. specialize (H _ Hin).
  apply andb_true_iff in H as [H1 H2].
  apply py_lt_inv in H1 as (_ & Hn & H1). apply py_lt_inv in H2 as (_ & _ & H2). done.
Qed.

Lemma weighted_static (ai : MinimaxAI.t) (b' : pystr) (m : Z) :
  MinimaxAI.use_position_weights ai = true → wf_board b' → 0 ≤ m ≤ 8 →
  ∃ s, weighted ai (static_eval ai b') m = Ok s ∧ number s ∧ s ≺ PInt 64.
Proof.
  intros Hw Hwf Hm. destruct (weighted_on ai (static_eval ai b') m Hw Hm) as [-> Hin].
  rewrite static_eval_spec, static_evaluation_fast, Hw by done.
  unfold py_add, to_float. cbn [mbind res_bind]. eexists. split; [done|].
  pose proof (forall_boards _ board_bonus_tame_all b' Hwf) as H.
  unfold board_bonus_tame in H. rewrite forallb_forall in H. specialize (H _ Hin).
  split; [by apply finite_number, tame_finite|]. by apply tame_below_64 in H as [_ H].
Qed.

(** ** A move that wins at once *)

Lemma search_terminal (cutoff : bool) (fuel : nat) (ai : MinimaxAI.t) (b : pystr) (depth : Z)
    (alpha beta : pynum) (is_maximizing : bool) (winner : option ascii) :
  (0 < fuel)%nat → outcome b = (true, winner) →
  search cutoff fuel ai b depth alpha beta is_maximizing = terminal_score winner depth.
Proof. intros Hf Ho. destruct fuel as [|fuel]; [lia|]. cbn [search]. by rewrite Ho. Qed.

(** The score of a move that does not win at once is below the score of
    a move that does. *)
Lemma candidate_score_win (fuel : nat) (ai : MinimaxAI.t) (b : pystr) (m m' : Z) (s s' : pynum) :
  wf_board b → (9 < fuel)%nat → 0 ≤ MinimaxAI.max_depth ai ≤ 9 →
  In m (moves b) → In m' (moves b) →
  outcome (place b m TicTacToeGame.PLAYER_O) = (true, Some TicTacToeGame.PLAYER_O) →
  outcome (place b m' TicTacToeGame.PLAYER_O) ≠ (true, Some TicTacToeGame.PLAYER_O) →
  candidate_score fuel ai b m = Ok s → candidate_score fuel ai b m' = Ok s' →
  number s ∧ number s' ∧ s' ≺ s.
Proof.
  intros Hwf Hf Hd Hm Hm' Ho Ho' Es Es'. unfold candidate_score in Es, Es'.
  set (D := MinimaxAI.max_depth ai) in *.
  pose proof (empties_le_9 b Hwf) as H9.
  pose proof (moves_range b m Hwf Hm) as Hr. pose proof (moves_range b m' Hwf Hm') as Hr'.
  assert (player_cell TicTacToeGame.PLAYER_O) as Hp by (by right).
  pose proof (place_moves_wf b m' _ Hwf Hm' Hp) as Hwf'.
  pose proof (empties_place b m' TicTacToeGame.PLAYER_O Hwf Hm' ltac:(done)) as He.
  rewrite (search_terminal true fuel ai _ D (PFloat f_neg_inf) (PFloat f_inf) false _
             ltac:(lia) Ho) in Es.
  change (terminal_score (Some TicTacToeGame.PLAYER_O) D) with (PInt (100 + D)) in Es.
  set (v := search true fuel ai (place b m' TicTacToeGame.PLAYER_O) D (PFloat f_neg_inf)
              (PFloat f_inf) false) in *.
  assert (leaf ai (100 + D) v ∧ v ≼ PInt (100 + D - 1)) as [Hleaf Hup].
  { destruct (search_range true ai fuel (place b m' TicTacToeGame.PLAYER_O) D
                (PFloat f_neg_inf) (PFloat f_inf) false Hwf') as [H1 H2]; [lia | lia |].
    fold v in H1, H2. split; [done|].
    destruct (outcome (place b m' TicTacToeGame.PLAYER_O)) as [[] w] eqn:Eo.
    - unfold v. rewrite (search_terminal true fuel ai _ D (PFloat f_neg_inf) (PFloat f_inf)
                          false _ ltac:(lia) Eo).
      pose proof (outcome_over _ w Hwf' Eo) as Hw. unfold terminal_score.
      destruct w as [q|]; [destruct Hw as [-> | ->]; [|done]|]; apply py_int_le; lia.
    - by destruct (leaf_between ai (100 + D - 1) v ltac:(lia) (H2 eq_refl)) as (_ & _ & ?). }
  destruct (MinimaxAI.use_position_weights ai) eqn:Hw.
  - destruct (weighted_int ai (100 + D) m Hw ltac:(lia) Hr) as (s0 & Es0 & Ns & Hlo & _).
    rewrite Es0 in Es. injection Es as <-.
    destruct Hleaf as [(z & Ev & Hz) | (b' & Hwfb & Ev)]; rewrite Ev in *.
    + apply py_int_le_inv in Hup.
      destruct (weighted_int ai z m' Hw ltac:(lia) Hr') as (s1 & Es1 & Ns1 & _ & Hhi).
      rewrite Es1 in Es'. injection Es' as <-.
      pose proof (py_int_le (z + 1) (100 + D) ltac:(lia)). split; [done|]. split; [done | order].
    + destruct (weighted_static ai b' m' Hw Hwfb Hr') as (s1 & Es1 & Ns1 & Hhi).
      rewrite Es1 in Es'. injection Es' as <-.
      pose proof (py_int_le 64 (100 + D) ltac:(lia)). split; [done|]. split; [done | order].
  - rewrite weighted_off in Es, Es' by done. injection Es as <-. injection Es' as <-.
    destruct (leaf_between ai (100 + D) v ltac:(lia) Hleaf) as (Nv & _).
    pose proof (py_int_lt (100 + D - 1) (100 + D) ltac:(lia)).
    split; [done|]. split; [done | order].
Qed.

(** X14. [get_ai_move] does not miss a win.  When it does not take the
    random branch, at each of the three difficulties, and some move of O
    wins the game at once, the move returned wins the game at once. *)
Theorem get_ai_move_takes_win (difficulty : pystr) (ai : MinimaxAI.t) (b : pystr)
    (rnd : draws) (fuel : nat) (game : loc) (h : heap) :
  MinimaxAI.__init__ difficulty = Ok ai →
  wf_board b → (9 < fuel)%nat →
  h !! game = Some (TicTacToeGame.Build b) →
  py_lt (PFloat (random_random rnd)) (PFloat (MinimaxAI.randomization ai)) = false →
  (∃ m g, TicTacToeGame.make_move (TicTacToeGame.Build b) m [TicTacToeGame.PLAYER_O]
          = Ok (true, g)
          ∧ TicTacToeGame.check_winner g = Ok (true, Some TicTacToeGame.PLAYER_O)) →
  ∃ move h' g',
    MinimaxAI.get_ai_move fuel ai rnd game h = Ok (Some move, h')
    ∧ TicTacToeGame.make_move (TicTacToeGame.Build b) move [TicTacToeGame.PLAYER_O]
      = Ok (true, g')
    ∧ TicTacToeGame.check_winner g' = Ok (true, Some TicTacToeGame.PLAYER_O).
Proof.
  intros Hai Hwf Hf E Hrand (mw & gw & Emw & Ewin).
  pose proof (empties_le_9 b Hwf) as H9.
  assert (0 ≤ MinimaxAI.max_depth ai ≤ 9) as Hd.
  { destruct (init_cases _ _ Hai) as [(-> & _) | [(-> & _) | (-> & _)]]; lia. }
  assert (player_cell TicTacToeGame.PLAYER_O) as Hp by (by right).
  destruct gw as [bw]. destruct (make_move_true_inv b mw _ bw Hwf Emw) as (_ & Hmw & ->).
  apply check_winner_outcome in Ewin.
  assert (∀ m, In m (moves b) → ∃ s, candidate_score fuel ai b m = Ok s ∧ finite s) as Hcs.
  { intros m Hm. apply candidate_score_finite; try done; lia. }
  destruct (best_fold_best fuel ai b (moves b) Hcs [] (PFloat f_neg_inf) [])
    as (best & Eb & Nb & I1 & I2); [done | by split |].
  cbn [app] in I1, I2.
  destruct (select_move_spec fuel ai rnd b Hwf) as (r & Er & Hnone & _); [lia | lia |].
  destruct (get_ai_move_run fuel ai rnd game b h r Hwf ltac:(lia) E Er) as (h' & Erun & _).
  destruct r as [move|]; [|destruct Hnone as [Hnone _]; rewrite Hnone in Hmw; done].
  assert (In move best.2) as Hin.
  { revert Er. unfold select_move. destruct (moves b) as [|m0 ms0]; [done|].
    rewrite Hrand, Eb. cbn [mbind res_bind].
    destruct (choice (tie_pick rnd) best.2) as [x|] eqn:Ex; [|done].
    cbn [mbind res_bind]. intros [= <-]. by eapply choice_inv. }
  destruct (I1 move Hin) as (Hm & s & Es & Heq).
  destruct (Hcs mw Hmw) as (sw & Esw & _).
  destruct (I2 mw sw Hmw Esw) as [Hle _].
  exists move, h', (TicTacToeGame.Build (place b move TicTacToeGame.PLAYER_O)).
  split; [done|]. split; [by apply make_move_moves|].
  rewrite outcome_wf by (by apply place_moves_wf). f_equal.
  destruct (decide (outcome (place b move TicTacToeGame.PLAYER_O)
                    = (true, Some TicTacToeGame.PLAYER_O))) as [|Hno]; [done|].
  exfalso.
  destruct (candidate_score_win fuel ai b mw move sw s Hwf Hf Hd Hmw Hm Ewin Hno Esw Es)
    as (Nsw & Ns & Hlt).
  order.
Qed.

Lemma get_ai_move_takes_win_witness :
  ∃ move h' g',
    MinimaxAI.get_ai_move 10 hard (Draws f_0_0 0 0) 0%nat
      {[ 0%nat := TicTacToeGame.Build (str "OO XX    ") ]} = Ok (Some move, h')
    ∧ TicTacToeGame.make_move (TicTacToeGame.Build (str "OO XX    ")) move
        [TicTacToeGame.PLAYER_O] = Ok (true, g')
    ∧ TicTacToeGame.check_winner g' = Ok (true, Some TicTacToeGame.PLAYER_O).
Proof.
  apply (get_ai_move_takes_win (str "hard") hard (str "OO XX    ") (Draws f_0_0 0 0)
           10 0%nat).
  - reflexivity.
  - split; reflexivity.
  - lia.
  - apply lookup_singleton_eq.
  - reflexivity.
  - exists 2, (TicTacToeGame.Build (str "OOOXX    ")). split; reflexivity.
Defined.

(** ** The best class of moves at difficulty "hard" *)

Lemma init_hard (d : pystr) (ai : MinimaxAI.t) :
  MinimaxAI.__init__ d = Ok ai → MinimaxAI.difficulty ai = str "hard" → ai = hard.
Proof.
  unfold MinimaxAI.__init__.
  destruct (pystr_eqb _ (str "easy")) eqn:E1.
  { apply pystr_eqb_eq in E1. cbn [orb negb]. intros [= <-]. cbn [MinimaxAI.difficulty].
    rewrite E1. done. }
  destruct (pystr_eqb _ (str "medium")) eqn:E2.
  { apply pystr_eqb_eq in E2. cbn [orb negb]. intros [= <-]. cbn [MinimaxAI.difficulty].
    rewrite E2. done. }
  destruct (pystr_eqb _ (str "hard")) eqn:E3; [|done].
  apply pystr_eqb_eq in E3. cbn [orb negb]. intros [= <-]. by rewrite E3.
Qed.

(** The move that [get_ai_move] returns at difficulty "hard" leads to a
    board whose value [z] is the best among the boards that the moves of
    O lead to. *)
Lemma hard_move_value (b : pystr) (rnd : draws) (fuel : nat) (game : loc) (h : heap) :
  wf_board b → outcome b = (false, None) →
  unit_float (random_random rnd) → (9 < fuel)%nat →
  h !! game = Some (TicTacToeGame.Build b) →
  ∃ move h' z,
    MinimaxAI.get_ai_move fuel hard rnd game h = Ok (Some move, h')
    ∧ In move (moves b)
    ∧ (100 ≤ z ↔ forces_win TicTacToeGame.PLAYER_O
                   (place b move TicTacToeGame.PLAYER_O) TicTacToeGame.PLAYER_X)
    ∧ (z ≤ -100 ↔ forces_win TicTacToeGame.PLAYER_X
                    (place b move TicTacToeGame.PLAYER_O) TicTacToeGame.PLAYER_X)
    ∧ ∀ b1, legal_move b TicTacToeGame.PLAYER_O b1 →
        ∃ z1, z1 ≤ z
              ∧ (100 ≤ z1 ↔ forces_win TicTacToeGame.PLAYER_O b1 TicTacToeGame.PLAYER_X)
              ∧ (z1 ≤ -100 ↔ forces_win TicTacToeGame.PLAYER_X b1 TicTacToeGame.PLAYER_X).
Proof.
  intros Hwf Hnot Hu Hf E.
  pose proof (empties_le_9 b Hwf) as H9.
  assert (player_cell TicTacToeGame.PLAYER_O) as Hp by (by right).
  assert (moves b ≠ []) as Hne by (apply not_over_has_moves; [done | by rewrite Hnot]).
  assert (∀ m, In m (moves b) →
            ∃ z s, candidate_score fuel hard b m = Ok s
                   ∧ PInt z ≺ s ∧ s ≺ PInt (z + 1)
                   ∧ (100 ≤ z ↔ forces_win TicTacToeGame.PLAYER_O
                                  (place b m TicTacToeGame.PLAYER_O) TicTacToeGame.PLAYER_X)
                   ∧ (z ≤ -100 ↔ forces_win TicTacToeGame.PLAYER_X
                                   (place b m TicTacToeGame.PLAYER_O) TicTacToeGame.PLAYER_X))
    as Hval.
  { intros m Hm. pose proof (place_moves_wf b m _ Hwf Hm Hp) as Hwf'.
    pose proof (empties_place b m TicTacToeGame.PLAYER_O Hwf Hm ltac:(done)) as He.
    destruct (search_cut_value hard fuel (place b m TicTacToeGame.PLAYER_O) 9 false Hwf')
      as (z & Ez & Htri & Hr & HO & HX); [cbn; lia | lia |].
    unfold candidate_score. change (MinimaxAI.max_depth hard) with 9. rewrite Ez.
    destruct (weighted_int hard z m eq_refl ltac:(lia) (moves_range b m Hwf Hm))
      as (s & Es & _ & Hlo & Hhi).
    by exists z, s. }
  assert (∀ m, In m (moves b) → ∃ s, candidate_score fuel hard b m = Ok s ∧ finite s) as Hcs.
  { intros m Hm. apply candidate_score_finite; try done; lia. }
  destruct (best_fold_best fuel hard b (moves b) Hcs [] (PFloat f_neg_inf) [])
    as (best & Eb & Nb & I1 & I2); [done | by split |].
  cbn [app] in I1, I2.
  destruct (select_move_spec fuel hard rnd b Hwf) as (r & Er & Hnone & _);
    [lia | exact hard_depth |].
  destruct (get_ai_move_run fuel hard rnd game b h r Hwf ltac:(lia) E Er) as (h' & Erun & _).
  destruct r as [move|]; [|exfalso; by apply Hne, Hnone].
  assert (In move best.2) as Hin.
  { revert Er. unfold select_move. destruct (moves b) as [|m0 ms0]; [done|].
    change (MinimaxAI.randomization hard) with f_0_0.
    rewrite (unit_float_not_below_zero _ Hu), Eb. cbn [mbind res_bind].
    destruct (choice (tie_pick rnd) best.2) as [x|] eqn:Ex; [|done].
    cbn [mbind res_bind]. intros [= <-]. by eapply choice_inv. }
  destruct (I1 move Hin) as (Hm & s & Es & Heq).
  destruct (Hval move Hm) as (z & s0 & Es0 & Hlo & Hhi & HO & HX).
  rewrite Es0 in Es. injection Es as ->.
  exists move, h', z. split; [done|]. split; [done|]. split; [done|]. split; [done|].
  intros b1 Hl. destruct (legal_move_inv b _ b1 Hwf Hl) as (_ & m1 & Hm1 & ->).
  destruct (Hval m1 Hm1) as (z1 & s1 & Es1 & Hlo1 & Hhi1 & HO1 & HX1).
  destruct (I2 m1 s1 Hm1 Es1) as [Hle _].
  exists z1. split; [|done]. assert (z1 < z + 1); [|lia]. apply py_int_lt_inv. order.
Qed.

(** X15. At difficulty "hard" [get_ai_move] plays a move of the best
    class, on every board of nine cells where the game is not over and
    for every outcome of the random draws: when some move of O leads to a
    board from which O wins whatever X plays, so does the move returned;
    and when some move of O leads to a board from which X cannot win
    whatever O plays, so does the move returned. *)
Theorem hard_ai_plays_best_class (difficulty : pystr) (ai : MinimaxAI.t) (b : pystr)
    (rnd : draws) (fuel : nat) (game : loc) (h : heap) :
  MinimaxAI.__init__ difficulty = Ok ai →
  MinimaxAI.difficulty ai = str "hard" →
  wf_board b →
  TicTacToeGame.check_winner (TicTacToeGame.Build b) = Ok (false, None) →
  unit_float (random_random rnd) → (9 < fuel)%nat →
  h !! game = Some (TicTacToeGame.Build b) →
  ∃ move h' b',
    MinimaxAI.get_ai_move fuel ai rnd game h = Ok (Some move, h')
    ∧ TicTacToeGame.make_move (TicTacToeGame.Build b) move [TicTacToeGame.PLAYER_O]
      = Ok (true, TicTacToeGame.Build b')
    ∧ ((∃ b1, legal_move b TicTacToeGame.PLAYER_O b1
              ∧ forces_win TicTacToeGame.PLAYER_O b1 TicTacToeGame.PLAYER_X)
       → forces_win TicTacToeGame.PLAYER_O b' TicTacToeGame.PLAYER_X)
    ∧ ((∃ b1, legal_move b TicTacToeGame.PLAYER_O b1
              ∧ ¬ forces_win TicTacToeGame.PLAYER_X b1 TicTacToeGame.PLAYER_X)
       → ¬ forces_win TicTacToeGame.PLAYER_X b' TicTacToeGame.PLAYER_X).
Proof.
  intros Hai Hhard Hwf Hnot Hu Hf E. rewrite (init_hard _ _ Hai Hhard) in *. clear Hai Hhard.
  apply check_winner_outcome in Hnot.
  destruct (hard_move_value b rnd fuel game h Hwf Hnot Hu Hf E)
    as (move & h' & z & Erun & Hm & HO & HX & Hother).
  exists move, h', (place b move TicTacToeGame.PLAYER_O).
  split; [done|]. split; [apply make_move_moves; [done | done | by right]|].
  split.
  - intros (b1 & Hl & Hwin). destruct (Hother b1 Hl) as (z1 & Hle & HO1 & _).
    apply HO. apply HO1 in Hwin. lia.
  - intros (b1 & Hl & Hsafe) Hlose. destruct (Hother b1 Hl) as (z1 & Hle & _ & HX1).
    apply HX in Hlose. apply Hsafe, HX1. lia.
Qed.

Lemma hard_ai_plays_best_class_witness :
  ∃ move h' b',
    MinimaxAI.get_ai_move 10 hard (Draws f_0_0 0 0) 0%nat
      {[ 0%nat := TicTacToeGame.Build (str "X        ") ]} = Ok (Some move, h')
    ∧ TicTacToeGame.make_move (TicTacToeGame.Build (str "X        ")) move
        [TicTacToeGame.PLAYER_O] = Ok (true, TicTacToeGame.Build b')
    ∧ ((∃ b1, legal_move (str "X        ") TicTacToeGame.PLAYER_O b1
              ∧ forces_win TicTacToeGame.PLAYER_O b1 TicTacToeGame.PLAYER_X)
       → forces_win TicTacToeGame.PLAYER_O b' TicTacToeGame.PLAYER_X)
    ∧ ((∃ b1, legal_move (str "X        ") TicTacToeGame.PLAYER_O b1
              ∧ ¬ forces_win TicTacToeGame.PLAYER_X b1 TicTacToeGame.PLAYER_X)
       → ¬ forces_win TicTacToeGame.PLAYER_X b' TicTacToeGame.PLAYER_X).
Proof.
  apply (hard_ai_plays_best_class (str "Hard") hard (str "X        ") (Draws f_0_0 0 0)
           10 0%nat).
  - reflexivity.
  - reflexivity.
  - split; reflexivity.
  - reflexivity.
  - exists 0%Q. split; [reflexivity|]. split; [apply Qle_refl | reflexivity].
  - lia.
  - apply lookup_singleton_eq.
Defined.

(** * Games against the AI of difficulty "hard" *)

(** Whether X can force a win is decided by the value of the search. *)
Lemma x_forces_win_dec (b : pystr) (is_maximizing : bool) :
  wf_board b →
  forces_win TicTacToeGame.PLAYER_X b (turn is_maximizing)
  ∨ ¬ forces_win TicTacToeGame.PLAYER_X b (turn is_maximizing).
Proof.
  intros Hwf. pose proof (empties_le_9 b Hwf) as H9.
  destruct (search_cut_value hard 10 b 9 is_maximizing Hwf) as (z & _ & _ & _ & _ & HX);
    [lia | lia |].
  destruct (Z_le_dec z (-100)) as [Hz | Hz]; [left; by apply HX | right].
  intros H. by apply Hz, HX.
Qed.

(** On a board where X, after any move of O, can force a win, X can
    force a win: so where X cannot, O has a move after which X cannot. *)
Lemma not_lost_has_reply (b : pystr) :
  wf_board b → outcome b = (false, None) →
  ¬ forces_win TicTacToeGame.PLAYER_X b TicTacToeGame.PLAYER_O →
  ∃ b1, legal_move b TicTacToeGame.PLAYER_O b1
        ∧ ¬ forces_win TicTacToeGame.PLAYER_X b1 TicTacToeGame.PLAYER_X.
Proof.
  intros Hwf Hnot Hb.
  assert (player_cell TicTacToeGame.PLAYER_O) as Hp by (by right).
  assert ((outcome b).1 = false) as Ho by (by rewrite Hnot).
  assert (∀ ms, (∀ m, In m ms → In m (moves b)) →
            (∃ m, In m ms
                  ∧ ¬ forces_win TicTacToeGame.PLAYER_X
                        (place b m TicTacToeGame.PLAYER_O) TicTacToeGame.PLAYER_X)
            ∨ (∀ m, In m ms →
                 forces_win TicTacToeGame.PLAYER_X
                   (place b m TicTacToeGame.PLAYER_O) TicTacToeGame.PLAYER_X)) as Hall.
  { induction ms as [|m ms IH]; intros Hms; [by right|].
    destruct (x_forces_win_dec (place b m TicTacToeGame.PLAYER_O) false) as [Hm | Hm].
    - apply place_moves_wf; [done | apply Hms; by left | done].
    - destruct IH as [(m' & Hin & Hm') | IH].
      + intros m' Hm'. apply Hms. by right.
      + left. exists m'. split; [by right | done].
      + right. intros m' [<- | Hm']; [done | by apply IH].
    - left. exists m. split; [by left | done]. }
  destruct (Hall (moves b)) as [(m & Hm & Hsafe) | Hlost]; [done | |].
  - exists (place b m TicTacToeGame.PLAYER_O). split; [by apply legal_move_place | done].
  - exfalso. apply Hb. apply (forces_reply TicTacToeGame.PLAYER_X b).
    + rewrite outcome_wf by done. by rewrite Hnot.
    + intros b' Hl. destruct (legal_move_inv b _ b' Hwf Hl) as (_ & m & Hm & ->).
      by apply Hlost.
Qed.

(** On the empty board X, moving first, cannot force a win. *)
Lemma empty_board_not_lost :
  ¬ forces_win TicTacToeGame.PLAYER_X empty_board TicTacToeGame.PLAYER_X.
Proof.
  destruct (search_cut_value hard 10 empty_board 9 false wf_empty_board)
    as (z & Ez & _ & _ & _ & HX); [cbn; lia | cbn; lia |].
  assert (search true 10 hard empty_board 9 (PFloat f_neg_inf) (PFloat f_inf) false = PInt 0)
    as E0 by (vm_compute; reflexivity).
  rewrite E0 in Ez. injection Ez as <-. intros H. apply HX in H. lia.
Qed.

(** In a game against the AI X is never in a position to force a win. *)
Lemma ai_play_not_lost (b : pystr) (p : ascii) :
  ai_play b p → wf_board b ∧ ¬ forces_win TicTacToeGame.PLAYER_X b p.
Proof.
  induction 1 as [|b b' _ [Hwf IH] Hl | b m b' _ [Hwf IH] Hc Hm Hmv].
  - split; [exact wf_empty_board | exact empty_board_not_lost].
  - destruct (legal_move_inv b _ b' Hwf Hl) as (_ & m & Hm & ->).
    split; [apply place_moves_wf; [done | done | by left]|].
    intros H. apply IH. by apply (forces_move TicTacToeGame.PLAYER_X b _ Hl).
  - destruct Hm as (fuel & rnd & game & h & h' & Hf & Hu & E & Hrun).
    apply check_winner_outcome in Hc.
    destruct (make_move_true_inv b m _ b' Hwf Hmv) as (Hp & Hin & ->).
    split; [by apply place_moves_wf|].
    destruct (not_lost_has_reply b Hwf Hc IH) as (b1 & Hl & Hsafe).
    destruct (hard_move_value b rnd fuel game h Hwf Hc Hu Hf E)
      as (move & h'' & z & Erun & _ & _ & HX & Hother).
    rewrite Erun in Hrun. injection Hrun as -> _.
    destruct (Hother b1 Hl) as (z1 & Hle & _ & HX1).
    intros H. apply HX in H. apply Hsafe, HX1. lia.
Qed.

(** C1. Take any board of legal alternating play from the empty board
    (X first) where the game is not over and it is the turn of O.  At
    difficulty "hard" (depth 9, randomization 0.0, position weights), for
    every outcome of the random draws, [get_ai_move] returns a valid move,
    and this move is not a losing one when a move that is not losing
    exists: if some move of O leads to a board from which X cannot force
    a win, the move returned leads to such a board.  Likewise, if some
    move of O leads to a board from which O forces a win, so does the move
    returned; and if some move of O leaves X without a move that wins at
    once, so does the move returned.  Consequently, in the games that X
    plays against these moves, X moving first and as it likes, X is never
    in a position to force a win, and no board is won by X. *)
Theorem hard_ai_never_loses :
  MinimaxAI.__init__ (str "hard") = Ok hard
  ∧ (∀ (b : pystr) (rnd : draws) (fuel : nat) (game : loc) (h : heap),
       legal_play b TicTacToeGame.PLAYER_O →
       TicTacToeGame.check_winner (TicTacToeGame.Build b) = Ok (false, None) →
       unit_float (random_random rnd) → (9 < fuel)%nat →
       h !! game = Some (TicTacToeGame.Build b) →
       ∃ m h' b',
         MinimaxAI.get_ai_move fuel hard rnd game h = Ok (Some m, h')
         ∧ TicTacToeGame.make_move (TicTacToeGame.Build b) m [TicTacToeGame.PLAYER_O]
           = Ok (true, TicTacToeGame.Build b')
         ∧ ((∃ b1, legal_move b TicTacToeGame.PLAYER_O b1
                   ∧ ¬ forces_win TicTacToeGame.PLAYER_X b1 TicTacToeGame.PLAYER_X)
            → ¬ forces_win TicTacToeGame.PLAYER_X b' TicTacToeGame.PLAYER_X)
         ∧ ((∃ b1, legal_move b TicTacToeGame.PLAYER_O b1
                   ∧ forces_win TicTacToeGame.PLAYER_O b1 TicTacToeGame.PLAYER_X)
            → forces_win TicTacToeGame.PLAYER_O b' TicTacToeGame.PLAYER_X)
         ∧ ((∃ b1, legal_move b TicTacToeGame.PLAYER_O b1 ∧ ¬ x_wins_at_once b1)
            → ¬ x_wins_at_once b'))
  ∧ (∀ (b : pystr) (p : ascii),
       ai_play b p →
       ¬ forces_win TicTacToeGame.PLAYER_X b p
       ∧ TicTacToeGame.check_winner (TicTacToeGame.Build b)
         ≠ Ok (true, Some TicTacToeGame.PLAYER_X)).
Proof.
  split; [reflexivity|]. split.
  - intros b rnd fuel game h Hplay Hnot Hu Hf E.
    pose proof (legal_play_ok b _ Hplay) as Hok. unfold legal_ok in Hok.
    rewrite !andb_true_iff in Hok. destruct Hok as [[Hwf _] Hav].
    apply wf_boardb_spec in Hwf. cbn [Ascii.eqb] in Hav.
    change (Ascii.eqb TicTacToeGame.PLAYER_O TicTacToeGame.PLAYER_X) with false in Hav.
    cbv iota in Hav.
    pose proof (check_winner_outcome b _ Hnot) as Ho.
    assert (moves b ≠ []) as Hne by (apply not_over_has_moves; [done | by rewrite Ho]).
    destruct (hard_move_value b rnd fuel game h Hwf Ho Hu Hf E)
      as (m & h' & z & Erun & Hm & HO & HX & Hother).
    destruct (get_ai_move_hard fuel rnd game b h Hwf Hf Hu E) as (r & h1 & Er & Hr).
    destruct (Hr Hne) as (m1 & -> & Hbest & _).
    rewrite Erun in Er. injection Er as <- _.
    assert (player_cell TicTacToeGame.PLAYER_O) as Hpo by (by right).
    exists m, h', (place b m TicTacToeGame.PLAYER_O).
    split; [done|]. split; [by apply make_move_moves|]. split; [|split].
    + intros (b1 & Hl & Hsafe) Hlose. destruct (Hother b1 Hl) as (z1 & Hle & _ & HX1).
      apply HX in Hlose. apply Hsafe, HX1. lia.
    + intros (b1 & Hl & Hwin). destruct (Hother b1 Hl) as (z1 & Hle & HO1 & _).
      apply HO. apply HO1 in Hwin. lia.
    + intros (b1 & Hl & Hsafe).
      destruct (legal_move_in b _ b1 Hwf Hl) as (_ & Hin & Hwf1).
      unfold avoids_loss in Hav.
      assert (existsb (λ b1, negb (x_wins_at_onceb b1)) (all_moves b TicTacToeGame.PLAYER_O)
              = true) as Hex.
      { apply existsb_exists. exists b1. split; [done|]. apply negb_true_iff.
        destruct (x_wins_at_onceb b1) eqn:Ex; [|done].
        exfalso. by apply Hsafe, x_wins_at_once_spec. }
      rewrite Hex in Hav. rewrite forallb_forall in Hav. specialize (Hav m Hbest).
      apply negb_true_iff in Hav. intros Hwin.
      apply x_wins_at_once_spec in Hwin; [congruence|]. by apply place_moves_wf.
  - intros b p Hplay. destruct (ai_play_not_lost b p Hplay) as [_ Hsafe].
    split; [done|]. intros Hc. apply Hsafe. by apply forces_won.
Qed.

Lemma hard_ai_never_loses_witness :
  ∃ m h' b',
    MinimaxAI.get_ai_move 10 hard (Draws f_0_0 0 0) 0%nat
      {[ 0%nat := TicTacToeGame.Build (str "XX  O    ") ]} = Ok (Some m, h')
    ∧ TicTacToeGame.make_move (TicTacToeGame.Build (str "XX  O    ")) m
        [TicTacToeGame.PLAYER_O]
      = Ok (true, TicTacToeGame.Build b')
    ∧ ¬ forces_win TicTacToeGame.PLAYER_X b' TicTacToeGame.PLAYER_X
    ∧ ¬ x_wins_at_once b'.
Proof.
  destruct (proj1 (proj2 hard_ai_never_loses) (str "XX  O    ") (Draws f_0_0 0 0) 10%nat
              0%nat {[ 0%nat := TicTacToeGame.Build (str "XX  O    ") ]})
    as (m & h' & b' & E & Hm & Hsafe & _ & Hnow).
  - apply (legal_next (str "X   O    ") TicTacToeGame.PLAYER_X (str "XX  O    ")).
    + apply (legal_next (str "X        ") TicTacToeGame.PLAYER_O (str "X   O    ")).
      * apply (legal_next empty_board TicTacToeGame.PLAYER_X (str "X        ") legal_start).
        split; [reflexivity|]. exists 0. reflexivity.
      * split; [reflexivity|]. exists 4. reflexivity.
    + split; [reflexivity|]. exists 1. reflexivity.
  - reflexivity.
  - exists 0%Q. split; [reflexivity|]. split; [apply Qle_refl | reflexivity].
  - apply Nat.lt_succ_diag_r.
  - apply lookup_singleton_eq.
  - exists m, h', b'. split; [exact E|]. split; [exact Hm|].
    assert (legal_move (str "XX  O    ") TicTacToeGame.PLAYER_O (str "XXO O    ")) as Hl.
    { split; [reflexivity|]. exists 2. reflexivity. }
    assert (wf_board (str "XXO O    ")) as Hwf by (split; reflexivity).
    split.
    + apply Hsafe. exists (str "XXO O    "). split; [exact Hl|].
      destruct (search_cut_value hard 10 (str "XXO O    ") 9 false Hwf)
        as (z & Ez & _ & _ & _ & HX); [cbn; lia | cbn; lia |].
      assert (search true 10 hard (str "XXO O    ") 9 (PFloat f_neg_inf) (PFloat f_inf) false
              = PInt 0) as E0 by (vm_compute; reflexivity).
      rewrite E0 in Ez. injection Ez as <-. intros H. apply HX in H. lia.
    + apply Hnow. exists (str "XXO O    "). split; [exact Hl|].
      intros H. apply x_wins_at_once_spec in H; [|exact Hwf]. vm_compute in H. discriminate.
Defined.
